(** * NID verification service: the verification client and the audit sink

    A shallow embedding of
    - [src/services/nidService.js] (class [NIDService]: [authenticate],
      [ensureValidToken], [verifyNID], [processPhoto]),
    - [src/utils/imageUtils.js] ([fetchImageAsBase64], [isValidImageUrl]),
    - [src/middleware/requestLogger.js], the revision that sanitises the
      response before it is stored ([sanitizeResponseData], [requestLogger],
      [logRequestToDatabase]),
    - the [/verify] handler and the rule for [nid] of
      [src/routes/nidRoutes.js], and [src/middleware/ipWhitelist.js],
    - [transaction] of [src/config/database.js].

    JavaScript values are JSON trees; the mutable service object, the clock
    and the network are one explicit [world] threaded through every call.
    Numbers are integers: the code never computes with a fractional one. *)

From Stdlib Require Import ZArith String Ascii List Bool Lia DecimalString.
From stdpp Require Import base option list strings.

Set Warnings "-register-all".
Open Scope Z_scope.

(** ** JavaScript values *)

Module JS.

Inductive value : Type :=
| Undefined
| Null
| Bool (b : bool)
| Num (n : Z)
| Str (s : string)
| Arr (xs : list value)
| Obj (ms : list (string * value)).

(** An induction principle that reaches the values nested in arrays and
    objects. *)
Section value_induction.
Variable P : value -> Prop.
Hypothesis HUndefined : P Undefined.
Hypothesis HNull : P Null.
Hypothesis HBool : forall b, P (Bool b).
Hypothesis HNum : forall n, P (Num n).
Hypothesis HStr : forall s, P (Str s).
Hypothesis HArr : forall xs, Forall P xs -> P (Arr xs).
Hypothesis HObj : forall ms, Forall (fun kv => P (snd kv)) ms -> P (Obj ms).

Fixpoint value_ind' (v : value) : P v :=
  match v with
  | Undefined => HUndefined
  | Null => HNull
  | Bool b => HBool b
  | Num n => HNum n
  | Str s => HStr s
  | Arr xs =>
      HArr xs ((fix go (l : list value) : Forall P l :=
                  match l with
                  | [] => List.Forall_nil P
                  | x :: r => @List.Forall_cons _ P x r (value_ind' x) (go r)
                  end) xs)
  | Obj ms =>
      HObj ms ((fix go (l : list (string * value))
                  : Forall (fun kv => P (snd kv)) l :=
                  match l with
                  | [] => List.Forall_nil _
                  | kv :: r =>
                      @List.Forall_cons _ (fun kv => P (snd kv)) kv r
                        (value_ind' (snd kv)) (go r)
                  end) ms)
  end.
End value_induction.

(** [ToBoolean]: what [if (v)], [!v], [v || d] and [v && w] test. *)
Definition truthy (v : value) : bool :=
  match v with
  | Undefined | Null => false
  | Bool b => b
  | Num n => negb (n =? 0)
  | Str s => negb (String.eqb s "")
  | Arr _ | Obj _ => true
  end.

(** [a || b] *)
Definition or_else (a b : value) : value := if truthy a then a else b.

(** Own-property lookup in an object literal's member list. *)
Fixpoint assoc {A : Type} (k : string) (ms : list (string * A)) : option A :=
  match ms with
  | [] => None
  | (k', v) :: r => if String.eqb k k' then Some v else assoc k r
  end.

(** [v.k] where [v] is known not to be [null] or [undefined], and [v?.k].
    The only property names the code reads are data fields ([status],
    [success], [data], [photo], ...), none of which a string, number,
    boolean or array carries, so those give [undefined]. *)
Definition prop (v : value) (k : string) : value :=
  match v with
  | Obj ms => default Undefined (assoc k ms)
  | _ => Undefined
  end.

(** [o.k = x] on an object: an existing member keeps its place, a new one
    is appended. *)
Fixpoint set_member {A : Type} (k : string) (x : A) (ms : list (string * A))
  : list (string * A) :=
  match ms with
  | [] => [(k, x)]
  | (k', v) :: r =>
      if String.eqb k k' then (k', x) :: r else (k', v) :: set_member k x r
  end.

Definition set_prop (v : value) (k : string) (x : value) : value :=
  match v with
  | Obj ms => Obj (set_member k x ms)
  | _ => v
  end.

(** [v === 'lit'] *)
Definition is_str (v : value) (lit : string) : bool :=
  match v with
  | Str s => String.eqb s lit
  | _ => false
  end.

(** [String(v)], the conversion a template literal applies. *)
Fixpoint display (v : value) : string :=
  match v with
  | Undefined => "undefined"
  | Null => "null"
  | Bool true => "true"
  | Bool false => "false"
  | Num n => NilZero.string_of_int (Z.to_int n)
  | Str s => s
  | Arr xs =>
      (* [Array.prototype.join]: [null] and [undefined] items print empty *)
      (fix join (l : list value) : string :=
         match l with
         | [] => ""
         | x :: r =>
             let item := match x with
                         | Undefined | Null => ""
                         | _ => display x
                         end in
             match r with
             | [] => item
             | _ :: _ => item +:+ "," +:+ join r
             end
         end) xs
  | Obj _ => "[object Object]"
  end.

(** Errors are [Error] objects: a message and, for a rejected axios call
    that got an answer, the answer itself ([error.response]). *)
Record error : Type := mkError {
  message : string;
  response : option (Z * value)
}.

Definition Error (msg : string) : error := mkError msg None.

Inductive result (A : Type) : Type :=
| Ok (a : A)
| Throw (e : error).
Arguments Ok {A} a.
Arguments Throw {A} e.

(** [v.k] in general: reading a property of [null] or [undefined] throws
    a [TypeError]. *)
Definition get (v : value) (k : string) : result value :=
  match v with
  | Undefined =>
      Throw (Error ("Cannot read properties of undefined (reading '" +:+ k +:+ "')"))
  | Null =>
      Throw (Error ("Cannot read properties of null (reading '" +:+ k +:+ "')"))
  | _ => Ok (prop v k)
  end.

(** [v?.k] *)
Definition opt_chain (v : value) (k : string) : value :=
  match v with
  | Undefined | Null => Undefined
  | _ => prop v k
  end.

(** [s.includes(t)], [s.startsWith(t)], [s.toLowerCase()]. *)
Fixpoint includes (s t : string) : bool :=
  String.prefix t s ||
  match s with
  | EmptyString => false
  | String _ r => includes r t
  end.

Definition startsWith (s t : string) : bool := String.prefix t s.

Definition lower (c : ascii) : ascii :=
  let n := nat_of_ascii c in
  if ((65 <=? n) && (n <=? 90))%nat then ascii_of_nat (n + 32) else c.

Fixpoint toLowerCase (s : string) : string :=
  match s with
  | EmptyString => EmptyString
  | String c r => String (lower c) (toLowerCase r)
  end.

Definition upper (c : ascii) : ascii :=
  let n := nat_of_ascii c in
  if ((97 <=? n) && (n <=? 122))%nat then ascii_of_nat (n - 32) else c.

Fixpoint toUpperCase (s : string) : string :=
  match s with
  | EmptyString => EmptyString
  | String c r => String (upper c) (toUpperCase r)
  end.

End JS.

Import JS.

(** ** The audit sink: [src/middleware/requestLogger.js] *)

Module Audit.

(** [JSON.parse(JSON.stringify(v))] on a tree: a member whose value is
    [undefined] is left out, an [undefined] array item becomes [null]. *)
Fixpoint json_clone (v : value) : value :=
  match v with
  | Arr xs =>
      Arr ((fix items (l : list value) : list value :=
              match l with
              | [] => []
              | x :: r =>
                  match x with
                  | Undefined => Null
                  | _ => json_clone x
                  end :: items r
              end) xs)
  | Obj ms =>
      Obj ((fix members (l : list (string * value)) : list (string * value) :=
              match l with
              | [] => []
              | (k, x) :: r =>
                  match x with
                  | Undefined => members r
                  | _ => (k, json_clone x) :: members r
                  end
              end) ms)
  | _ => v
  end.

(** [typeof v === 'object'] *)
Definition is_object (v : value) : bool :=
  match v with
  | Null | Arr _ | Obj _ => true
  | _ => false
  end.

(** [typeof v === 'string'] *)
Definition is_string (v : value) : bool :=
  match v with
  | Str _ => true
  | _ => false
  end.

Definition PHOTO_REMOVED : string := "[PHOTO_DATA_REMOVED_FOR_STORAGE]".

(** The template [`[${field.toUpperCase()}_DATA_REMOVED_FOR_STORAGE]`]. *)
Definition removed_marker (field : string) : string :=
  "[" +:+ toUpperCase field +:+ "_DATA_REMOVED_FOR_STORAGE]".

Definition largeFields : list string :=
  ["image"; "photo"; "picture"; "avatar"; "signature"]%string.

(** [sanitized.data.personDetails.photo = x] and [sanitized.data[field] = x]:
    the copy is a tree, so the assignment rebuilds the path to the member. *)
Definition set_data_field (sanitized : value) (field : string) (x : value) : value :=
  set_prop sanitized "data" (set_prop (prop sanitized "data") field x).

Definition set_person_photo (sanitized : value) (x : value) : value :=
  set_data_field sanitized "personDetails"
    (set_prop (prop (prop sanitized "data") "personDetails") "photo" x).

(** One round of the [largeFields.forEach] callback; the state is the copy
    and the list [sanitizedFields]. *)
Definition sanitize_large_field (acc : value * list string) (field : string)
  : value * list string :=
  let '(sanitized, sanitizedFields) := acc in
  let d := prop sanitized "data" in
  if truthy d && truthy (prop d field) && is_string (prop d field)
     && startsWith (display (prop d field)) "data:"
  then (set_data_field sanitized field (Str (removed_marker field)),
        sanitizedFields ++ ["data." +:+ field])
  else acc.

(** The first [if]: the photo inside [personDetails]. *)
Definition redact_person_photo (acc : value * list string) : value * list string :=
  let '(sanitized, sanitizedFields) := acc in
  let d := prop sanitized "data" in
  if truthy d && truthy (prop d "personDetails")
     && truthy (prop (prop d "personDetails") "photo")
  then (set_person_photo sanitized (Str PHOTO_REMOVED),
        sanitizedFields ++ ["personDetails.photo"%string])
  else acc.

(** The second [if]: a photo directly in [data]. *)
Definition redact_data_photo (acc : value * list string) : value * list string :=
  let '(sanitized, sanitizedFields) := acc in
  let d := prop sanitized "data" in
  if truthy d && truthy (prop d "photo")
  then (set_data_field sanitized "photo" (Str PHOTO_REMOVED),
        sanitizedFields ++ ["data.photo"%string])
  else acc.

(** The body of [sanitizeResponseData] after the guard: the sanitized copy
    and the names pushed to [sanitizedFields]. *)
Definition sanitize_copy (data : value) : value * list string :=
  let sanitized := json_clone data in
  let sanitizedFields := [] in
  fold_left sanitize_large_field largeFields
            (redact_data_photo (redact_person_photo (sanitized, sanitizedFields))).

Definition sanitizeResponseData (data : value) : value :=
  if negb (truthy data) || negb (is_object data) then data
  else fst (sanitize_copy data).

(** The names the function reports to the logger. *)
Definition sanitizedFields (data : value) : list string :=
  if negb (truthy data) || negb (is_object data) then []
  else snd (sanitize_copy data).

(** [v.data[field]] and [v.data.personDetails.photo], read without
    throwing (as behind the guards of the function). *)
Definition data_field (v : value) (field : string) : value :=
  prop (prop v "data") field.

Definition person_photo (v : value) : value :=
  prop (prop (prop v "data") "personDetails") "photo".

(** A string that begins with the embedded-data marker [data:]. *)
Definition is_data_url (v : value) : bool :=
  match v with
  | Str s => startsWith s "data:"
  | _ => false
  end.

(** Some string anywhere in the tree is an embedded asset. *)
Fixpoint has_data_url (v : value) : bool :=
  match v with
  | Str _ => is_data_url v
  | Arr xs =>
      (fix any (l : list value) : bool :=
         match l with
         | [] => false
         | x :: r => has_data_url x || any r
         end) xs
  | Obj ms =>
      (fix any (l : list (string * value)) : bool :=
         match l with
         | [] => false
         | (_, x) :: r => has_data_url x || any r
         end) ms
  | _ => false
  end.

(** A tree as [JSON.parse] gives it: no [undefined] anywhere. *)
Fixpoint is_json (v : value) : bool :=
  match v with
  | Undefined => false
  | Arr xs =>
      (fix all (l : list value) : bool :=
         match l with
         | [] => true
         | x :: r => is_json x && all r
         end) xs
  | Obj ms =>
      (fix all (l : list (string * value)) : bool :=
         match l with
         | [] => true
         | (_, x) :: r => is_json x && all r
         end) ms
  | _ => true
  end.

End Audit.

(** *** [requestLogger] and [logRequestToDatabase] *)

Module Logger.
Import Audit.

(** A text column is either a JavaScript string as it is or the text
    [JSON.stringify(v)], kept as the tree [v] it serialises. *)
Inductive text : Type :=
| Raw (s : string)
| Stringified (v : value).

(** The parameters bound to the [INSERT INTO request_logs] statement, in
    the order of its columns. *)
Record log_row : Type := mkRow {
  request_id : string;
  client_ip : value;
  system_name : value;
  nid : value;
  request_data : text;
  response_data : text;
  status : string;
  error_message : option text;
  processing_time_ms : Z
}.

(** What the outside can see of the middleware, in the order it happens. *)
Inductive event : Type :=
| LogInfo (msg : string)
| LogError (msg : string)
| DbRun (row : log_row)            (* [db.run(...)] is issued *)
| Sent (data : value).             (* [originalSend.call(this, data)] *)

(** The request and response objects, as far as the logger reads them. *)
Record request : Type := mkRequest {
  body : value;                    (* [req.body] *)
  systemInfo : value               (* [req.systemInfo] *)
}.

(** The events the caller of the service can see: what is sent to it. *)
Definition is_sent (e : event) : bool :=
  match e with
  | Sent _ => true
  | _ => false
  end.

Section logger.
(** [JSON.parse] on a string; a [SyntaxError] is a [Throw]. *)
Variable JSON_parse : string -> result value.

(** The [if (responseData) { try ... catch ... }] block: the value stored
    in [parsedResponseData] and the line the sanitizer logs, if any. *)
Definition parse_response (responseData : value) : value * list event :=
  if truthy responseData then
    let parsed :=
      match responseData with
      | Str s => JSON_parse s
      | _ => Ok responseData
      end in
    match parsed with
    | Ok v =>
        (sanitizeResponseData v,
         match sanitizedFields v with
         | [] => []
         | fs => [LogInfo
                    ("Response data sanitized for storage - Removed fields: "
                     +:+ String.concat ", " fs)]
         end)
    | Throw _ => (Obj [("raw"%string, responseData)], [])
    end
  else (Null, []).

Definition build_row (req : request) (statusCode : Z) (responseData : value)
           (processingTime : Z) (requestId : string) : log_row * list event :=
  let requestData :=
    Obj [("nid"%string, or_else (opt_chain (body req) "nid") Null);
         ("dateOfBirth"%string, or_else (opt_chain (body req) "dateOfBirth") Null);
         ("nameEn"%string, or_else (opt_chain (body req) "nameEn") Null)] in
  let '(parsedResponseData, logs) := parse_response responseData in
  ({| request_id := requestId;
      client_ip := or_else (opt_chain (systemInfo req) "ip") (Str "unknown");
      system_name := or_else (opt_chain (systemInfo req) "systemName") (Str "unknown");
      nid := or_else (prop requestData "nid") (Str "N/A");
      request_data := Stringified requestData;
      response_data := Stringified parsedResponseData;
      status := if statusCode <? 400 then "SUCCESS" else "ERROR";
      error_message :=
        if statusCode >=? 400
        then Some (match responseData with
                   | Str s => Raw s
                   | _ => Stringified responseData
                   end)
        else None;
      processing_time_ms := processingTime |},
   logs).

(** [logRequestToDatabase] is an [async] function: it runs up to
    [await db.run(...)], hands a promise back and goes on when the
    database answers.  This is the first half: the events up to the
    suspension and the row whose insert is awaited. *)
Definition logRequestToDatabase_start (req : request) (statusCode : Z)
           (responseData : value) (processingTime : Z) (requestId : string)
  : list event * log_row :=
  let '(row, logs) := build_row req statusCode responseData processingTime requestId in
  (logs ++ [DbRun row], row).

(** [db.run] of [src/config/database.js] once the statement was executed:
    a failure is logged and thrown again. *)
Definition db_run (executed : result unit) : list event * result unit :=
  match executed with
  | Ok _ => ([], Ok tt)
  | Throw e => ([LogError "Database execute error:"], Throw e)
  end.

(** The rest of the [try] block once [db.run] has settled. *)
Definition after_insert (statusCode : Z) (processingTime : Z) (requestId : string)
           (db : result unit) : result (list event) :=
  match db with
  | Ok _ =>
      Ok [LogInfo ("Request completed - ID: " +:+ requestId +:+ ", Status: "
                   +:+ display (Num statusCode) +:+ ", Time: "
                   +:+ display (Num processingTime) +:+ "ms")]
  | Throw e => Throw e
  end.

(** The second half with its [catch]: the events, and how the promise of
    [logRequestToDatabase] settles.  [executed] is what the database made
    of the statement. *)
Definition logRequestToDatabase_resume (statusCode : Z) (processingTime : Z)
           (requestId : string) (executed : result unit) : list event * result unit :=
  let '(logs, db) := db_run executed in
  match after_insert statusCode processingTime requestId db with
  | Ok evs => (logs ++ evs, Ok tt)
  | Throw e =>
      (logs ++ [LogError ("Failed to log request to database: " +:+ message e)], Ok tt)
  end.

(** The [res.send] that [requestLogger] installs: it starts the logging,
    does not await it, and calls the original [send]. *)
Definition patched_send (req : request) (statusCode : Z) (startTime now : Z)
           (requestId : string) (data : value) : list event :=
  let processingTime := now - startTime in
  fst (logRequestToDatabase_start req statusCode data processingTime requestId)
  ++ [Sent data].

(** The whole life of one response: the synchronous [send], then, in a
    later turn of the event loop, the database's answer [db]. *)
Definition timeline (req : request) (statusCode : Z) (startTime now : Z)
           (requestId : string) (data : value) (db : result unit) : list event :=
  patched_send req statusCode startTime now requestId data
  ++ fst (logRequestToDatabase_resume statusCode (now - startTime) requestId db).

(** The row the audit sink stores for a response. *)
Definition stored_row (req : request) (statusCode : Z) (startTime now : Z)
           (requestId : string) (data : value) : log_row :=
  snd (logRequestToDatabase_start req statusCode data (now - startTime) requestId).

End logger.
End Logger.

(** ** The sanitizer on a heap of objects

    [sanitizeResponseData] assigns to members of the copy it made.  Whether
    the caller's object is touched is a question about object identity, so
    here objects live in a store and values refer to them by location. *)

Module Heap.
Import Audit.

Abbreviation loc := nat.

Inductive hval : Type :=
| HUndefined
| HNull
| HBool (b : bool)
| HNum (n : Z)
| HStr (s : string)
| HRef (l : loc).

Inductive cell : Type :=
| HObject (ms : list (string * hval))
| HArray (xs : list hval).

Abbreviation heap := (list cell).

Definition htruthy (v : hval) : bool :=
  match v with
  | HUndefined | HNull => false
  | HBool b => b
  | HNum n => negb (n =? 0)
  | HStr s => negb (String.eqb s "")
  | HRef _ => true
  end.

(** [typeof v === 'object'] *)
Definition his_object (v : hval) : bool :=
  match v with
  | HNull | HRef _ => true
  | _ => false
  end.

(** [v.k] for [v] neither [null] nor [undefined]. *)
Definition hprop (h : heap) (v : hval) (k : string) : hval :=
  match v with
  | HRef l =>
      match h !! l with
      | Some (HObject ms) => default HUndefined (assoc k ms)
      | _ => HUndefined
      end
  | _ => HUndefined
  end.

(** [v.k = x]: the object [v] refers to is updated in place. *)
Definition hset (h : heap) (v : hval) (k : string) (x : hval) : heap :=
  match v with
  | HRef l =>
      match h !! l with
      | Some (HObject ms) => <[l := HObject (set_member k x ms)]> h
      | _ => h
      end
  | _ => h
  end.

(** [JSON.stringify], read as the tree its text denotes: a member that is
    [undefined] is left out, an [undefined] item is written [null].  [None]
    is the [TypeError] of a circular structure: a path longer than the heap
    has cells revisits one. *)
Section serialise.
Variable child : hval -> option value.

Fixpoint stringify_items (l : list hval) : option (list value) :=
  match l with
  | [] => Some []
  | x :: r =>
      t ← child x;
      ts ← stringify_items r;
      Some (match t with Undefined => Null | _ => t end :: ts)
  end.

Fixpoint stringify_members (l : list (string * hval)) : option (list (string * value)) :=
  match l with
  | [] => Some []
  | (k, x) :: r =>
      t ← child x;
      ts ← stringify_members r;
      Some (match t with Undefined => ts | _ => (k, t) :: ts end)
  end.
End serialise.

Fixpoint stringify (fuel : nat) (h : heap) (v : hval) : option value :=
  match v with
  | HUndefined => Some Undefined
  | HNull => Some Null
  | HBool b => Some (Bool b)
  | HNum n => Some (Num n)
  | HStr s => Some (Str s)
  | HRef l =>
      match fuel with
      | O => None
      | S fuel =>
          match h !! l with
          | None => None
          | Some (HArray xs) => Arr <$> stringify_items (stringify fuel h) xs
          | Some (HObject ms) => Obj <$> stringify_members (stringify fuel h) ms
          end
      end
  end.

Definition JSON_stringify (h : heap) (v : hval) : option value :=
  stringify (S (length h)) h v.

(** [JSON.parse]: every array and object of the text becomes a new cell,
    its parts first. *)
Section build.
Variable child : value -> heap -> hval * heap.

Fixpoint parse_items (l : list value) (h : heap) : list hval * heap :=
  match l with
  | [] => ([], h)
  | x :: r =>
      let '(v, h1) := child x h in
      let '(vs, h2) := parse_items r h1 in
      (v :: vs, h2)
  end.

Fixpoint parse_members (l : list (string * value)) (h : heap)
  : list (string * hval) * heap :=
  match l with
  | [] => ([], h)
  | (k, x) :: r =>
      let '(v, h1) := child x h in
      let '(vs, h2) := parse_members r h1 in
      ((k, v) :: vs, h2)
  end.
End build.

Fixpoint JSON_parse (t : value) (h : heap) : hval * heap :=
  match t with
  | Undefined => (HUndefined, h)
  | Null => (HNull, h)
  | Bool b => (HBool b, h)
  | Num n => (HNum n, h)
  | Str s => (HStr s, h)
  | Arr xs =>
      let '(vs, h') := parse_items JSON_parse xs h in
      (HRef (length h'), h' ++ [HArray vs])
  | Obj ms =>
      let '(vs, h') := parse_members JSON_parse ms h in
      (HRef (length h'), h' ++ [HObject vs])
  end.

(** One round of [largeFields.forEach] on the heap. *)
Definition sanitize_large_field (sanitized : hval) (h : heap) (field : string) : heap :=
  let d := hprop h sanitized "data" in
  if htruthy d && htruthy (hprop h d field)
     && match hprop h d field with
        | HStr s => startsWith s "data:"
        | _ => false
        end
  then hset h d field (HStr (removed_marker field))
  else h.

(** The first [if] on the heap: the photo inside [personDetails]. *)
Definition redact_person_photo (sanitized : hval) (h : heap) : heap :=
  let d := hprop h sanitized "data" in
  if htruthy d && htruthy (hprop h d "personDetails")
     && htruthy (hprop h (hprop h d "personDetails") "photo")
  then hset h (hprop h d "personDetails") "photo" (HStr PHOTO_REMOVED)
  else h.

(** The second [if] on the heap: a photo directly in [data]. *)
Definition redact_data_photo (sanitized : hval) (h : heap) : heap :=
  let d := hprop h sanitized "data" in
  if htruthy d && htruthy (hprop h d "photo")
  then hset h d "photo" (HStr PHOTO_REMOVED)
  else h.

(** [sanitizeResponseData(data)] in heap [h]: the value returned and the
    heap afterwards, or the exception of [JSON.stringify]. *)
Definition sanitizeResponseData (h : heap) (data : hval) : result (hval * heap) :=
  if negb (htruthy data) || negb (his_object data) then Ok (data, h)
  else
    match JSON_stringify h data with
    | None => Throw (Error "Converting circular structure to JSON")
    | Some t =>
        let '(sanitized, h) := JSON_parse t h in
        Ok (sanitized,
            fold_left (sanitize_large_field sanitized) largeFields
                      (redact_data_photo sanitized (redact_person_photo sanitized h)))
    end.

(** A value, and a cell, that refer to nothing below location [n]. *)
Definition fresh_from (n : nat) (v : hval) : Prop :=
  match v with
  | HRef l => (n <= l)%nat
  | _ => True
  end.

Definition cell_fresh (n : nat) (c : cell) : Prop :=
  match c with
  | HObject ms => Forall (fun kv => fresh_from n (snd kv)) ms
  | HArray xs => Forall (fresh_from n) xs
  end.

(** [h'] is [h] followed by cells that refer to each other only. *)
Definition extends (h h' : heap) : Prop :=
  exists ext, h' = h ++ ext /\ Forall (cell_fresh (length h)) ext.

(** What parsing one subtree does to any heap: it adds cells that refer to
    added cells only, and so does the value it returns. *)
Definition parse_ok (t : value) : Prop :=
  forall h, extends h (snd (JSON_parse t h))
            /\ fresh_from (length h) (fst (JSON_parse t h)).


(** *** How a heap value stands for a JSON tree

    [tree_at h t a b v]: in [h] the value [v] is the tree [t], laid out
    without sharing inside the locations from [a] up to [b]: the cell of
    an array or object lies above the cells of its parts, and the parts
    occupy consecutive stretches. *)
Section shape.
Variable child : value -> nat -> nat -> hval -> Prop.

Fixpoint items_at (ts : list value) (a b : nat) (hvs : list hval) : Prop :=
  match ts, hvs with
  | [], [] => (a <= b)%nat
  | t :: ts, hv :: hvs => exists m, child t a m hv /\ items_at ts m b hvs
  | _, _ => False
  end.

Fixpoint members_at (ms : list (string * value)) (a b : nat)
         (hms : list (string * hval)) : Prop :=
  match ms, hms with
  | [], [] => (a <= b)%nat
  | (k, t) :: ms, (k', hv) :: hms =>
      k = k' /\ exists m, child t a m hv /\ members_at ms m b hms
  | _, _ => False
  end.
End shape.

Fixpoint tree_at (h : heap) (t : value) (a b : nat) (v : hval) : Prop :=
  match t with
  | Undefined => False
  | Null => v = HNull /\ (a <= b)%nat
  | Bool x => v = HBool x /\ (a <= b)%nat
  | Num n => v = HNum n /\ (a <= b)%nat
  | Str s => v = HStr s /\ (a <= b)%nat
  | Arr ts =>
      exists l hvs,
        v = HRef l /\ (a <= l < b)%nat /\ h !! l = Some (HArray hvs)
        /\ items_at (tree_at h) ts a l hvs
  | Obj ms =>
      exists l hms,
        v = HRef l /\ (a <= l < b)%nat /\ h !! l = Some (HObject hms)
        /\ members_at (tree_at h) ms a l hms
  end.

(** What a read gives: the tree of the value, or [undefined] for both. *)
Definition reads (h : heap) (t : value) (v : hval) : Prop :=
  (t = Undefined /\ v = HUndefined) \/ exists a b, tree_at h t a b v.

(** Two heaps hold the same cells from [a] up to [b]. *)
Definition agree_on (a b : nat) (h h' : heap) : Prop :=
  forall i, (a <= i < b)%nat -> h' !! i = h !! i.

(** Parsing a JSON tree lays it out in the cells it adds. *)
Definition parse_tree (t : value) : Prop :=
  is_json t = true ->
  forall h, tree_at (snd (JSON_parse t h)) t (length h)
                    (length (snd (JSON_parse t h))) (fst (JSON_parse t h)).

(** From [h] to [h'] the tree of [v] changes from [t] to [t'] and no cell
    outside the stretch of that tree changes. *)
Definition updates (h h' : heap) (t t' : value) (v : hval) : Prop :=
  forall lo hi,
    tree_at h t lo hi v ->
    tree_at h' t' lo hi v /\ forall i, ~ (lo <= i < hi)%nat -> h' !! i = h !! i.

End Heap.

(** ** The verification client: [src/services/nidService.js] *)

Module Client.

(** What the network gives back to one request. *)
Inductive http_reply : Type :=
| Reply (status : Z) (data : value)       (* a response; [data] is the parsed body *)
| NoReply (msg : string).                 (* no response: refused, reset, DNS, ... *)

Inductive image_reply : Type :=
| ImageReply (status : Z) (content_type : option string) (base64 : string)
    (* the body is kept as the text [Buffer.from(..).toString('base64')] gives *)
| NoImage (msg : string).

(** An answer and the time in milliseconds it takes to arrive. *)
Record arrival (A : Type) : Type := mkArrival { after : Z; what : A }.
Arguments mkArrival {A} after what.
Arguments after {A} a.
Arguments what {A} a.

(** The requests the service sends. *)
Inductive call : Type :=
| Login                                           (* POST /auth/login *)
| Verification (bearer : value) (payload : value) (* POST /voter/demographic/verification *)
| FetchImage (url : string).                      (* GET of the photo *)

(** The service object ([this.accessToken], [this.tokenExpiry]), the clock,
    the answers the registry and the image host will give to the next
    requests, and the requests sent so far. *)
Record world : Type := mkWorld {
  accessToken : value;
  tokenExpiry : option Z;
  now : Z;
  registry : list (arrival http_reply);
  images : list (arrival image_reply);
  calls : list call
}.

Definition set_token (tok : value) (exp : option Z) (w : world) : world :=
  {| accessToken := tok; tokenExpiry := exp; now := now w;
     registry := registry w; images := images w; calls := calls w |}.

Definition TIMEOUT_MS : Z := 30000.

(** A request leaves: it is recorded in [calls]. *)
Definition issue (c : call) (w : world) : world :=
  {| accessToken := accessToken w; tokenExpiry := tokenExpiry w; now := now w;
     registry := registry w; images := images w; calls := calls w ++ [c] |}.

(** Time passes while a request is awaited, but never more than the
    [timeout: 30000] every request is sent with. *)
Definition waited (dt : Z) : Z := Z.min (Z.max dt 0) TIMEOUT_MS.

Definition registry_answered (dt : Z) (w : world) : world :=
  {| accessToken := accessToken w; tokenExpiry := tokenExpiry w;
     now := now w + waited dt;
     registry := tl (registry w); images := images w; calls := calls w |}.

Definition image_answered (dt : Z) (w : world) : world :=
  {| accessToken := accessToken w; tokenExpiry := tokenExpiry w;
     now := now w + waited dt;
     registry := registry w; images := tl (images w); calls := calls w |}.

Definition timeout_error : error := Error "timeout of 30000ms exceeded".

Definition status_error (status : Z) (data : value) : error :=
  mkError ("Request failed with status code " +:+ display (Num status))
          (Some (status, data)).

(** The promise of a request to the registry settles: it resolves with
    the response when [validateStatus] accepts its status and rejects
    otherwise. *)
Definition receive (validateStatus : Z -> bool) (w : world)
  : result (Z * value) * world :=
  match registry w with
  | [] => (Throw (Error "connect ECONNREFUSED"), w)
  | a :: _ =>
      let w' := registry_answered (after a) w in
      if TIMEOUT_MS <? after a then (Throw timeout_error, w')
      else
        match what a with
        | NoReply msg => (Throw (Error msg), w')
        | Reply status data =>
            if validateStatus status then (Ok (status, data), w')
            else (Throw (status_error status data), w')
        end
  end.

(** [await axios.post(url, payload, { timeout: 30000, validateStatus })]
    when nothing else runs in between. *)
Definition axios_post (validateStatus : Z -> bool) (c : call) (w : world)
  : result (Z * value) * world :=
  receive validateStatus (issue c w).

(** [validateStatus: (status) => status < 500] *)
Definition below_500 (status : Z) : bool := status <? 500.

(** axios's default [validateStatus]. *)
Definition is_2xx (status : Z) : bool := (200 <=? status) && (status <? 300).

(** *** [authenticate] and [ensureValidToken] *)

Definition TOKEN_LIFETIME_MS : Z := 60 * 60 * 1000.

(** The [try] block of [authenticate] after [await axios.post(...)]: the
    token to store, or what is thrown inside the block. *)
Definition login_token (r : result (Z * value)) : result value :=
  match r with
  | Throw e => Throw e
  | Ok (_, data) =>
      match get data "status" with
      | Throw e => Throw e
      | Ok st =>
          let tok := opt_chain (opt_chain (prop data "success") "data") "access_token" in
          if is_str st "OK" && truthy tok then Ok tok
          else Throw (Error "Authentication failed: Invalid response format")
      end
  end.

(** [authenticate] from the moment the login answer is there, with the
    [catch] that rewraps every failure. *)
Definition authenticate_resume (r : result (Z * value)) (w : world)
  : result bool * world :=
  match login_token r with
  | Ok tok => (Ok true, set_token tok (Some (now w + TOKEN_LIFETIME_MS)) w)
  | Throw e => (Throw (Error ("Authentication failed: " +:+ message e)), w)
  end.

Definition authenticate (w : world) : result bool * world :=
  let '(r, w) := axios_post below_500 Login w in
  authenticate_resume r w.

(** [!this.accessToken || (this.tokenExpiry && new Date() >= this.tokenExpiry)] *)
Definition token_invalid (w : world) : bool :=
  negb (truthy (accessToken w))
  || match tokenExpiry w with
     | Some expiry => now w >=? expiry
     | None => false
     end.

Definition ensureValidToken (w : world) : result unit * world :=
  if token_invalid w then
    match authenticate w with
    | (Ok _, w) => (Ok tt, w)
    | (Throw e, w) => (Throw e, w)
    end
  else (Ok tt, w).

(** *** Calls of [ensureValidToken] that overlap

    An [async] function runs until its first [await] and is resumed when
    the awaited promise settles; other requests run in between.  A caller
    of [ensureValidToken] is therefore in one of three places. *)
Inductive caller : Type :=
| Entered                      (* called, nothing has run yet *)
| AwaitingLogin                (* suspended at [await axios.post] in [authenticate] *)
| Returned (r : result unit).

Inductive turn : Type :=
| Enter (i : nat)              (* caller [i] runs up to its first [await] *)
| Answer (i : nat).            (* the login answer caller [i] awaits arrives *)

Record service : Type := mkService {
  state : world;               (* the one [NIDService] object of the process *)
  callers : list caller
}.

Definition step (s : service) (t : turn) : service :=
  match t with
  | Enter i =>
      match callers s !! i with
      | Some Entered =>
          if token_invalid (state s)
          then mkService (issue Login (state s)) (<[i := AwaitingLogin]> (callers s))
          else mkService (state s) (<[i := Returned (Ok tt)]> (callers s))
      | _ => s
      end
  | Answer i =>
      match callers s !! i with
      | Some AwaitingLogin =>
          let '(r, w) := receive below_500 (state s) in
          match authenticate_resume r w with
          | (Ok _, w) => mkService w (<[i := Returned (Ok tt)]> (callers s))
          | (Throw e, w) => mkService w (<[i := Returned (Throw e)]> (callers s))
          end
      | _ => s
      end
  end.

Definition run (ts : list turn) (s : service) : service := fold_left step ts s.

Definition is_login (c : call) : bool :=
  match c with
  | Login => true
  | _ => false
  end.

(** The number of authentication exchanges started so far. *)
Definition exchanges (w : world) : nat := length (filter is_login (calls w)).

(** *** [src/utils/imageUtils.js] *)

Section client.
(** [new URL(url)]: the [protocol] and [pathname] of the parsed URL, or
    [None] when the constructor throws. *)
Variable URL_parse : string -> option (string * string).

Definition validProtocols : list string := ["http:"; "https:"]%string.
Definition validExtensions : list string :=
  [".jpg"; ".jpeg"; ".png"; ".gif"; ".bmp"; ".webp"]%string.

Definition isValidImageUrl (url : value) : bool :=
  match URL_parse (display url) with
  | None => false
  | Some (protocol, pathname) =>
      if negb (existsb (String.eqb protocol) validProtocols) then false
      else existsb (fun ext => includes (toLowerCase pathname) ext) validExtensions
  end.

(** [await axios.get(imageUrl, { responseType: 'arraybuffer', timeout: 30000 })]
    with axios's default [validateStatus]. *)
Definition axios_get_image (url : string) (w : world)
  : result (option string * string) * world :=
  let w := issue (FetchImage url) w in
  match images w with
  | [] => (Throw (Error "connect ECONNREFUSED"), w)
  | a :: _ =>
      let w' := image_answered (after a) w in
      if TIMEOUT_MS <? after a then (Throw timeout_error, w')
      else
        match what a with
        | NoImage msg => (Throw (Error msg), w')
        | ImageReply status content_type base64 =>
            if is_2xx status then (Ok (content_type, base64), w')
            else (Throw (status_error status Undefined), w')
        end
  end.

Definition fetchImageAsBase64 (imageUrl : value) (w : world) : result string * world :=
  match axios_get_image (display imageUrl) w with
  | (Ok (content_type, base64Image), w) =>
      let contentType :=
        match content_type with
        | Some ct => if String.eqb ct "" then "image/jpeg"%string else ct
        | None => "image/jpeg"%string
        end in
      (Ok ("data:" +:+ contentType +:+ ";base64," +:+ base64Image), w)
  | (Throw e, w) =>
      (Throw (Error ("Failed to fetch image: " +:+ message e)), w)
  end.

(** *** [processPhoto] and [verifyNID] *)

(** [processPhoto(personData)] updates [personData.photo] in place; the
    function returns the object as it is afterwards. *)
Definition processPhoto (personData : value) (w : world) : value * world :=
  match get personData "photo" with
  | Throw _ => (personData, w)
  | Ok photo =>
      if negb (truthy photo) || negb (isValidImageUrl photo) then (personData, w)
      else
        match fetchImageAsBase64 photo w with
        | (Ok base64Photo, w) => (set_prop personData "photo" (Str base64Photo), w)
        | (Throw _, w) => (personData, w)
        end
  end.

(** [const nidType = nid.length === 17 ? 'nid17Digit' : 'nid10Digit'] *)
Definition nidType (nid : string) : string :=
  if Nat.eqb (String.length nid) 17 then "nid17Digit" else "nid10Digit".

Definition requestPayload (nid dateOfBirth nameEn : string) : value :=
  Obj [("identify"%string, Obj [(nidType nid, Str nid)]);
       ("verify"%string, Obj [("nameEn"%string, Str nameEn);
                              ("dateOfBirth"%string, Str dateOfBirth)])].

Definition MISMATCH_MESSAGE : string :=
  "NID found but verification data does not match".

(** The [result] literal of the two 406 branches, built from the body
    [d] of the response. *)
Definition mismatch_result (d : value) : value :=
  Obj [("success"%string, Bool true);
       ("verified"%string, or_else (prop d "verified") (Bool false));
       ("data"%string, or_else (prop d "data") (Obj []));
       ("fieldVerificationResult"%string,
         or_else (prop d "fieldVerificationResult")
                 (Obj [("nameEn"%string, Bool false);
                       ("dateOfBirth"%string, Bool false)]));
       ("message"%string, Str MISMATCH_MESSAGE)].

(** The [result] literal of the [status === 'OK'] branch. *)
Definition ok_result (d : value) : value :=
  Obj [("success"%string, Bool true);
       ("verified"%string, or_else (prop d "verified") (Bool false));
       ("data"%string, or_else (opt_chain (prop d "success") "data") (Obj []));
       ("fieldVerificationResult"%string,
         or_else (prop d "fieldVerificationResult") (Obj []))].

(** The world in which the answer to the verification request is read:
    the request is recorded and the [dt] milliseconds it took have passed. *)
Definition answered (nid dateOfBirth nameEn : string) (dt : Z) (w : world) : world :=
  registry_answered dt
    (issue (Verification (accessToken w) (requestPayload nid dateOfBirth nameEn)) w).

(** The [result] literal [verifyNID] builds for an answer it accepts. *)
Definition result_literal (status : Z) (d : value) : value :=
  if status =? 406 then mismatch_result d else ok_result d.

(** The next image request fails: nothing answers, the answer takes longer
    than the timeout, the connection breaks, or the status is not 2xx. *)
Definition fetch_fails (w : world) : bool :=
  match images w with
  | [] => true
  | a :: _ =>
      (TIMEOUT_MS <? after a)
      || match what a with
         | NoImage _ => true
         | ImageReply status _ _ => negb (is_2xx status)
         end
  end.

(** Inlining [photo] fails: the reference is not an acceptable image URL
    (it does not parse, is not http(s), or has no known extension), or the
    fetch fails. *)
Definition inlining_fails (photo : value) (w : world) : bool :=
  negb (isValidImageUrl photo) || fetch_fails w.

(** [if (result.data.photo) { await this.processPhoto(result.data); }
    return result;] *)
Definition with_photo (result : value) (w : world) : value * world :=
  if truthy (prop (prop result "data") "photo") then
    let '(personData, w) := processPhoto (prop result "data") w in
    (set_prop result "data" personData, w)
  else (result, w).

(** The [try] block of [verifyNID]. *)
Definition verify_try (nid dateOfBirth nameEn : string) (w : world)
  : result value * world :=
  match ensureValidToken w with
  | (Throw e, w) => (Throw e, w)
  | (Ok _, w) =>
      let payload := requestPayload nid dateOfBirth nameEn in
      match axios_post below_500 (Verification (accessToken w) payload) w with
      | (Throw e, w) => (Throw e, w)
      | (Ok (status, d), w) =>
          if status =? 406 then
            (* the log line reads [response.data.fieldVerificationResult] *)
            match get d "fieldVerificationResult" with
            | Throw e => (Throw e, w)
            | Ok _ =>
                let '(result, w) := with_photo (mismatch_result d) w in
                (Ok result, w)
            end
          else
            match get d "status" with
            | Throw e => (Throw e, w)
            | Ok st =>
                if is_str st "OK" then
                  let '(result, w) := with_photo (ok_result d) w in
                  (Ok result, w)
                else
                  (Throw (Error ("Verification failed: "
                                 +:+ display (or_else (prop d "statusCode")
                                                      (Str "Unknown error")))), w)
            end
      end
  end.

(** [verifyNID]: the [try] block, then the [catch].  The [catch] calls
    [verifyNID] again on a 401; [fuel] bounds the depth of these calls and
    [None] means the bound was reached. *)
Fixpoint verifyNID (fuel : nat) (nid dateOfBirth nameEn : string) (w : world)
  : option (result value * world) :=
  match verify_try nid dateOfBirth nameEn w with
  | (Ok result, w) => Some (Ok result, w)
  | (Throw e, w) =>
      let rethrow :=
        Some (Throw (Error ("NID verification failed: " +:+ message e)), w) in
      match response e with               (* [error.response?.status] *)
      | None => rethrow
      | Some (status, d) =>
          if status =? 401 then
            match fuel with
            | O => None
            | S fuel => verifyNID fuel nid dateOfBirth nameEn (set_token Null None w)
            end
          else if status =? 406 then
            match get d "fieldVerificationResult" with
            | Throw e' => Some (Throw e', w)
            | Ok _ =>
                let '(result, w) := with_photo (mismatch_result d) w in
                Some (Ok result, w)
            end
          else rethrow
      end
  end.

End client.

(** *** The [/verify] handler of [src/routes/nidRoutes.js] *)

(** The status and code the handler's [catch] answers with. *)
Definition route_failure (e : error) : Z * string :=
  if includes (message e) "Authentication failed" then (503, "SERVICE_UNAVAILABLE"%string)
  else if includes (message e) "Verification failed" then (400, "VERIFICATION_FAILED"%string)
  else (500, "INTERNAL_ERROR"%string).

(** [verificationDetails] of the handler's answer. *)
Definition verificationDetails (result : value) : value :=
  Obj [("nameEn"%string,
         or_else (opt_chain (prop result "fieldVerificationResult") "nameEn") (Bool false));
       ("dateOfBirth"%string,
         or_else (opt_chain (prop result "fieldVerificationResult") "dateOfBirth") (Bool false))].

(** [/\s/] on the characters an identifier can be typed with. *)
Definition is_space (c : ascii) : bool :=
  let n := nat_of_ascii c in
  (Nat.eqb n 32 || ((9 <=? n) && (n <=? 13)))%nat.

Fixpoint strip_spaces (s : string) : string :=
  match s with
  | EmptyString => EmptyString
  | String c r => if is_space c then strip_spaces r else String c (strip_spaces r)
  end.

Definition is_digit (c : ascii) : bool :=
  let n := nat_of_ascii c in ((48 <=? n) && (n <=? 57))%nat.

Fixpoint all_digits (s : string) : bool :=
  match s with
  | EmptyString => true
  | String c r => is_digit c && all_digits r
  end.

(** [validateNID]: the length and digit rule of the service class, the same
    the route applies before it calls [verifyNID].  [{ valid: false, error }]
    is a [Throw], [{ valid: true, nid }] an [Ok]. *)
Definition validateNID (nid : string) : result string :=
  if String.eqb nid "" then Throw (Error "NID is required and must be a string")
  else
    let cleanNID := strip_spaces nid in
    if negb (Nat.eqb (String.length cleanNID) 10) && negb (Nat.eqb (String.length cleanNID) 17)
    then Throw (Error "NID must be either 10 or 17 digits")
    else if negb (all_digits cleanNID) then Throw (Error "NID must contain only digits")
    else Ok cleanNID.

(** *** The two shapes of a full-match answer

    [nested_match_body]: [verified], [data] and [fieldVerificationResult]
    all under [success].  [flat_match_body]: [verified] and
    [fieldVerificationResult] beside [success], only [data] under it. *)
Definition nested_match_body (details : value) : value :=
  Obj [("status"%string, Str "OK");
       ("success"%string,
         Obj [("verified"%string, Bool true);
              ("data"%string, details);
              ("fieldVerificationResult"%string,
                Obj [("nameEn"%string, Bool true);
                     ("dateOfBirth"%string, Bool true)])])].

Definition flat_match_body (details : value) : value :=
  Obj [("status"%string, Str "OK");
       ("verified"%string, Bool true);
       ("fieldVerificationResult"%string,
         Obj [("nameEn"%string, Bool true); ("dateOfBirth"%string, Bool true)]);
       ("success"%string, Obj [("data"%string, details)])].

End Client.

(** ** Stand-ins for the platform, used by the examples *)

Module Fixtures.
Import Client.

(** A reading of [new URL(s)] that is enough for the URLs of the examples:
    scheme [http] or [https], then the host, then the path up to [?] or [#]. *)
Fixpoint after_host (s : string) : string :=
  match s with
  | EmptyString => "/"
  | String "/" _ => s
  | String _ r => after_host r
  end.

Fixpoint until_query (s : string) : string :=
  match s with
  | EmptyString => EmptyString
  | String "?" _ | String "#" _ => EmptyString
  | String c r => String c (until_query r)
  end.

Fixpoint drop_chars (n : nat) (s : string) : string :=
  match n, s with
  | S n, String _ r => drop_chars n r
  | _, _ => s
  end.

Definition URL_parse (s : string) : option (string * string) :=
  if startsWith s "http://" then Some ("http:"%string, until_query (after_host (drop_chars 7 s)))
  else if startsWith s "https://" then Some ("https:"%string, until_query (after_host (drop_chars 8 s)))
  else None.

Definition login_ok : http_reply :=
  Reply 200 (Obj [("status"%string, Str "OK");
                  ("success"%string,
                    Obj [("data"%string, Obj [("access_token"%string, Str "tok-1")])])]).

Definition person : value :=
  Obj [("nationalId"%string, Str "2361234740"); ("pin"%string, Str "12345678901234567")].

Definition unauthorized : http_reply :=
  Reply 401 (Obj [("status"%string, Str "UNAUTHORIZED");
                  ("statusCode"%string, Str "ERROR")]).

Definition soon {A : Type} (x : A) : arrival A := mkArrival 120 x.

(** A service that holds no credential yet. *)
Definition fresh_world (answers : list (arrival http_reply))
           (pictures : list (arrival image_reply)) : world :=
  {| accessToken := Null; tokenExpiry := None; now := 1700000000000;
     registry := answers; images := pictures; calls := [] |}.

(** A service with a credential that is good for another half hour. *)
Definition logged_in_world (answers : list (arrival http_reply))
           (pictures : list (arrival image_reply)) : world :=
  {| accessToken := Str "tok-0"; tokenExpiry := Some 1700001800000; now := 1700000000000;
     registry := answers; images := pictures; calls := [] |}.

End Fixtures.

(** ** The route handlers and middleware: [src/routes/nidRoutes.js],
    [src/middleware/ipWhitelist.js] *)

Module Routes.
Import Client.

(** The [custom] rule of [body('nid')]: it throws for a value the rule
    rejects and returns [true] otherwise.  The digit test runs on a string
    of ten or seventeen characters only, where [/^\d+$/] is [all_digits]. *)
Definition nid_rule (value : string) : result bool :=
  let cleanNID := strip_spaces value in
  if negb (Nat.eqb (String.length cleanNID) 10) && negb (Nat.eqb (String.length cleanNID) 17)
  then Throw (Error "NID must be either 10 or 17 digits")
  else if negb (all_digits cleanNID) then Throw (Error "NID must contain only digits")
  else Ok true.

(** [cleanNID.length === 17 ? '17-digit' : '10-digit'] *)
Definition nidTypeLabel (cleanNID : string) : string :=
  if Nat.eqb (String.length cleanNID) 17 then "17-digit" else "10-digit".

(** What the [/verify] handler reads of the request. *)
Record verify_request : Type := mkVerifyRequest {
  req_nid : string;
  req_dateOfBirth : string;
  req_nameEn : string;
  req_requestId : value;           (* [req.requestId] *)
  req_systemInfo : value           (* [req.systemInfo] *)
}.

Section handler.
Variable URL_parse : string -> option (string * string).
(** [new Date(ms).toISOString()] *)
Variable toISOString : Z -> string.

(** The body of the answer for a result of [verifyNID]. *)
Definition success_response (req : verify_request) (cleanNID : string)
           (result : value) (at_ms : Z) : value :=
  let response :=
    Obj [("success"%string, Bool true);
         ("requestId"%string, req_requestId req);
         ("data"%string,
           Obj [("nid"%string, Str cleanNID);
                ("nidType"%string, Str (nidTypeLabel cleanNID));
                ("verified"%string, prop result "verified");
                ("verificationDetails"%string, verificationDetails result);
                ("personDetails"%string, or_else (prop result "data") (Obj []))]);
         ("timestamp"%string, Str (toISOString at_ms));
         ("system"%string, opt_chain (req_systemInfo req) "systemName")] in
  if truthy (prop result "message")
  then set_prop response "message" (prop result "message")
  else response.

(** The body of the answer of the handler's [catch]. *)
Definition failure_response (req : verify_request) (e : error) (at_ms : Z) : value :=
  Obj [("success"%string, Bool false);
       ("error"%string, Str (message e));
       ("code"%string, Str (snd (route_failure e)));
       ("requestId"%string, req_requestId req);
       ("timestamp"%string, Str (toISOString at_ms));
       ("system"%string, opt_chain (req_systemInfo req) "systemName")].

(** [router.post('/verify', validationRules, ...)]: the status and the
    body passed to [res.status(..).json(..)].  [errors] is
    [validationResult(req).array()]; [fuel] is the bound of [verifyNID]. *)
Definition verify_handler (fuel : nat) (errors : list value) (req : verify_request)
           (w : world) : option ((Z * value) * world) :=
  match errors with
  | _ :: _ =>
      Some ((400, Obj [("success"%string, Bool false);
                       ("error"%string, Str "Validation failed");
                       ("details"%string, Arr errors);
                       ("code"%string, Str "VALIDATION_ERROR")]), w)
  | [] =>
      let cleanNID := strip_spaces (req_nid req) in
      match verifyNID URL_parse fuel cleanNID (req_dateOfBirth req) (req_nameEn req) w with
      | None => None
      | Some (Ok result, w) =>
          Some ((200, success_response req cleanNID result (now w)), w)
      | Some (Throw e, w) =>
          Some ((fst (route_failure e), failure_response req e (now w)), w)
      end
  end.

End handler.

(** *** [ipWhitelist] *)

(** A row of [allowed_ips]. *)
Record allowed_ip : Type := mkAllowedIp {
  ip_address : string;
  system_name : string;
  description : value;
  is_active : bool
}.

(** What the middleware reads of the request to find the client address.
    An absent address is the empty string: both are falsy, which is all the
    middleware tests. *)
Record connection_info : Type := mkConnectionInfo {
  req_ip : string;                           (* [req.ip] *)
  connection_remoteAddress : string;         (* [req.connection.remoteAddress] *)
  socket_remoteAddress : string;             (* [req.socket.remoteAddress] *)
  connection_socket : option string;
    (* [req.connection.socket], when there is one, and its [remoteAddress] *)
  x_forwarded_for : string                   (* [req.headers['x-forwarded-for']] *)
}.

(** [s.split(',')[0]] *)
Fixpoint first_segment (s : string) : string :=
  match s with
  | EmptyString => EmptyString
  | String c r => if Ascii.eqb c "," then EmptyString else String c (first_segment r)
  end.

(** The chain of [||] that finds the client address; [None] is [null]. *)
Definition clientIP (c : connection_info) : option string :=
  if negb (String.eqb (req_ip c) "") then Some (req_ip c)
  else if negb (String.eqb (connection_remoteAddress c) "")
       then Some (connection_remoteAddress c)
  else if negb (String.eqb (socket_remoteAddress c) "")
       then Some (socket_remoteAddress c)
  else
    match (match connection_socket c with
           | Some a => if String.eqb a "" then None else Some a
           | None => None
           end) with
    | Some a => Some a
    | None =>
        if negb (String.eqb (x_forwarded_for c) "")
        then Some (first_segment (x_forwarded_for c))
        else None
    end.

Inductive access : Type :=
| Granted (systemInfo : value)     (* [req.systemInfo] is set and [next()] called *)
| Refused (status : Z) (body : value).

Section whitelist.
(** Equality of two addresses as the [ip_address] column compares them. *)
Variable sql_eq : string -> string -> bool.

(** [SELECT * FROM allowed_ips WHERE ip_address = ? AND is_active = 1];
    a [null] address equals no row. *)
Definition select_allowed (table : list allowed_ip) (ip : option string)
  : list allowed_ip :=
  match ip with
  | Some a => filter (fun r => sql_eq (ip_address r) a && is_active r) table
  | None => []
  end.

(** [ipWhitelist]: [db] is the table, or the error of a failed query. *)
Definition ipWhitelist (db : result (list allowed_ip)) (c : connection_info) : access :=
  match db with
  | Throw _ =>
      Refused 500 (Obj [("success"%string, Bool false);
                        ("error"%string, Str "Internal server error during IP validation");
                        ("code"%string, Str "IP_VALIDATION_ERROR")])
  | Ok table =>
      match select_allowed table (clientIP c) with      (* [rows[0] || null] *)
      | [] =>
          Refused 403
            (Obj [("success"%string, Bool false);
                  ("error"%string,
                    Str "Access denied. Your IP address is not authorized to access this service.");
                  ("code"%string, Str "IP_NOT_AUTHORIZED")])
      | allowedIP :: _ =>
          Granted (Obj [("ip"%string,
                          match clientIP c with Some a => Str a | None => Null end);
                        ("systemName"%string, Str (system_name allowedIP));
                        ("description"%string, description allowedIP)])
      end
  end.

End whitelist.
End Routes.

(** ** [Database.transaction]: [src/config/database.js] *)

Module Database.

(** The steps of a transaction that reach the connection, in order. *)
Inductive db_event : Type :=
| BeginTransaction
| Callback
| Commit
| Rollback
| Release.

(** How each step of one transaction turns out. *)
Record outcomes : Type := mkOutcomes {
  getConnection : result unit;
  beginTransaction : result unit;
  callback : result value;
  commit : result unit;
  rollback : result unit
}.

(** The [try] block: the steps taken and the value returned or thrown. *)
Definition transaction_try (o : outcomes) : list db_event * result value :=
  match beginTransaction o with
  | Throw e => ([BeginTransaction], Throw e)
  | Ok _ =>
      match callback o with
      | Throw e => ([BeginTransaction; Callback], Throw e)
      | Ok v =>
          match commit o with
          | Throw e => ([BeginTransaction; Callback; Commit], Throw e)
          | Ok _ => ([BeginTransaction; Callback; Commit], Ok v)
          end
      end
  end.

(** [transaction(callback)]: [getConnection] is outside the [try]; the
    [catch] rolls back and throws again; [finally] releases. *)
Definition transaction (o : outcomes) : list db_event * result value :=
  match getConnection o with
  | Throw e => ([], Throw e)
  | Ok _ =>
      match transaction_try o with
      | (evs, Ok v) => (evs ++ [Release], Ok v)
      | (evs, Throw e) =>
          match rollback o with
          | Ok _ => (evs ++ [Rollback; Release], Throw e)
          | Throw e' => (evs ++ [Rollback; Release], Throw e')
          end
      end
  end.

End Database.

(** ** What the verification flow sends *)

Module Flow.
Import Client.

(** The requests one call of [verifyNID] may add, in order: at most one
    login, then at most one verification, carrying a truthy bearer token
    and the payload of the request, then at most one image fetch. *)
Definition flow_calls (nid dateOfBirth nameEn : string) (l : list call) : Prop :=
  exists pre mid post,
    l = pre ++ mid ++ post
    /\ (pre = [] \/ pre = [Login])
    /\ (mid = [] /\ post = []
        \/ exists bearer,
            mid = [Verification bearer (requestPayload nid dateOfBirth nameEn)]
            /\ truthy bearer = true)
    /\ (post = [] \/ exists url, post = [FetchImage url]).

(** A character occurs in a string. *)
Fixpoint has_char (c : ascii) (s : string) : bool :=
  match s with
  | EmptyString => false
  | String a r => Ascii.eqb a c || has_char c r
  end.

End Flow.

(** ** Stand-ins for the examples of the routes and the middleware *)

Module Examples.
Import Client.
Import Routes.

(** The examples do not read the timestamp: it is the clock's milliseconds,
    printed. *)
Definition toISOString (ms : Z) : string := display (Num ms).

(** The rows [createTables] inserts, [is_active] at its default. *)
Definition allowed_ips : list allowed_ip :=
  [mkAllowedIp "127.0.0.1" "Local Development" (Str "Local development environment") true;
   mkAllowedIp "::1" "Local Development IPv6"
               (Str "Local development environment IPv6") true;
   mkAllowedIp "localhost" "Local Development" (Str "Local development environment") true].

(** The addresses of the examples are plain ASCII without trailing
    blanks, where the column's comparison is the one of the strings. *)
Definition sql_eq : string -> string -> bool := String.eqb.

Definition local_connection : connection_info :=
  mkConnectionInfo "127.0.0.1" "127.0.0.1" "127.0.0.1" None "".

Definition local_system : value :=
  Obj [("ip"%string, Str "127.0.0.1");
       ("systemName"%string, Str "Local Development");
       ("description"%string, Str "Local development environment")].

Definition verify_request : Routes.verify_request :=
  mkVerifyRequest "1234567890" "1985-06-15" "Jane Doe"
                  (Str "0b9f1c1e-6f0a-4c56-9d3e-2f1f0a9c7b11") local_system.

Definition photo_url : string := "https://cdn.example.org/photos/1234567890.jpg".

(** A [JSON.parse] for text that is not JSON. *)
Definition JSON_reject (s : string) : result value :=
  Throw (Error "Unexpected token < in JSON at position 0").

End Examples.

(** * Properties *)

Import Client.

(** ** Objects *)

Lemma assoc_set_member {A : Type} (k k' : string) (x : A) (ms : list (string * A)) :
  assoc k' (set_member k x ms) = if String.eqb k' k then Some x else assoc k' ms.
Proof.
  induction ms as [|[k0 v0] ms IH]; simpl.
  - destruct (String.eqb k' k); reflexivity.
  - destruct (String.eqb k k0) eqn:E; simpl.
    + apply String.eqb_eq in E; subst k0.
      destruct (String.eqb k' k); reflexivity.
    + destruct (String.eqb k' k0) eqn:E'.
      * apply String.eqb_eq in E'; subst k0.
        rewrite String.eqb_sym, E. reflexivity.
      * exact IH.
Qed.

Lemma set_member_same {A : Type} (k : string) (x : A) (ms : list (string * A)) :
  assoc k ms = Some x -> set_member k x ms = ms.
Proof.
  induction ms as [|[k0 v0] ms IH]; simpl; [discriminate|].
  destruct (String.eqb k k0); intros H.
  - congruence.
  - rewrite IH by assumption. reflexivity.
Qed.

Lemma prop_set_prop (ms : list (string * value)) (k k' : string) (x : value) :
  prop (set_prop (Obj ms) k x) k' = if String.eqb k' k then x else prop (Obj ms) k'.
Proof.
  simpl. rewrite assoc_set_member. destruct (String.eqb k' k); reflexivity.
Qed.

Lemma startsWith_append (s t : string) : startsWith (s +:+ t) s = true.
Proof.
  unfold startsWith. induction s as [|c s IH]; simpl.
  - destruct t; reflexivity.
  - destruct (ascii_dec c c); [exact IH | contradiction].
Qed.

(** A truthy member can only have come out of an object. *)
Lemma truthy_prop_obj (v : value) (k : string) :
  truthy (prop v k) = true -> exists ms, v = Obj ms /\ assoc k ms = Some (prop v k).
Proof.
  destruct v; simpl; try discriminate.
  destruct (assoc k ms) eqn:E; simpl; [eauto | discriminate].
Qed.

(** ** The credential cache *)

(** C7.  While a token is cached and its expiry lies strictly ahead,
    [ensureValidToken] returns without sending anything: the list of
    requests is the same afterwards, and so are the token and its expiry
    (the whole service state is). *)
Theorem ensureValidToken_cached (w : world) (expiry : Z) :
  truthy (accessToken w) = true ->
  tokenExpiry w = Some expiry ->
  now w < expiry ->
  ensureValidToken w = (Ok tt, w)
  /\ calls (snd (ensureValidToken w)) = calls w
  /\ accessToken (snd (ensureValidToken w)) = accessToken w
  /\ tokenExpiry (snd (ensureValidToken w)) = tokenExpiry w.
Proof.
  intros Htok Hexp Hnow.
  assert (E : ensureValidToken w = (Ok tt, w)).
  { unfold ensureValidToken, token_invalid.
    rewrite Htok, Hexp. simpl.
    destruct (now w >=? expiry) eqn:C; [lia | reflexivity]. }
  rewrite E. simpl. auto.
Qed.

Lemma ensureValidToken_cached_witness :
  let w := Fixtures.logged_in_world [] [] in
  ensureValidToken w = (Ok tt, w)
  /\ calls (snd (ensureValidToken w)) = calls w
  /\ accessToken (snd (ensureValidToken w)) = accessToken w
  /\ tokenExpiry (snd (ensureValidToken w)) = tokenExpiry w.
Proof.
  apply (ensureValidToken_cached (Fixtures.logged_in_world [] []) 1700001800000).
  - reflexivity.
  - reflexivity.
  - simpl. lia.
Defined.

(** ** The identification channel *)

Lemma validateNID_length (nid clean : string) :
  validateNID nid = Ok clean ->
  String.length clean = 10%nat \/ String.length clean = 17%nat.
Proof.
  unfold validateNID.
  destruct (String.eqb nid ""); [discriminate|].
  destruct (Nat.eqb (String.length (strip_spaces nid)) 10) eqn:E10;
    destruct (Nat.eqb (String.length (strip_spaces nid)) 17) eqn:E17; simpl;
    try discriminate;
    destruct (all_digits (strip_spaces nid)); simpl; try discriminate;
    intros H; injection H as <-.
  - left. apply Nat.eqb_eq. exact E10.
  - left. apply Nat.eqb_eq. exact E10.
  - right. apply Nat.eqb_eq. exact E17.
Qed.

(** C4, as the code has it.  The payload names the 17-digit channel exactly
    when the identifier has 17 characters and the 10-digit channel for every
    other length; the identifier is the only member of [identify].  Only for
    an identifier that passed the length rule applied before the call does
    the 10-digit channel mean exactly ten digits. *)
Theorem nidType_channel (nid : string) :
  (nidType nid = "nid17Digit"%string <-> String.length nid = 17%nat)
  /\ (nidType nid = "nid10Digit"%string <-> String.length nid <> 17%nat)
  /\ (forall dateOfBirth nameEn,
        prop (requestPayload nid dateOfBirth nameEn) "identify"
        = Obj [(nidType nid, Str nid)])
  /\ (forall clean,
        validateNID nid = Ok clean ->
        (nidType clean = "nid10Digit"%string <-> String.length clean = 10%nat)).
Proof.
  unfold nidType. repeat split.
  - destruct (Nat.eqb (String.length nid) 17) eqn:E; [|discriminate].
    intros _. apply Nat.eqb_eq. exact E.
  - intros H. apply Nat.eqb_eq in H. rewrite H. reflexivity.
  - destruct (Nat.eqb (String.length nid) 17) eqn:E; [discriminate|].
    intros _. apply Nat.eqb_neq. exact E.
  - intros H. apply Nat.eqb_neq in H. rewrite H. reflexivity.
  - destruct (Nat.eqb (String.length clean) 17) eqn:E; [discriminate|].
    intros _. apply Nat.eqb_neq in E.
    destruct (validateNID_length _ _ H); [assumption | contradiction].
  - intros H10. rewrite H10. reflexivity.
Qed.

(** C4 as stated fails: an identifier of five digits is sent on the
    10-digit channel. *)
Lemma nidType_defaults_to_10 :
  String.length "12345" <> 10%nat
  /\ prop (requestPayload "12345" "1990-01-01" "Jane Doe") "identify"
     = Obj [("nid10Digit"%string, Str "12345")].
Proof. split; [discriminate | reflexivity]. Qed.

(** ** Photo inlining *)

Section photo_facts.
Variable URL_parse : string -> option (string * string).

(** [fetchImageAsBase64] only ever returns a data URL. *)
Lemma fetchImageAsBase64_data_url (url : value) (w w' : world) (s : string) :
  fetchImageAsBase64 url w = (Ok s, w') -> startsWith s "data:" = true.
Proof.
  unfold fetchImageAsBase64.
  destruct (axios_get_image (display url) w) as [[[ct b]|e] w1]; [|discriminate].
  intros H. injection H as <- _.
  apply startsWith_append.
Qed.

(** [processPhoto] leaves the person data alone or replaces its photo by
    a data URL. *)
Lemma processPhoto_cases (personData : value) (w : world) :
  fst (processPhoto URL_parse personData w) = personData
  \/ exists s, fst (processPhoto URL_parse personData w)
               = set_prop personData "photo" (Str s)
               /\ startsWith s "data:" = true.
Proof.
  unfold processPhoto.
  destruct (get personData "photo") as [photo|e]; [|left; reflexivity].
  destruct (negb (truthy photo) || negb (isValidImageUrl URL_parse photo));
    [left; reflexivity|].
  destruct (fetchImageAsBase64 photo w) as [[s|e] w1] eqn:F; [|left; reflexivity].
  right. exists s. split; [reflexivity|].
  eapply fetchImageAsBase64_data_url. exact F.
Qed.

(** What [with_photo] can change of a result literal: nothing outside
    [data], and inside [data] only [photo]. *)
Lemma with_photo_frame (ms : list (string * value)) (w : world) :
  let r := fst (with_photo URL_parse (Obj ms) w) in
  (forall k, k <> "data"%string -> prop r k = prop (Obj ms) k)
  /\ (forall k, k <> "photo"%string ->
                prop (prop r "data") k = prop (prop (Obj ms) "data") k).
Proof.
  unfold with_photo.
  destruct (truthy (prop (prop (Obj ms) "data") "photo")) eqn:T;
    [|simpl; split; reflexivity].
  destruct (processPhoto URL_parse (prop (Obj ms) "data") w) as [pd w1] eqn:P.
  cbn [fst].
  assert (C := processPhoto_cases (prop (Obj ms) "data") w).
  rewrite P in C. cbn [fst] in C.
  split.
  - intros k Hk. rewrite prop_set_prop.
    destruct (String.eqb k "data") eqn:E; [|reflexivity].
    apply String.eqb_eq in E. contradiction.
  - intros k Hk. rewrite prop_set_prop. simpl String.eqb.
    destruct C as [-> | (s & -> & _)]; [reflexivity|].
    destruct (truthy_prop_obj _ _ T) as (ms' & E & _).
    rewrite E, prop_set_prop.
    destruct (String.eqb k "photo") eqn:E'; [|reflexivity].
    apply String.eqb_eq in E'. contradiction.
Qed.

End photo_facts.

(** ** The verification flow *)

Lemma receive_reply (validateStatus : Z -> bool) (w : world)
      (a : arrival http_reply) (rest : list (arrival http_reply))
      (status : Z) (d : value) :
  registry w = a :: rest ->
  after a <= TIMEOUT_MS ->
  what a = Reply status d ->
  validateStatus status = true ->
  receive validateStatus w = (Ok (status, d), registry_answered (after a) w).
Proof.
  intros Hr Ht Hw Hv. unfold receive. rewrite Hr.
  destruct (TIMEOUT_MS <? after a) eqn:C; [lia|].
  rewrite Hw, Hv. reflexivity.
Qed.

(** The only errors [receive] attaches a response to are rejected
    statuses. *)
Lemma receive_error_status (validateStatus : Z -> bool) (w w' : world) (e : error)
      (status : Z) (d : value) :
  receive validateStatus w = (Throw e, w') ->
  response e = Some (status, d) ->
  validateStatus status = false.
Proof.
  unfold receive. destruct (registry w) as [|a rest].
  - intros H. injection H as <- _. discriminate.
  - destruct (TIMEOUT_MS <? after a).
    + intros H. injection H as <- _. discriminate.
    + destruct (what a) as [st body|msg].
      * destruct (validateStatus st) eqn:V; [discriminate|].
        intros H. injection H as <- _. simpl. intros H. injection H as <- _.
        exact V.
      * intros H. injection H as <- _. discriminate.
Qed.

(** Failures of the credential step carry no response. *)
Lemma ensureValidToken_error (w w' : world) (e : error) :
  ensureValidToken w = (Throw e, w') -> response e = None.
Proof.
  unfold ensureValidToken, authenticate, axios_post, authenticate_resume.
  destruct (token_invalid w); [|discriminate].
  destruct (receive below_500 (issue Login w)) as [r w1].
  destruct (login_token r) as [tok|e']; [discriminate|].
  intros H. injection H as <- _. reflexivity.
Qed.

Section flow_facts.
Variable URL_parse : string -> option (string * string).

(** The [try] block up to the point where an accepted answer is there. *)
Lemma verify_try_reply (nid dateOfBirth nameEn : string) (w w1 : world)
      (a : arrival http_reply) (rest : list (arrival http_reply))
      (status : Z) (d : value) :
  ensureValidToken w = (Ok tt, w1) ->
  registry w1 = a :: rest ->
  after a <= TIMEOUT_MS ->
  what a = Reply status d ->
  status < 500 ->
  verify_try URL_parse nid dateOfBirth nameEn w =
    let w2 := answered nid dateOfBirth nameEn (after a) w1 in
    if status =? 406 then
      match get d "fieldVerificationResult" with
      | Throw e => (Throw e, w2)
      | Ok _ =>
          let '(result, w3) := with_photo URL_parse (mismatch_result d) w2 in
          (Ok result, w3)
      end
    else
      match get d "status" with
      | Throw e => (Throw e, w2)
      | Ok st =>
          if is_str st "OK" then
            let '(result, w3) := with_photo URL_parse (ok_result d) w2 in
            (Ok result, w3)
          else
            (Throw (Error ("Verification failed: "
                           +:+ display (or_else (prop d "statusCode")
                                                (Str "Unknown error")))), w2)
      end.
Proof.
  intros He Hr Ht Hw Hs. unfold verify_try. rewrite He.
  unfold axios_post.
  rewrite (receive_reply below_500 _ a rest status d); try assumption.
  - reflexivity.
  - unfold below_500. lia.
Qed.

(** Whatever the [try] block throws, it is never an error that carries a
    response with status 401 or 406: [validateStatus] lets every status
    below 500 through as a normal response.  The two [catch] branches for
    these statuses are never taken. *)
Lemma verify_try_error_status (nid dateOfBirth nameEn : string) (w w' : world)
      (e : error) (status : Z) (d : value) :
  verify_try URL_parse nid dateOfBirth nameEn w = (Throw e, w') ->
  response e = Some (status, d) ->
  500 <= status.
Proof.
  unfold verify_try.
  destruct (ensureValidToken w) as [[[]|e0] w1] eqn:He.
  - unfold axios_post.
    destruct (receive below_500 _) as [[[st body]|e1] w2] eqn:Hr.
    + destruct (st =? 406).
      * destruct (get body "fieldVerificationResult") as [x|e2] eqn:G.
        -- destruct (with_photo URL_parse (mismatch_result body) w2). discriminate.
        -- intros H. injection H as <- _.
           destruct body; simpl in G; try discriminate;
             injection G as <-; discriminate.
      * destruct (get body "status") as [x|e2] eqn:G.
        -- destruct (is_str x "OK").
           ++ destruct (with_photo URL_parse (ok_result body) w2). discriminate.
           ++ intros H. injection H as <- _. discriminate.
        -- intros H. injection H as <- _.
           destruct body; simpl in G; try discriminate;
             injection G as <-; discriminate.
    + intros H. injection H as <- _. intros R.
      pose proof (receive_error_status _ _ _ _ _ _ Hr R) as V.
      unfold below_500 in V. lia.
  - intros H. injection H as <- _.
    rewrite (ensureValidToken_error _ _ _ He). discriminate.
Qed.

(** [verifyNID] never calls itself: whatever [fuel] it is given, it
    returns, and with the same result. *)
Lemma verifyNID_fuel (fuel : nat) (nid dateOfBirth nameEn : string) (w : world) :
  verifyNID URL_parse fuel nid dateOfBirth nameEn w
  = verifyNID URL_parse 0 nid dateOfBirth nameEn w
  /\ verifyNID URL_parse fuel nid dateOfBirth nameEn w <> None.
Proof.
  destruct fuel as [|fuel]; simpl;
    destruct (verify_try URL_parse nid dateOfBirth nameEn w) as [[r|e] w'] eqn:T;
    try (split; [reflexivity | discriminate]).
  - destruct (response e) as [[st d]|] eqn:R; [|split; [reflexivity|discriminate]].
    pose proof (verify_try_error_status _ _ _ _ _ _ _ _ T R) as S.
    destruct (st =? 401) eqn:E1; [lia|].
    destruct (st =? 406) eqn:E2; [lia|]. split; [reflexivity|discriminate].
  - destruct (response e) as [[st d]|] eqn:R; [|split; [reflexivity|discriminate]].
    pose proof (verify_try_error_status _ _ _ _ _ _ _ _ T R) as S.
    destruct (st =? 401) eqn:E1; [lia|].
    destruct (st =? 406) eqn:E2; [lia|]. split; [reflexivity|discriminate].
Qed.

End flow_facts.

Section photo_failure.
Variable URL_parse : string -> option (string * string).

Lemma fetch_fails_throws (photo : value) (w : world) :
  fetch_fails w = true ->
  exists e w', fetchImageAsBase64 photo w = (Throw e, w').
Proof.
  unfold fetch_fails, fetchImageAsBase64, axios_get_image. simpl.
  destruct (images w) as [|a rest]; [eauto|].
  destruct (TIMEOUT_MS <? after a); [eauto|]. simpl.
  destruct (what a) as [status ct b|msg]; [|eauto].
  destruct (is_2xx status); [discriminate | eauto].
Qed.

(** When inlining fails, [processPhoto] hands the person data back as it
    got it. *)
Lemma processPhoto_failure (personData : value) (w : world) :
  inlining_fails URL_parse (prop personData "photo") w = true ->
  fst (processPhoto URL_parse personData w) = personData.
Proof.
  intros F. unfold processPhoto.
  destruct (get personData "photo") as [photo|e] eqn:G; [|reflexivity].
  assert (E : photo = prop personData "photo").
  { destruct personData; simpl in G; try discriminate;
      injection G as <-; reflexivity. }
  subst photo.
  destruct (truthy (prop personData "photo")); simpl; [|reflexivity].
  unfold inlining_fails in F.
  destruct (isValidImageUrl URL_parse (prop personData "photo")); simpl in *;
    [|reflexivity].
  destruct (fetch_fails_throws (prop personData "photo") w F) as (e & w' & ->).
  reflexivity.
Qed.

Lemma with_photo_failure (ms : list (string * value)) (w : world) :
  inlining_fails URL_parse (prop (prop (Obj ms) "data") "photo") w = true ->
  fst (with_photo URL_parse (Obj ms) w) = Obj ms.
Proof.
  intros F. unfold with_photo.
  destruct (truthy (prop (prop (Obj ms) "data") "photo")) eqn:T; [|reflexivity].
  pose proof (processPhoto_failure _ _ F) as P.
  destruct (processPhoto URL_parse (prop (Obj ms) "data") w) as [pd w1].
  simpl in P. subst pd. cbn [fst].
  destruct (truthy_prop_obj _ _ T) as (ms' & E & _).
  assert (A : assoc "data" ms = Some (Obj ms')).
  { simpl in E. destruct (assoc "data" ms); simpl in E; [congruence | discriminate]. }
  simpl. rewrite A. simpl. rewrite set_member_same by exact A. reflexivity.
Qed.

End photo_failure.

(** A falsy value has no members, like the empty object put in its place. *)
Lemma prop_or_empty (v : value) (k : string) :
  prop (or_else v (Obj [])) k = prop v k.
Proof.
  unfold or_else. destruct (truthy v) eqn:T; [reflexivity|].
  destruct v; try reflexivity; discriminate T.
Qed.

(** C2, as the code has it.  For the identifier 12345678901234567, the
    date 1990-01-01 and the name Jane Doe, when the registry answers HTTP
    200 with [status: "OK"], with [verified: true] and
    [fieldVerificationResult: {nameEn: true, dateOfBirth: true}] at the top
    level of the body and the person details under [success.data], the call
    returns [verified = true], both flags true, and the person details (the
    photo apart, which may have been inlined). *)
Theorem verifyNID_full_match (URL_parse : string -> option (string * string))
        (fuel : nat) (w w1 : world)
        (a : arrival http_reply) (rest : list (arrival http_reply))
        (details : value) :
  ensureValidToken w = (Ok tt, w1) ->
  registry w1 = a :: rest ->
  after a <= TIMEOUT_MS ->
  what a = Reply 200 (flat_match_body details) ->
  exists r w',
    verifyNID URL_parse fuel "12345678901234567" "1990-01-01" "Jane Doe" w
    = Some (Ok r, w')
    /\ prop r "verified" = Bool true
    /\ prop r "fieldVerificationResult"
       = Obj [("nameEn"%string, Bool true); ("dateOfBirth"%string, Bool true)]
    /\ (forall k, k <> "photo"%string -> prop (prop r "data") k = prop details k).
Proof.
  intros He Hr Ht Hw.
  destruct (verifyNID_fuel URL_parse fuel "12345678901234567" "1990-01-01"
                           "Jane Doe" w) as [-> _].
  simpl verifyNID.
  rewrite (verify_try_reply URL_parse _ _ _ w w1 a rest 200 _ He Hr Ht Hw) by lia.
  cbn zeta. change (200 =? 406) with false. cbv iota.
  change (get (flat_match_body details) "status") with (@Ok value (Str "OK")).
  cbv iota. change (is_str (Str "OK") "OK") with true. cbv iota.
  set (w2 := answered _ _ _ _ _).
  change (ok_result (flat_match_body details))
    with (Obj [("success"%string, Bool true); ("verified"%string, Bool true);
               ("data"%string, or_else details (Obj []));
               ("fieldVerificationResult"%string,
                 Obj [("nameEn"%string, Bool true); ("dateOfBirth"%string, Bool true)])]).
  match goal with
  | |- context [with_photo URL_parse (Obj ?ms) w2] =>
      pose proof (with_photo_frame URL_parse ms w2) as [F1 F2];
      destruct (with_photo URL_parse (Obj ms) w2) as [r w3]
  end.
  cbn [fst] in F1, F2.
  exists r, w3. split; [reflexivity|].
  split; [rewrite F1 by discriminate; reflexivity|].
  split; [rewrite F1 by discriminate; reflexivity|].
  intros k Hk. rewrite (F2 k Hk).
  change (prop (Obj _) "data") with (or_else details (Obj [])).
  apply prop_or_empty.
Qed.

Lemma verifyNID_full_match_witness :
  exists r w',
    verifyNID Fixtures.URL_parse 1 "12345678901234567" "1990-01-01" "Jane Doe"
      (Fixtures.fresh_world
         [Fixtures.soon Fixtures.login_ok;
          Fixtures.soon (Reply 200 (flat_match_body Fixtures.person))] [])
    = Some (Ok r, w')
    /\ prop r "verified" = Bool true
    /\ prop r "fieldVerificationResult"
       = Obj [("nameEn"%string, Bool true); ("dateOfBirth"%string, Bool true)]
    /\ (forall k, k <> "photo"%string ->
                  prop (prop r "data") k = prop Fixtures.person k).
Proof.
  eapply (verifyNID_full_match Fixtures.URL_parse 1
            (Fixtures.fresh_world
               [Fixtures.soon Fixtures.login_ok;
                Fixtures.soon (Reply 200 (flat_match_body Fixtures.person))] [])).
  - vm_compute. reflexivity.
  - reflexivity.
  - vm_compute. discriminate.
  - reflexivity.
Defined.

(** C2 as stated fails: when the registry answers in the wire shape of the
    specification, with [verified] and [fieldVerificationResult] nested
    under [success], the call returns [verified = false] and no field
    flags. *)
Lemma verifyNID_nested_shape_unverified :
  exists w',
    verifyNID Fixtures.URL_parse 1 "12345678901234567" "1990-01-01" "Jane Doe"
      (Fixtures.fresh_world
         [Fixtures.soon Fixtures.login_ok; Fixtures.soon (Reply 200 (nested_match_body Fixtures.person))] [])
    = Some (Ok (Obj [("success"%string, Bool true);
                     ("verified"%string, Bool false);
                     ("data"%string, Fixtures.person);
                     ("fieldVerificationResult"%string, Obj [])]), w').
Proof. eexists. vm_compute. reflexivity. Qed.

(** C5, as the code has it.  A 406 answer whose body is not [null] makes
    the call return a result, not an error: [success] is true, [verified]
    is the body's [verified] when that is truthy and [false] otherwise,
    the field flags are the body's [fieldVerificationResult] or, when that is
    absent, both [false], the person details are the body's [data] (the
    photo apart, which may have been inlined), and the advisory message is
    attached. *)
Theorem verifyNID_mismatch (URL_parse : string -> option (string * string))
        (fuel : nat) (nid dateOfBirth nameEn : string) (w w1 : world)
        (a : arrival http_reply) (rest : list (arrival http_reply))
        (d : value) :
  ensureValidToken w = (Ok tt, w1) ->
  registry w1 = a :: rest ->
  after a <= TIMEOUT_MS ->
  what a = Reply 406 d ->
  d <> Null -> d <> Undefined ->
  exists r w',
    verifyNID URL_parse fuel nid dateOfBirth nameEn w = Some (Ok r, w')
    /\ prop r "success" = Bool true
    /\ prop r "verified" = or_else (prop d "verified") (Bool false)
    /\ (truthy (prop d "verified") = false -> prop r "verified" = Bool false)
    /\ prop r "fieldVerificationResult"
       = or_else (prop d "fieldVerificationResult")
                 (Obj [("nameEn"%string, Bool false);
                       ("dateOfBirth"%string, Bool false)])
    /\ (truthy (prop d "fieldVerificationResult") = false ->
        verificationDetails r
        = Obj [("nameEn"%string, Bool false); ("dateOfBirth"%string, Bool false)])
    /\ (forall k, k <> "photo"%string ->
                  prop (prop r "data") k = prop (prop d "data") k)
    /\ prop r "message" = Str MISMATCH_MESSAGE.
Proof.
  intros He Hr Ht Hw Hn Hu.
  destruct (verifyNID_fuel URL_parse fuel nid dateOfBirth nameEn w) as [-> _].
  simpl verifyNID.
  rewrite (verify_try_reply URL_parse _ _ _ w w1 a rest 406 _ He Hr Ht Hw) by lia.
  cbn zeta. change (406 =? 406) with true. cbv iota.
  assert (G : get d "fieldVerificationResult" = Ok (prop d "fieldVerificationResult")).
  { destruct d; try reflexivity; contradiction. }
  rewrite G. set (w2 := answered _ _ _ _ _).
  unfold mismatch_result.
  match goal with
  | |- context [with_photo URL_parse (Obj ?ms) w2] =>
      pose proof (with_photo_frame URL_parse ms w2) as [F1 F2];
      destruct (with_photo URL_parse (Obj ms) w2) as [r w3]
  end.
  cbn [fst] in F1, F2.
  assert (V : prop r "verified" = or_else (prop d "verified") (Bool false)).
  { rewrite F1 by discriminate. reflexivity. }
  assert (FV : prop r "fieldVerificationResult"
               = or_else (prop d "fieldVerificationResult")
                         (Obj [("nameEn"%string, Bool false);
                               ("dateOfBirth"%string, Bool false)])).
  { rewrite F1 by discriminate. reflexivity. }
  exists r, w3. split; [reflexivity|].
  split; [rewrite F1 by discriminate; reflexivity|].
  split; [exact V|].
  split; [intros T; rewrite V; unfold or_else; rewrite T; reflexivity|].
  split; [exact FV|].
  split.
  { intros T. unfold verificationDetails. rewrite FV. unfold or_else at 2 4.
    rewrite T. reflexivity. }
  split; [|rewrite F1 by discriminate; reflexivity].
  intros k Hk. rewrite (F2 k Hk).
  change (prop (Obj _) "data") with (or_else (prop d "data") (Obj [])).
  apply prop_or_empty.
Qed.

Lemma verifyNID_mismatch_witness :
  exists r w',
    verifyNID Fixtures.URL_parse 1 "1234567890" "1985-06-15" "Jane Doe"
      (Fixtures.logged_in_world
         [Fixtures.soon (Reply 406 (Obj [("data"%string, Fixtures.person)]))] [])
    = Some (Ok r, w')
    /\ prop r "success" = Bool true
    /\ prop r "verified"
       = or_else (prop (Obj [("data"%string, Fixtures.person)]) "verified") (Bool false)
    /\ (truthy (prop (Obj [("data"%string, Fixtures.person)]) "verified") = false ->
        prop r "verified" = Bool false)
    /\ prop r "fieldVerificationResult"
       = or_else (prop (Obj [("data"%string, Fixtures.person)]) "fieldVerificationResult")
                 (Obj [("nameEn"%string, Bool false);
                       ("dateOfBirth"%string, Bool false)])
    /\ (truthy (prop (Obj [("data"%string, Fixtures.person)]) "fieldVerificationResult")
        = false ->
        verificationDetails r
        = Obj [("nameEn"%string, Bool false); ("dateOfBirth"%string, Bool false)])
    /\ (forall k, k <> "photo"%string ->
                  prop (prop r "data") k
                  = prop (prop (Obj [("data"%string, Fixtures.person)]) "data") k)
    /\ prop r "message" = Str MISMATCH_MESSAGE.
Proof.
  eapply (verifyNID_mismatch Fixtures.URL_parse 1 "1234567890" "1985-06-15" "Jane Doe"
            (Fixtures.logged_in_world
               [Fixtures.soon (Reply 406 (Obj [("data"%string, Fixtures.person)]))] [])).
  - vm_compute. reflexivity.
  - reflexivity.
  - vm_compute. discriminate.
  - reflexivity.
  - discriminate.
  - discriminate.
Defined.

(** C5 as stated fails: a 406 answer that itself says [verified: true] is
    handed on with [verified = true]. *)
Lemma verifyNID_mismatch_keeps_verified :
  exists r w',
    verifyNID Fixtures.URL_parse 1 "1234567890" "1985-06-15" "Jane Doe"
      (Fixtures.logged_in_world
         [Fixtures.soon (Reply 406 (Obj [("verified"%string, Bool true);
                                         ("data"%string, Fixtures.person)]))] [])
    = Some (Ok r, w')
    /\ prop r "verified" = Bool true.
Proof. do 2 eexists. split; vm_compute; reflexivity. Qed.

(** C1 at a failing input.  The service holds a token the registry no
    longer accepts; the registry answers 401 and would accept a new login
    and the repeated request.  [verifyNID] throws after the one request:
    the token is still cached, no login was sent, the two answers are
    unread, and the route reports the failure as [VERIFICATION_FAILED]. *)
Theorem verifyNID_unauthorized_not_retried :
  let retry := [Fixtures.soon Fixtures.login_ok;
                Fixtures.soon (Reply 200 (flat_match_body Fixtures.person))] in
  let w := Fixtures.logged_in_world (Fixtures.soon Fixtures.unauthorized :: retry) [] in
  exists e w',
    verifyNID Fixtures.URL_parse 2 "12345678901234567" "1990-01-01" "Jane Doe" w
    = Some (Throw e, w')
    /\ message e = "NID verification failed: Verification failed: ERROR"%string
    /\ accessToken w' = accessToken w
    /\ exchanges w' = 0%nat
    /\ length (calls w') = 1%nat
    /\ registry w' = retry
    /\ route_failure e = (400, "VERIFICATION_FAILED"%string).
Proof. do 2 eexists. repeat split; vm_compute; reflexivity. Qed.

(** C8.  The registry's answer is one [verifyNID] accepts and the person
    details in it have a photo reference, but inlining fails: the reference
    is not an acceptable image URL, or the fetch fails or times out.  Then
    the call still returns a result, and it is the result built from the
    answer as it is: [verified] as the answer gives it, the photo reference
    the one the registry sent. *)
Theorem verifyNID_photo_failure (URL_parse : string -> option (string * string))
        (fuel : nat) (nid dateOfBirth nameEn : string) (w w1 : world)
        (a : arrival http_reply) (rest : list (arrival http_reply))
        (status : Z) (d : value) :
  ensureValidToken w = (Ok tt, w1) ->
  registry w1 = a :: rest ->
  after a <= TIMEOUT_MS ->
  what a = Reply status d ->
  status < 500 ->
  status = 406 \/ is_str (prop d "status") "OK" = true ->
  let photo := prop (prop (result_literal status d) "data") "photo" in
  truthy photo = true ->
  inlining_fails URL_parse photo (answered nid dateOfBirth nameEn (after a) w1) = true ->
  exists r w',
    verifyNID URL_parse fuel nid dateOfBirth nameEn w = Some (Ok r, w')
    /\ r = result_literal status d
    /\ prop r "verified" = or_else (prop d "verified") (Bool false)
    /\ prop (prop r "data") "photo" = photo.
Proof.
  intros He Hr Ht Hw Hs Hst photo Tp F.
  destruct (verifyNID_fuel URL_parse fuel nid dateOfBirth nameEn w) as [-> _].
  simpl verifyNID.
  rewrite (verify_try_reply URL_parse _ _ _ w w1 a rest status d He Hr Ht Hw Hs).
  cbn zeta. set (w2 := answered _ _ _ _ _) in *.
  (* a body that carries a photo is an object *)
  assert (O : exists ms, d = Obj ms).
  { subst photo. unfold result_literal, mismatch_result, ok_result in Tp.
    destruct d; eauto; destruct (status =? 406); discriminate Tp. }
  destruct O as [ms ->].
  subst photo. unfold result_literal in *.
  destruct (status =? 406) eqn:E.
  - cbn [get]. unfold mismatch_result in *.
    match goal with
    | |- context [with_photo URL_parse (Obj ?l) w2] =>
        pose proof (with_photo_failure URL_parse l w2 F) as P;
        destruct (with_photo URL_parse (Obj l) w2) as [r w3]
    end.
    cbn [fst] in P. subst r. eexists. exists w3. repeat split.
  - destruct Hst as [->|Hok]; [discriminate E|].
    cbn [get]. rewrite Hok. unfold ok_result in *.
    match goal with
    | |- context [with_photo URL_parse (Obj ?l) w2] =>
        pose proof (with_photo_failure URL_parse l w2 F) as P;
        destruct (with_photo URL_parse (Obj l) w2) as [r w3]
    end.
    cbn [fst] in P. subst r. eexists. exists w3. repeat split.
Qed.

Lemma verifyNID_photo_failure_witness :
  let d := flat_match_body
             (Obj [("nationalId"%string, Str "2361234740");
                   ("photo"%string, Str "https://cdn.example.org/p/1.jpg")]) in
  exists r w',
    verifyNID Fixtures.URL_parse 1 "12345678901234567" "1990-01-01" "Jane Doe"
      (Fixtures.logged_in_world
         [Fixtures.soon (Reply 200 d)]
         [mkArrival 31000 (ImageReply 200 (Some "image/jpeg"%string) "QUJD")])
    = Some (Ok r, w')
    /\ r = result_literal 200 d
    /\ prop r "verified" = or_else (prop d "verified") (Bool false)
    /\ prop (prop r "data") "photo" = Str "https://cdn.example.org/p/1.jpg".
Proof.
  eapply (verifyNID_photo_failure Fixtures.URL_parse 1
            "12345678901234567" "1990-01-01" "Jane Doe"
            (Fixtures.logged_in_world
               [Fixtures.soon
                  (Reply 200
                     (flat_match_body
                        (Obj [("nationalId"%string, Str "2361234740");
                              ("photo"%string, Str "https://cdn.example.org/p/1.jpg")])))]
               [mkArrival 31000 (ImageReply 200 (Some "image/jpeg"%string) "QUJD")])).
  - vm_compute. reflexivity.
  - reflexivity.
  - vm_compute. discriminate.
  - reflexivity.
  - lia.
  - right. reflexivity.
  - reflexivity.
  - vm_compute. reflexivity.
Defined.

(** ** The sanitizer *)

Import Audit.

Lemma json_clone_id (v : value) : is_json v = true -> json_clone v = v.
Proof.
  induction v as [| | | | |xs IH|ms IH] using value_ind'; try reflexivity.
  - intros H. simpl in *. f_equal.
    induction xs as [|x r IHr]; [reflexivity|].
    apply andb_prop in H as [Hx Hr].
    inversion IH as [|? ? Px Pr]; subst.
    rewrite (IHr Pr Hr).
    destruct x; try discriminate Hx; rewrite <- (Px Hx) at 2; reflexivity.
  - intros H. simpl in *. f_equal.
    induction ms as [|[k x] r IHr]; [reflexivity|].
    apply andb_prop in H as [Hx Hr].
    inversion IH as [|? ? Px Pr]; subst. simpl in Px.
    rewrite (IHr Pr Hr).
    destruct x; try discriminate Hx; rewrite <- (Px Hx) at 2; reflexivity.
Qed.

(** Reading after [sanitized.data[f] = x], behind a guard that found
    [sanitized.data[f']] truthy. *)
Lemma data_field_set (s : value) (f f' g : string) (x : value) :
  truthy (data_field s f') = true ->
  data_field (set_data_field s f x) g
  = if String.eqb g f then x else data_field s g.
Proof.
  unfold data_field, set_data_field. intros T.
  destruct (truthy_prop_obj _ _ T) as (dm & Ed & _).
  assert (Ts : truthy (prop s "data") = true) by (rewrite Ed; reflexivity).
  destruct (truthy_prop_obj _ _ Ts) as (sm & -> & _).
  rewrite prop_set_prop. simpl String.eqb. cbv iota.
  rewrite Ed. apply prop_set_prop.
Qed.

Lemma person_photo_set (s : value) (f f' : string) (x : value) :
  truthy (data_field s f') = true ->
  f <> "personDetails"%string ->
  person_photo (set_data_field s f x) = person_photo s.
Proof.
  intros T Hf. unfold person_photo.
  change (prop (prop (set_data_field s f x) "data") "personDetails")
    with (data_field (set_data_field s f x) "personDetails").
  rewrite (data_field_set s f f' _ x T).
  destruct (String.eqb "personDetails" f) eqn:E; [|reflexivity].
  apply String.eqb_eq in E. congruence.
Qed.

Lemma is_data_url_truthy (v : value) : is_data_url v = true -> truthy v = true.
Proof.
  destruct v; simpl; try discriminate.
  destruct s; [discriminate | reflexivity].
Qed.

(** The guard of the [forEach] callback says that [sanitized.data[field]]
    is an embedded asset. *)
Lemma large_field_guard (s : value) (field : string) :
  truthy (prop s "data") && truthy (prop (prop s "data") field)
  && is_string (prop (prop s "data") field)
  && startsWith (display (prop (prop s "data") field)) "data:"
  = is_data_url (data_field s field).
Proof.
  unfold data_field.
  destruct (truthy (prop (prop s "data") field)) eqn:T.
  - destruct (truthy_prop_obj _ _ T) as (dm & -> & _). simpl truthy.
    destruct (prop (Obj dm) field); reflexivity.
  - rewrite andb_false_r. simpl.
    destruct (is_data_url (prop (prop s "data") field)) eqn:D; [|reflexivity].
    apply is_data_url_truthy in D. congruence.
Qed.

(** One round of the [forEach] callback, seen through the two reads. *)
Lemma large_field_read (acc : value * list string) (f g : string) :
  data_field (fst (sanitize_large_field acc f)) g
  = if String.eqb g f && is_data_url (data_field (fst acc) f)
    then Str (removed_marker f) else data_field (fst acc) g.
Proof.
  destruct acc as [s l]. unfold sanitize_large_field. rewrite large_field_guard.
  cbn [fst].
  destruct (is_data_url (data_field s f)) eqn:D.
  - cbn [fst]. rewrite (data_field_set s f f g _ (is_data_url_truthy _ D)).
    rewrite andb_true_r. reflexivity.
  - rewrite andb_false_r. reflexivity.
Qed.

Lemma large_field_person_photo (acc : value * list string) (f : string) :
  f <> "personDetails"%string ->
  person_photo (fst (sanitize_large_field acc f)) = person_photo (fst acc).
Proof.
  intros Hf. destruct acc as [s l].
  unfold sanitize_large_field. rewrite large_field_guard.
  destruct (is_data_url (data_field s f)) eqn:D; [|reflexivity].
  cbn [fst]. apply (person_photo_set s f f _ (is_data_url_truthy _ D) Hf).
Qed.

(** The first assignment, [sanitized.data.personDetails.photo = ...]. *)
Lemma person_photo_guard (s : value) :
  truthy (prop s "data") && truthy (prop (prop s "data") "personDetails")
  && truthy (prop (prop (prop s "data") "personDetails") "photo")
  = truthy (person_photo s).
Proof.
  unfold person_photo.
  destruct (truthy (prop (prop (prop s "data") "personDetails") "photo")) eqn:T;
    [|apply andb_false_r].
  destruct (truthy_prop_obj _ _ T) as (pm & Ep & _).
  rewrite Ep.
  assert (Td : truthy (prop (prop s "data") "personDetails") = true)
    by (rewrite Ep; reflexivity).
  destruct (truthy_prop_obj _ _ Td) as (dm & -> & _). reflexivity.
Qed.

Lemma set_person_photo_read (s x : value) :
  truthy (person_photo s) = true ->
  person_photo (set_person_photo s x) = x
  /\ forall g, g <> "personDetails"%string ->
               data_field (set_person_photo s x) g = data_field s g.
Proof.
  intros T. unfold person_photo in T.
  destruct (truthy_prop_obj _ _ T) as (pm & Ep & _).
  assert (Td : truthy (data_field s "personDetails") = true)
    by (unfold data_field; rewrite Ep; reflexivity).
  unfold set_person_photo. split.
  - unfold person_photo.
    change (prop (prop ?v "data") "personDetails") with (data_field v "personDetails").
    rewrite (data_field_set s _ _ _ _ Td). simpl String.eqb. cbv iota.
    rewrite Ep. rewrite prop_set_prop. reflexivity.
  - intros g Hg. rewrite (data_field_set s _ _ _ _ Td).
    destruct (String.eqb g "personDetails") eqn:E; [|reflexivity].
    apply String.eqb_eq in E. contradiction.
Qed.

Lemma redact_person_photo_read (acc : value * list string) :
  person_photo (fst (redact_person_photo acc))
  = (if truthy (person_photo (fst acc)) then Str PHOTO_REMOVED
     else person_photo (fst acc))
  /\ forall g, g <> "personDetails"%string ->
               data_field (fst (redact_person_photo acc)) g = data_field (fst acc) g.
Proof.
  destruct acc as [s l]. unfold redact_person_photo.
  rewrite person_photo_guard. cbn [fst].
  destruct (truthy (person_photo s)) eqn:T; cbn [fst].
  - destruct (set_person_photo_read s (Str PHOTO_REMOVED) T) as [P D].
    split; assumption.
  - split; [reflexivity | intros; reflexivity].
Qed.

Lemma data_photo_guard (s : value) :
  truthy (prop s "data") && truthy (prop (prop s "data") "photo")
  = truthy (data_field s "photo").
Proof.
  unfold data_field.
  destruct (truthy (prop (prop s "data") "photo")) eqn:T; [|apply andb_false_r].
  destruct (truthy_prop_obj _ _ T) as (dm & -> & _). reflexivity.
Qed.

Lemma redact_data_photo_read (acc : value * list string) :
  person_photo (fst (redact_data_photo acc)) = person_photo (fst acc)
  /\ forall g,
      data_field (fst (redact_data_photo acc)) g
      = if String.eqb g "photo" && truthy (data_field (fst acc) "photo")
        then Str PHOTO_REMOVED else data_field (fst acc) g.
Proof.
  destruct acc as [s l]. unfold redact_data_photo.
  rewrite data_photo_guard. cbn [fst].
  destruct (truthy (data_field s "photo")) eqn:T; cbn [fst].
  - split.
    + apply (person_photo_set s "photo" "photo" _ T). discriminate.
    + intros g. rewrite (data_field_set s _ _ g _ T), andb_true_r. reflexivity.
  - split; [reflexivity|]. intros g. rewrite andb_false_r. reflexivity.
Qed.

(** What the stored copy holds at the places the function looks at. *)
Lemma sanitize_copy_reads (v : value) :
  is_json v = true ->
  let s := fst (sanitize_copy v) in
  (truthy (person_photo v) = true -> person_photo s = Str PHOTO_REMOVED)
  /\ (truthy (data_field v "photo") = true -> data_field s "photo" = Str PHOTO_REMOVED)
  /\ (forall f, In f ["image"; "picture"; "avatar"; "signature"]%string ->
                is_data_url (data_field v f) = true ->
                data_field s f = Str (removed_marker f)).
Proof.
  intros J s. subst s. unfold sanitize_copy. rewrite (json_clone_id v J).
  set (a1 := redact_person_photo (v, [])).
  set (a2 := redact_data_photo a1).
  destruct (redact_person_photo_read (v, [])) as [P1 D1]. fold a1 in P1, D1.
  destruct (redact_data_photo_read a1) as [P2 D2]. fold a2 in P2, D2.
  cbn [fst] in P1, D1.
  unfold largeFields. cbn [fold_left].
  split; [|split].
  - intros T.
    rewrite !large_field_person_photo by discriminate.
    rewrite P2, P1, T. reflexivity.
  - intros T.
    repeat (rewrite large_field_read; cbn [String.eqb Ascii.eqb Bool.eqb andb]).
    rewrite (D2 "photo"%string), (D1 "photo"%string) by discriminate.
    rewrite T. reflexivity.
  - intros f Hf U.
    assert (E2 : data_field (fst a2) f = data_field v f).
    { rewrite D2.
      assert (Hp : String.eqb f "photo" = false).
      { simpl in Hf. destruct Hf as [<-|[<-|[<-|[<-|[]]]]]; reflexivity. }
      rewrite Hp. cbn [andb]. apply D1.
      simpl in Hf. destruct Hf as [<-|[<-|[<-|[<-|[]]]]]; discriminate. }
    simpl in Hf. destruct Hf as [<-|[<-|[<-|[<-|[]]]]];
      repeat (rewrite large_field_read; cbn [String.eqb Ascii.eqb Bool.eqb andb]);
      rewrite ?E2, ?U; try reflexivity.
Qed.

Lemma prop_set_prop_other (s : value) (k0 k : string) (x : value) :
  k <> k0 -> prop (set_prop s k0 x) k = prop s k.
Proof.
  intros N. destruct s; try reflexivity.
  rewrite prop_set_prop. destruct (String.eqb k k0) eqn:E; [|reflexivity].
  apply String.eqb_eq in E. contradiction.
Qed.

(** No stage touches a top-level member other than [data]. *)
Lemma redact_person_photo_top (acc : value * list string) (k : string) :
  k <> "data"%string -> prop (fst (redact_person_photo acc)) k = prop (fst acc) k.
Proof.
  intros N. destruct acc as [s l]. unfold redact_person_photo.
  match goal with |- context [if ?c then _ else _] => destruct c end; [|reflexivity].
  apply prop_set_prop_other. exact N.
Qed.

Lemma redact_data_photo_top (acc : value * list string) (k : string) :
  k <> "data"%string -> prop (fst (redact_data_photo acc)) k = prop (fst acc) k.
Proof.
  intros N. destruct acc as [s l]. unfold redact_data_photo.
  match goal with |- context [if ?c then _ else _] => destruct c end; [|reflexivity].
  apply prop_set_prop_other. exact N.
Qed.

Lemma sanitize_large_field_top (acc : value * list string) (f k : string) :
  k <> "data"%string -> prop (fst (sanitize_large_field acc f)) k = prop (fst acc) k.
Proof.
  intros N. destruct acc as [s l]. unfold sanitize_large_field.
  match goal with |- context [if ?c then _ else _] => destruct c end; [|reflexivity].
  apply prop_set_prop_other. exact N.
Qed.

(** The first stage rewrites [personDetails] by one assignment to
    [photo]. *)
Lemma redact_person_photo_details (acc : value * list string) :
  data_field (fst (redact_person_photo acc)) "personDetails"
  = if truthy (person_photo (fst acc))
    then set_prop (data_field (fst acc) "personDetails") "photo" (Str PHOTO_REMOVED)
    else data_field (fst acc) "personDetails".
Proof.
  destruct acc as [s l]. unfold redact_person_photo.
  rewrite person_photo_guard. cbn [fst].
  destruct (truthy (person_photo s)) eqn:T; cbn [fst]; [|reflexivity].
  unfold person_photo in T.
  destruct (truthy_prop_obj _ _ T) as (pm & Ep & _).
  assert (Td : truthy (data_field s "personDetails") = true)
    by (unfold data_field; rewrite Ep; reflexivity).
  unfold set_person_photo.
  rewrite (data_field_set s _ _ _ _ Td). reflexivity.
Qed.

(** Everything the function does not name is in the copy as it was. *)
Lemma sanitize_copy_keeps (v : value) :
  is_json v = true ->
  let s := fst (sanitize_copy v) in
  (forall k, k <> "data"%string -> prop s k = prop v k)
  /\ (forall g,
        ~ In g ["personDetails"; "photo"; "image"; "picture"; "avatar"; "signature"]%string ->
        data_field s g = data_field v g)
  /\ (forall k, k <> "photo"%string ->
                prop (data_field s "personDetails") k
                = prop (data_field v "personDetails") k).
Proof.
  intros J s. subst s. unfold sanitize_copy. rewrite (json_clone_id v J).
  set (a1 := redact_person_photo (v, [])).
  set (a2 := redact_data_photo a1).
  destruct (redact_person_photo_read (v, [])) as [_ D1]. fold a1 in D1.
  destruct (redact_data_photo_read a1) as [_ D2]. fold a2 in D2.
  cbn [fst] in D1.
  unfold largeFields. cbn [fold_left].
  split; [|split].
  - intros k N.
    rewrite !sanitize_large_field_top by exact N.
    subst a2 a1.
    rewrite redact_data_photo_top, redact_person_photo_top by exact N.
    reflexivity.
  - intros g N.
    assert (F : forall f,
               In f ["personDetails"; "photo"; "image"; "picture"; "avatar"; "signature"]%string ->
               String.eqb g f = false).
    { intros f Hf. apply String.eqb_neq. intros ->. contradiction. }
    repeat (rewrite large_field_read;
            rewrite F by (simpl; tauto); cbn [andb]).
    rewrite D2, F by (simpl; tauto). cbn [andb].
    apply D1. intros ->. apply N. simpl. tauto.
  - intros k N.
    repeat (rewrite large_field_read; cbn [String.eqb Ascii.eqb Bool.eqb andb]).
    rewrite D2. cbn [String.eqb Ascii.eqb Bool.eqb andb].
    subst a1. rewrite redact_person_photo_details. cbn [fst].
    destruct (truthy (person_photo v)); [|reflexivity].
    apply prop_set_prop_other. exact N.
Qed.

Import Logger.

(** C3, as the code has it.  In the copy that is stored, for a response
    that is a JSON tree: [data.personDetails.photo], when truthy, is the
    marker [[PHOTO_DATA_REMOVED_FOR_STORAGE]]; so is [data.photo], when
    truthy; and each of [data.image], [data.picture], [data.avatar],
    [data.signature] that is a string beginning with [data:] is the marker
    naming that field.  In particular a data URL in
    [data.personDetails.photo] is stored as the literal marker.  Nothing
    else is looked at: every other top-level member, every other member of
    [data] and every other member of [data.personDetails] is stored as it
    came.  The copy is what the insert binds as [response_data], for a
    response given as an object and for one given as JSON text. *)
Theorem sanitizeResponseData_redacts (v : value) :
  is_json v = true ->
  let s := sanitizeResponseData v in
  (truthy (person_photo v) = true -> person_photo s = Str PHOTO_REMOVED)
  /\ (truthy (data_field v "photo") = true -> data_field s "photo" = Str PHOTO_REMOVED)
  /\ (forall f, In f ["image"; "picture"; "avatar"; "signature"]%string ->
                is_data_url (data_field v f) = true ->
                data_field s f = Str (removed_marker f))
  /\ (forall payload,
        person_photo v = Str ("data:image/jpeg;base64," +:+ payload) ->
        person_photo s = Str "[PHOTO_DATA_REMOVED_FOR_STORAGE]")
  /\ (forall k, k <> "data"%string -> prop s k = prop v k)
  /\ (forall g,
        ~ In g ["personDetails"; "photo"; "image"; "picture"; "avatar";
                "signature"]%string ->
        data_field s g = data_field v g)
  /\ (forall k, k <> "photo"%string ->
                prop (data_field s "personDetails") k
                = prop (data_field v "personDetails") k)
  /\ (forall JSON_parse req statusCode startTime now requestId,
        truthy v = true -> is_object v = true ->
        response_data (stored_row JSON_parse req statusCode startTime now requestId v)
        = Stringified s)
  /\ (forall JSON_parse req statusCode startTime now requestId text,
        text <> ""%string -> JSON_parse text = Ok v ->
        response_data (stored_row JSON_parse req statusCode startTime now requestId
                                  (Str text))
        = Stringified s).
Proof.
  intros J s.
  assert (R : (truthy (person_photo v) = true -> person_photo s = Str PHOTO_REMOVED)
              /\ (truthy (data_field v "photo") = true ->
                  data_field s "photo" = Str PHOTO_REMOVED)
              /\ (forall f, In f ["image"; "picture"; "avatar"; "signature"]%string ->
                            is_data_url (data_field v f) = true ->
                            data_field s f = Str (removed_marker f))).
  { subst s. unfold sanitizeResponseData.
    destruct (negb (truthy v) || negb (is_object v)) eqn:G.
    - assert (N : forall k, prop v k = Undefined).
      { destruct v; try reflexivity; discriminate G. }
      unfold person_photo, data_field. rewrite (N "data"%string). simpl.
      repeat split; try discriminate.
    - exact (sanitize_copy_reads v J). }
  assert (K : (forall k, k <> "data"%string -> prop s k = prop v k)
              /\ (forall g,
                    ~ In g ["personDetails"; "photo"; "image"; "picture"; "avatar";
                            "signature"]%string ->
                    data_field s g = data_field v g)
              /\ (forall k, k <> "photo"%string ->
                            prop (data_field s "personDetails") k
                            = prop (data_field v "personDetails") k)).
  { subst s. unfold sanitizeResponseData.
    destruct (negb (truthy v) || negb (is_object v)) eqn:G.
    - repeat split; reflexivity.
    - exact (sanitize_copy_keeps v J). }
  destruct R as (R1 & R2 & R3). destruct K as (K1 & K2 & K3).
  split; [exact R1|]. split; [exact R2|]. split; [exact R3|].
  split; [intros payload E; apply R1; rewrite E; reflexivity|].
  split; [exact K1|]. split; [exact K2|]. split; [exact K3|].
  split.
  - intros JSON_parse req statusCode startTime now requestId T O.
    unfold stored_row, logRequestToDatabase_start, build_row, parse_response.
    rewrite T. destruct v; try discriminate O; try discriminate T; reflexivity.
  - intros JSON_parse req statusCode startTime now requestId text Ne E.
    unfold stored_row, logRequestToDatabase_start, build_row, parse_response.
    assert (T : truthy (Str text) = true).
    { simpl. destruct text; [contradiction | reflexivity]. }
    rewrite T, E. reflexivity.
Qed.

Lemma sanitizeResponseData_redacts_witness :
  let v := Obj [("success"%string, Bool true);
                ("data"%string,
                  Obj [("verified"%string, Bool true);
                       ("personDetails"%string,
                         Obj [("pin"%string, Str "12345678901234567");
                              ("photo"%string, Str "data:image/jpeg;base64,AAAA")])])] in
  person_photo (sanitizeResponseData v) = Str "[PHOTO_DATA_REMOVED_FOR_STORAGE]".
Proof.
  intros v.
  refine (proj1 (proj2 (proj2 (proj2 (sanitizeResponseData_redacts v _)))) "AAAA" _).
  - reflexivity.
  - reflexivity.
Defined.

(** C3 as stated fails: an embedded asset inside the person details under
    another name than [photo] is stored as it came. *)
Lemma sanitizeResponseData_keeps_nested_asset :
  let v := Obj [("data"%string,
                  Obj [("personDetails"%string,
                         Obj [("photo"%string, Str "data:image/jpeg;base64,AAAA");
                              ("signature"%string, Str "data:image/png;base64,BBBB")])])] in
  is_json v = true
  /\ prop (prop (prop (sanitizeResponseData v) "data") "personDetails") "signature"
     = Str "data:image/png;base64,BBBB"
  /\ has_data_url (sanitizeResponseData v) = true.
Proof. repeat split; vm_compute; reflexivity. Qed.

(** ** The audit write *)

(** C9.  The patched [send] issues the insert and hands the response to
    the original [send] in the same turn, before the database has
    answered; nothing else it does is visible to the caller.  When the
    database answers later, whether it accepted or refused the row, the
    promise of [logRequestToDatabase] is fulfilled, a refusal leaves only
    error lines in the log, and what was sent to the caller is the same
    response either way. *)
Theorem audit_write_decoupled (JSON_parse : string -> result value)
        (req : request) (statusCode startTime now : Z) (requestId : string)
        (data : value) (db : result unit) :
  (exists logs,
      patched_send JSON_parse req statusCode startTime now requestId data
      = logs
        ++ [DbRun (stored_row JSON_parse req statusCode startTime now requestId data);
            Sent data]
      /\ filter is_sent logs = [])
  /\ snd (logRequestToDatabase_resume statusCode (now - startTime) requestId db) = Ok tt
  /\ (forall e, db = Throw e ->
                fst (logRequestToDatabase_resume statusCode (now - startTime) requestId db)
                = [LogError "Database execute error:";
                   LogError ("Failed to log request to database: " +:+ message e)])
  /\ filter is_sent (timeline JSON_parse req statusCode startTime now requestId data db)
     = [Sent data]
  /\ (forall db',
        filter is_sent (timeline JSON_parse req statusCode startTime now requestId data db')
        = filter is_sent (timeline JSON_parse req statusCode startTime now requestId data db)).
Proof.
  assert (L : exists logs,
             patched_send JSON_parse req statusCode startTime now requestId data
             = logs
               ++ [DbRun (stored_row JSON_parse req statusCode startTime now requestId data);
                   Sent data]
             /\ filter is_sent logs = []).
  { unfold patched_send, stored_row, logRequestToDatabase_start, build_row.
    destruct (parse_response JSON_parse data) as [parsed logs] eqn:P.
    exists logs. cbn [fst snd]. rewrite <- app_assoc. split; [reflexivity|].
    unfold parse_response in P.
    destruct (truthy data); [|injection P as _ <-; reflexivity].
    destruct (match data with Str s => JSON_parse s | _ => Ok data end) as [v|e];
      [|injection P as _ <-; reflexivity].
    injection P as _ <-. destruct (sanitizedFields v); reflexivity. }
  assert (S : forall o,
             filter is_sent (timeline JSON_parse req statusCode startTime now requestId data o)
             = [Sent data]).
  { intros o. unfold timeline. destruct L as (logs & -> & F).
    rewrite !filter_app, F. destruct o as [[]|e]; reflexivity. }
  split; [exact L|].
  split; [destruct db; reflexivity|].
  split; [intros e ->; reflexivity|].
  split; [apply S|].
  intros db'. rewrite !S. reflexivity.
Qed.

(** ** The sanitizer and the caller's object *)

Section heap_facts.
Import Heap.

Lemma fresh_from_le (n m : nat) (v : hval) :
  (n <= m)%nat -> fresh_from m v -> fresh_from n v.
Proof. destruct v; simpl; auto. lia. Qed.

Lemma cell_fresh_le (n m : nat) (c : cell) :
  (n <= m)%nat -> cell_fresh m c -> cell_fresh n c.
Proof.
  intros L. destruct c; simpl; apply List.Forall_impl; intros ?; apply fresh_from_le; exact L.
Qed.

Lemma extends_refl (h : heap) : extends h h.
Proof. exists []. rewrite app_nil_r. split; [reflexivity | constructor]. Qed.

Lemma extends_length (h h' : heap) : extends h h' -> (length h <= length h')%nat.
Proof. intros (ext & -> & _). rewrite length_app. lia. Qed.

Lemma extends_trans (h h1 h2 : heap) :
  extends h h1 -> extends h1 h2 -> extends h h2.
Proof.
  intros (e1 & -> & F1) (e2 & -> & F2).
  exists (e1 ++ e2). rewrite app_assoc. split; [reflexivity|].
  apply Forall_app. split; [exact F1|].
  eapply List.Forall_impl; [|exact F2].
  intros c. apply cell_fresh_le. rewrite length_app. lia.
Qed.

(** Adding one cell whose parts are new. *)
Lemma extends_snoc (h h' : heap) (c : cell) :
  extends h h' -> cell_fresh (length h) c -> extends h (h' ++ [c]).
Proof.
  intros (e & -> & F) C. exists (e ++ [c]). rewrite app_assoc.
  split; [reflexivity|]. apply Forall_app. split; [exact F|].
  constructor; [exact C | constructor].
Qed.

Lemma parse_items_ok (xs : list value) :
  Forall parse_ok xs ->
  forall h, extends h (snd (parse_items JSON_parse xs h))
            /\ Forall (fresh_from (length h)) (fst (parse_items JSON_parse xs h)).
Proof.
  induction 1 as [|x r Hx _ IH]; intros h; simpl.
  - split; [apply extends_refl | constructor].
  - destruct (Hx h) as [E1 F1].
    destruct (JSON_parse x h) as [v h1]. simpl in E1, F1.
    destruct (IH h1) as [E2 F2].
    destruct (parse_items JSON_parse r h1) as [vs h2]. simpl in *.
    split; [eapply extends_trans; eassumption|].
    constructor; [exact F1|].
    eapply List.Forall_impl; [|exact F2].
    intros v'. apply fresh_from_le. apply extends_length. exact E1.
Qed.

Lemma parse_members_ok (ms : list (string * value)) :
  Forall (fun kv => parse_ok (snd kv)) ms ->
  forall h, extends h (snd (parse_members JSON_parse ms h))
            /\ Forall (fun kv => fresh_from (length h) (snd kv))
                      (fst (parse_members JSON_parse ms h)).
Proof.
  induction 1 as [|[k x] r Hx _ IH]; intros h; simpl.
  - split; [apply extends_refl | constructor].
  - simpl in Hx. destruct (Hx h) as [E1 F1].
    destruct (JSON_parse x h) as [v h1]. simpl in E1, F1.
    destruct (IH h1) as [E2 F2].
    destruct (parse_members JSON_parse r h1) as [vs h2]. simpl in *.
    split; [eapply extends_trans; eassumption|].
    constructor; [exact F1|].
    eapply List.Forall_impl; [|exact F2].
    intros kv. apply fresh_from_le. apply extends_length. exact E1.
Qed.

(** [JSON.parse] only adds cells, and they refer to added cells only. *)
Lemma JSON_parse_ok (t : value) : parse_ok t.
Proof.
  induction t as [| | | | |xs IH|ms IH] using value_ind'; intros h;
    try (simpl; split; [apply extends_refl | exact I]).
  - simpl. destruct (parse_items_ok xs IH h) as [E F].
    destruct (parse_items JSON_parse xs h) as [vs h1]. simpl in *.
    split; [|apply extends_length; exact E].
    apply extends_snoc; assumption.
  - simpl. destruct (parse_members_ok ms IH h) as [E F].
    destruct (parse_members JSON_parse ms h) as [vs h1]. simpl in *.
    split; [|apply extends_length; exact E].
    apply extends_snoc; assumption.
Qed.

Lemma assoc_Forall {A : Type} (P : A -> Prop) (k : string) (ms : list (string * A)) (x : A) :
  Forall (fun kv => P (snd kv)) ms -> assoc k ms = Some x -> P x.
Proof.
  induction 1 as [|[k' v] r Hv _ IH]; simpl; [discriminate|].
  destruct (String.eqb k k'); [|exact IH].
  intros H. injection H as <-. exact Hv.
Qed.

Lemma set_member_Forall {A : Type} (P : A -> Prop) (k : string) (x : A)
      (ms : list (string * A)) :
  Forall (fun kv => P (snd kv)) ms -> P x ->
  Forall (fun kv => P (snd kv)) (set_member k x ms).
Proof.
  induction 1 as [|[k' v] r Hv Hr IH]; intros Px; simpl.
  - constructor; [exact Px | constructor].
  - destruct (String.eqb k k'); constructor; auto.
Qed.

(** A cell at a new location is one of the added cells. *)
Lemma extends_lookup (h h' : heap) (l : loc) (c : cell) :
  extends h h' -> (length h <= l)%nat -> h' !! l = Some c ->
  cell_fresh (length h) c.
Proof.
  intros (ext & -> & F) L H.
  rewrite lookup_app_r in H by exact L.
  rewrite Forall_forall in F. apply F.
  eapply list_elem_of_lookup_2. exact H.
Qed.

(** Reading a member of a new object gives a new object or a primitive. *)
Lemma hprop_fresh (h h' : heap) (v : hval) (k : string) :
  extends h h' -> fresh_from (length h) v ->
  fresh_from (length h) (hprop h' v k).
Proof.
  intros E F. destruct v as [| | | | |l]; try exact I. simpl in *.
  destruct (h' !! l) as [[ms|xs]|] eqn:H; try exact I.
  pose proof (extends_lookup _ _ _ _ E F H) as C. simpl in C.
  destruct (assoc k ms) as [x|] eqn:A; [|exact I].
  simpl. exact (assoc_Forall _ _ _ _ C A).
Qed.

(** Assigning a string to a member of a new object leaves [h] alone. *)
Lemma hset_extends (h h' : heap) (v : hval) (k : string) (s : string) :
  extends h h' -> fresh_from (length h) v ->
  extends h (hset h' v k (HStr s)).
Proof.
  intros E F. destruct v as [| | | | |l]; try exact E. simpl in *.
  destruct (h' !! l) as [[ms|xs]|] eqn:H; try exact E.
  pose proof (extends_lookup _ _ _ _ E F H) as C.
  destruct E as (ext & -> & Fe).
  exists (<[(l - length h)%nat := HObject (set_member k (HStr s) ms)]> ext).
  split.
  - apply insert_app_r_alt. exact F.
  - apply Forall_insert; [exact Fe|]. simpl in *.
    apply set_member_Forall; [exact C | exact I].
Qed.

Lemma sanitize_large_field_extends (h h' : heap) (sanitized : hval) (field : string) :
  extends h h' -> fresh_from (length h) sanitized ->
  extends h (Heap.sanitize_large_field sanitized h' field).
Proof.
  intros E F. unfold Heap.sanitize_large_field.
  match goal with |- context [if ?c then _ else _] => destruct c end; [|exact E].
  apply hset_extends; [exact E|]. apply hprop_fresh; assumption.
Qed.

Lemma extends_prefix (h h' : heap) (i : nat) (c : cell) :
  extends h h' -> h !! i = Some c -> h' !! i = Some c.
Proof. intros (ext & -> & _) H. apply lookup_app_l_Some. exact H. Qed.

End heap_facts.

Section heap_frame.
Import Heap.

Lemma fold_large_fields_extends (fields : list string) (h h' : heap) (sanitized : hval) :
  extends h h' -> fresh_from (length h) sanitized ->
  extends h (fold_left (Heap.sanitize_large_field sanitized) fields h').
Proof.
  revert h'. induction fields as [|f r IH]; intros h' E F; simpl; [exact E|].
  apply IH; [|exact F]. apply sanitize_large_field_extends; assumption.
Qed.

(** Serialising a reference gives an array or an object, and the
    reference is to a cell of the heap. *)
Lemma stringify_ref (fuel : nat) (h : heap) (l : loc) (t : value) :
  stringify fuel h (HRef l) = Some t ->
  (l < length h)%nat /\ ((exists xs, t = Arr xs) \/ (exists ms, t = Obj ms)).
Proof.
  destruct fuel as [|fuel]; simpl; [discriminate|].
  destruct (h !! l) as [[ms|xs]|] eqn:H; [| |discriminate].
  - destruct (stringify_members _ ms); simpl; [|discriminate].
    intros E. injection E as <-. split; [|eauto].
    eapply lookup_lt_Some. exact H.
  - destruct (stringify_items _ xs); simpl; [|discriminate].
    intros E. injection E as <-. split; [|eauto].
    eapply lookup_lt_Some. exact H.
Qed.

(** For an object that [JSON.stringify] accepts, [sanitizeResponseData]
    returns a reference to a new object, and every cell the heap had before
    the call is the same after it.  The added cells refer to added cells
    only. *)
Lemma sanitizeResponseData_frame (h : heap) (data : hval) (t : value) :
  htruthy data = true ->
  his_object data = true ->
  JSON_stringify h data = Some t ->
  exists l r h',
    data = HRef l
    /\ Heap.sanitizeResponseData h data = Ok (HRef r, h')
    /\ (l < length h <= r)%nat
    /\ (forall i c, h !! i = Some c -> h' !! i = Some c)
    /\ take (length h) h' = h
    /\ extends h h'.
Proof.
  intros T O S.
  destruct data as [| | | | |l]; try discriminate T; try discriminate O.
  destruct (stringify_ref _ _ _ _ S) as [Ll Shape].
  unfold Heap.sanitizeResponseData. simpl htruthy. simpl his_object. cbv iota.
  simpl negb. simpl orb. cbv iota. rewrite S.
  destruct (JSON_parse_ok t h) as [E0 F0].
  destruct (JSON_parse t h) as [sanitized h0] eqn:P. simpl in E0, F0.
  assert (R : exists r, sanitized = HRef r /\ (length h <= r)%nat).
  { destruct Shape as [[xs ->]|[ms ->]]; simpl in P.
    - destruct (parse_items JSON_parse xs h) as [vs h1]. injection P as <- <-.
      eexists. split; [reflexivity | exact F0].
    - destruct (parse_members JSON_parse ms h) as [vs h1]. injection P as <- <-.
      eexists. split; [reflexivity | exact F0]. }
  destruct R as (r & -> & Lr).
  set (h1 := Heap.redact_person_photo (HRef r) h0).
  assert (E1 : extends h h1).
  { subst h1. unfold Heap.redact_person_photo.
    match goal with |- context [if ?c then _ else _] => destruct c end;
      [|exact E0].
    apply hset_extends; [exact E0|].
    repeat (apply hprop_fresh; [exact E0|]). exact F0. }
  set (h2 := Heap.redact_data_photo (HRef r) h1).
  assert (E2 : extends h h2).
  { subst h2. unfold Heap.redact_data_photo.
    match goal with |- context [if ?c then _ else _] => destruct c end;
      [|exact E1].
    apply hset_extends; [exact E1|].
    apply hprop_fresh; [exact E1 | exact F0]. }
  pose proof (fold_large_fields_extends largeFields h h2 (HRef r) E2 F0) as E3.
  exists l, r, (fold_left (Heap.sanitize_large_field (HRef r)) largeFields h2).
  split; [reflexivity|]. split; [reflexivity|]. split; [lia|].
  split; [intros i c; apply extends_prefix; exact E3|].
  split; [|exact E3].
  destruct E3 as (ext & -> & _). apply take_app_length.
Qed.

End heap_frame.

(** ** The heap sanitizer computes the tree sanitizer *)

Section heap_refinement.
Import Heap.

Lemma tree_at_le (h : heap) (t : value) (a b : nat) (v : hval) :
  tree_at h t a b v -> (a <= b)%nat.
Proof.
  destruct t; simpl; try tauto.
  - intros (l & hvs & _ & L & _). lia.
  - intros (l & hms & _ & L & _). lia.
Qed.

Lemma items_at_le (h : heap) (ts : list value) :
  forall a b hvs, items_at (tree_at h) ts a b hvs -> (a <= b)%nat.
Proof.
  induction ts as [|t r IH]; intros a b [|hv hvs]; simpl; try tauto.
  intros (m & T & R). apply tree_at_le in T. apply IH in R. lia.
Qed.

Lemma members_at_le (h : heap) (ms : list (string * value)) :
  forall a b hms, members_at (tree_at h) ms a b hms -> (a <= b)%nat.
Proof.
  induction ms as [|[k t] r IH]; intros a b [|[k' hv] hms]; simpl; try tauto.
  intros (_ & m & T & R). apply tree_at_le in T. apply IH in R. lia.
Qed.

(** Two heaps that agree on a stretch hold the same trees in it. *)
Lemma tree_at_agree (h h' : heap) (t : value) :
  forall lo hi v, agree_on lo hi h h' -> tree_at h t lo hi v -> tree_at h' t lo hi v.
Proof.
  induction t as [| | | | |ts IH|ms IH] using value_ind'; intros lo hi v A; simpl; auto.
  - intros (l & hvs & -> & L & H & I). exists l, hvs.
    split; [reflexivity|]. split; [exact L|]. split; [rewrite A by lia; exact H|].
    assert (A' : agree_on lo l h h') by (intros i Hi; apply A; lia).
    clear H L A. revert lo hvs I A'.
    induction IH as [|t r Ht _ IHr]; intros a [|hv hvs]; simpl; try tauto.
    intros (m & T & R) A'.
    pose proof (items_at_le _ _ _ _ _ R) as Lm.
    pose proof (tree_at_le _ _ _ _ _ T) as La.
    exists m. split.
    + apply Ht; [|exact T]. intros i Hi. apply A'. lia.
    + apply IHr; [exact R|]. intros i Hi. apply A'. lia.
  - intros (l & hms & -> & L & H & I). exists l, hms.
    split; [reflexivity|]. split; [exact L|]. split; [rewrite A by lia; exact H|].
    assert (A' : agree_on lo l h h') by (intros i Hi; apply A; lia).
    clear H L A. revert lo hms I A'.
    induction IH as [|[k t] r Ht _ IHr]; intros a [|[k' hv] hms]; simpl; try tauto.
    intros (-> & m & T & R) A'.
    pose proof (members_at_le _ _ _ _ _ R) as Lm.
    pose proof (tree_at_le _ _ _ _ _ T) as La.
    split; [reflexivity|]. exists m. split.
    + apply Ht; [|exact T]. intros i Hi. apply A'. lia.
    + apply IHr; [exact R|]. intros i Hi. apply A'. lia.
Qed.

(** A tree stays where it is when the stretch is widened. *)
Lemma tree_at_widen (h : heap) (t : value) :
  forall lo hi lo' hi' v,
    (lo' <= lo)%nat -> (hi <= hi')%nat ->
    tree_at h t lo hi v -> tree_at h t lo' hi' v.
Proof.
  induction t as [| | | | |ts IH|ms IH] using value_ind';
    intros lo hi lo' hi' v L1 L2; simpl; auto;
    try (intros [-> L]; split; [reflexivity | lia]).
  - intros (l & hvs & -> & L & H & I). exists l, hvs.
    split; [reflexivity|]. split; [lia|]. split; [exact H|].
    clear H L L2. revert lo lo' hvs L1 I.
    induction IH as [|t r Ht _ IHr]; intros lo lo' [|hv hvs] L1; simpl; try tauto.
    + lia.
    + intros (m & T & R). exists m. split; [|exact R].
      apply (Ht lo m lo' m); [exact L1 | lia | exact T].
  - intros (l & hms & -> & L & H & I). exists l, hms.
    split; [reflexivity|]. split; [lia|]. split; [exact H|].
    clear H L L2. revert lo lo' hms L1 I.
    induction IH as [|[k t] r Ht _ IHr]; intros lo lo' [|[k' hv] hms] L1; simpl;
      try tauto.
    + lia.
    + intros (-> & m & T & R). split; [reflexivity|]. exists m. split; [|exact R].
      apply (Ht lo m lo' m); [exact L1 | lia | exact T].
Qed.

Lemma extends_agree (h h' : heap) (a : nat) :
  extends h h' -> agree_on a (length h) h h'.
Proof.
  intros (ext & -> & _) i Hi. apply lookup_app_l. lia.
Qed.

Lemma items_at_agree (h h' : heap) (ts : list value) :
  forall lo hi hvs,
    agree_on lo hi h h' ->
    items_at (tree_at h) ts lo hi hvs -> items_at (tree_at h') ts lo hi hvs.
Proof.
  induction ts as [|t r IH]; intros lo hi [|hv hvs] A; simpl; try tauto.
  intros (m & T & R).
  pose proof (items_at_le _ _ _ _ _ R) as Lm.
  pose proof (tree_at_le _ _ _ _ _ T) as La.
  exists m. split.
  - eapply tree_at_agree; [|exact T]. intros i Hi. apply A. lia.
  - apply IH; [|exact R]. intros i Hi. apply A. lia.
Qed.

Lemma members_at_agree (h h' : heap) (ms : list (string * value)) :
  forall lo hi hms,
    agree_on lo hi h h' ->
    members_at (tree_at h) ms lo hi hms -> members_at (tree_at h') ms lo hi hms.
Proof.
  induction ms as [|[k t] r IH]; intros lo hi [|[k' hv] hms] A; simpl; try tauto.
  intros (-> & m & T & R).
  pose proof (members_at_le _ _ _ _ _ R) as Lm.
  pose proof (tree_at_le _ _ _ _ _ T) as La.
  split; [reflexivity|]. exists m. split.
  - eapply tree_at_agree; [|exact T]. intros i Hi. apply A. lia.
  - apply IH; [|exact R]. intros i Hi. apply A. lia.
Qed.

Lemma all_parse_ok (xs : list value) : Forall parse_ok xs.
Proof. apply Forall_forall. intros x _. apply JSON_parse_ok. Qed.

Lemma all_members_parse_ok (ms : list (string * value)) :
  Forall (fun kv => parse_ok (snd kv)) ms.
Proof. apply Forall_forall. intros x _. apply JSON_parse_ok. Qed.

Lemma snoc_agree (h : heap) (c : cell) (a : nat) :
  agree_on a (length h) h (h ++ [c]).
Proof. intros i Hi. apply lookup_app_l. lia. Qed.

Lemma parse_items_tree (ts : list value) :
  Forall parse_tree ts ->
  forall h, is_json (Arr ts) = true ->
    items_at (tree_at (snd (parse_items JSON_parse ts h))) ts (length h)
             (length (snd (parse_items JSON_parse ts h)))
             (fst (parse_items JSON_parse ts h)).
Proof.
  induction 1 as [|t r Ht Hr IHr]; intros h J; simpl.
  - lia.
  - simpl in J. apply andb_prop in J as [Jt Jr].
    pose proof (Ht Jt h) as T.
    destruct (JSON_parse t h) as [v h1]. simpl in T.
    pose proof (IHr h1 Jr) as R.
    pose proof (parse_items_ok r (all_parse_ok r) h1) as [E2 _].
    destruct (parse_items JSON_parse r h1) as [vs h2]. simpl in *.
    exists (length h1). split; [|exact R].
    eapply tree_at_agree; [|exact T].
    apply extends_agree. exact E2.
Qed.

Lemma parse_members_tree (ms : list (string * value)) :
  Forall (fun kv => parse_tree (snd kv)) ms ->
  forall h, is_json (Obj ms) = true ->
    members_at (tree_at (snd (parse_members JSON_parse ms h))) ms (length h)
               (length (snd (parse_members JSON_parse ms h)))
               (fst (parse_members JSON_parse ms h)).
Proof.
  induction 1 as [|[k t] r Ht Hr IHr]; intros h J; simpl.
  - lia.
  - simpl in J. apply andb_prop in J as [Jt Jr]. simpl in Ht.
    pose proof (Ht Jt h) as T.
    destruct (JSON_parse t h) as [v h1]. simpl in T.
    pose proof (IHr h1 Jr) as R.
    pose proof (parse_members_ok r (all_members_parse_ok r) h1) as [E2 _].
    destruct (parse_members JSON_parse r h1) as [vs h2]. simpl in *.
    split; [reflexivity|]. exists (length h1). split; [|exact R].
    eapply tree_at_agree; [|exact T].
    apply extends_agree. exact E2.
Qed.

Lemma JSON_parse_tree (t : value) : parse_tree t.
Proof.
  induction t as [| | | | |ts IH|ms IH] using value_ind'; intros J h; simpl;
    try discriminate J; try (split; [reflexivity | lia]).
  - pose proof (parse_items_tree ts IH h J) as I.
    pose proof (parse_items_ok ts (all_parse_ok ts) h) as [E _].
    destruct (parse_items JSON_parse ts h) as [vs h1]. simpl in *.
    exists (length h1), vs. split; [reflexivity|].
    split; [rewrite length_app; simpl; apply extends_length in E; lia|].
    split; [apply list_lookup_middle; reflexivity|].
    eapply items_at_agree; [|exact I]. apply snoc_agree.
  - pose proof (parse_members_tree ms IH h J) as I.
    pose proof (parse_members_ok ms (all_members_parse_ok ms) h) as [E _].
    destruct (parse_members JSON_parse ms h) as [vs h1]. simpl in *.
    exists (length h1), vs. split; [reflexivity|].
    split; [rewrite length_app; simpl; apply extends_length in E; lia|].
    split; [apply list_lookup_middle; reflexivity|].
    eapply members_at_agree; [|exact I]. apply snoc_agree.
Qed.

(** Serialising a value that stands for a tree gives that tree, with as
    much fuel as the stretch is long. *)
Lemma stringify_tree (h : heap) (t : value) :
  forall lo hi v fuel,
    tree_at h t lo hi v -> (hi - lo < fuel)%nat -> stringify fuel h v = Some t.
Proof.
  induction t as [| | | | |ts IH|ms IH] using value_ind';
    intros lo hi v fuel; simpl.
  1: tauto.
  1-4: intros [-> _] _; destruct fuel; reflexivity.
  - intros (l & hvs & -> & L & H & I) F.
    destruct fuel as [|fuel]; [lia|]. simpl. rewrite H.
    assert (S : stringify_items (stringify fuel h) hvs = Some ts);
      [|rewrite S; reflexivity].
    assert (B : (l - lo < fuel)%nat) by lia. clear H F L.
    revert lo hvs I B.
    induction IH as [|t r Ht _ IHr]; intros lo [|hv hvs]; simpl; try tauto.
    intros (m & T & R) B.
    pose proof (items_at_le _ _ _ _ _ R) as Lm.
    pose proof (tree_at_le _ _ _ _ _ T) as La.
    rewrite (Ht lo m hv fuel T) by lia. simpl.
    rewrite (IHr m hvs R) by lia. simpl.
    destruct t; try reflexivity. destruct T.
  - intros (l & hms & -> & L & H & I) F.
    destruct fuel as [|fuel]; [lia|]. simpl. rewrite H.
    assert (S : stringify_members (stringify fuel h) hms = Some ms);
      [|rewrite S; reflexivity].
    assert (B : (l - lo < fuel)%nat) by lia. clear H F L.
    revert lo hms I B.
    induction IH as [|[k t] r Ht _ IHr]; intros lo [|[k' hv] hms]; simpl; try tauto.
    intros (-> & m & T & R) B.
    pose proof (members_at_le _ _ _ _ _ R) as Lm.
    pose proof (tree_at_le _ _ _ _ _ T) as La.
    simpl in Ht. rewrite (Ht lo m hv fuel T) by lia. simpl.
    rewrite (IHr m hms R) by lia. simpl.
    destruct t; try reflexivity. destruct T.
Qed.

(** What [JSON.stringify] gives is a JSON tree. *)
Lemma stringify_json (fuel : nat) (h : heap) :
  forall v t, stringify fuel h v = Some t -> t = Undefined \/ is_json t = true.
Proof.
  induction fuel as [|fuel IH]; intros v t.
  - destruct v; simpl; intros E; try discriminate E; injection E as <-; auto.
  - destruct v as [| | | | |l]; simpl;
      try (intros E; injection E as <-; auto).
    destruct (h !! l) as [[ms|xs]|]; [| |discriminate].
    + destruct (stringify_members (stringify fuel h) ms) as [ts|] eqn:S;
        simpl; [|discriminate].
      intros E. injection E as <-. right. simpl.
      revert ts S. induction ms as [|[k x] r IHr]; simpl; intros ts S.
      * injection S as <-. reflexivity.
      * destruct (stringify fuel h x) as [tx|] eqn:X; simpl in S; [|discriminate].
        destruct (stringify_members (stringify fuel h) r) as [tr|]; simpl in S;
          [|discriminate].
        specialize (IHr tr eq_refl).
        destruct (IH x tx X) as [->|J]; [injection S as <-; exact IHr|].
        destruct tx; injection S as <-; try exact IHr; simpl in *;
          rewrite ?J, ?IHr; try reflexivity; discriminate J.
    + destruct (stringify_items (stringify fuel h) xs) as [ts|] eqn:S;
        simpl; [|discriminate].
      intros E. injection E as <-. right. simpl.
      revert ts S. induction xs as [|x r IHr]; simpl; intros ts S.
      * injection S as <-. reflexivity.
      * destruct (stringify fuel h x) as [tx|] eqn:X; simpl in S; [|discriminate].
        destruct (stringify_items (stringify fuel h) r) as [tr|]; simpl in S;
          [|discriminate].
        specialize (IHr tr eq_refl).
        destruct (IH x tx X) as [->|J]; [injection S as <-; exact IHr|].
        destruct tx; injection S as <-; try exact IHr; simpl in *;
          rewrite ?J, ?IHr; try reflexivity; discriminate J.
Qed.

Lemma members_at_assoc (h : heap) (k : string) (ms : list (string * value)) :
  forall lo hi hms,
    members_at (tree_at h) ms lo hi hms ->
    match assoc k ms with
    | None => assoc k hms = None
    | Some t => exists hv a b, assoc k hms = Some hv /\ tree_at h t a b hv
    end.
Proof.
  induction ms as [|[k0 t0] r IH]; intros lo hi [|[k' hv] hms]; simpl; try tauto.
  intros (-> & m & T & R).
  destruct (String.eqb k k'); [eauto|]. exact (IH _ _ _ R).
Qed.

Lemma reads_prop (h : heap) (t : value) (v : hval) (k : string) :
  reads h t v -> reads h (prop t k) (hprop h v k).
Proof.
  intros [[-> ->]|(a & b & T)]; [left; split; reflexivity|].
  destruct t; simpl in T; try contradiction;
    try (destruct T as [-> _]; left; split; reflexivity).
  - destruct T as (l & hvs & -> & _ & H & _). simpl. rewrite H.
    left. split; reflexivity.
  - destruct T as (l & hms & -> & _ & H & M). simpl. rewrite H.
    pose proof (members_at_assoc h k ms _ _ _ M) as A.
    destruct (assoc k ms) as [t|].
    + destruct A as (hv & a' & b' & -> & T). right. exists a', b'. exact T.
    + rewrite A. left. split; reflexivity.
Qed.

Lemma reads_truthy (h : heap) (t : value) (v : hval) :
  reads h t v -> htruthy v = truthy t.
Proof.
  intros [[-> ->]|(a & b & T)]; [reflexivity|].
  destruct t; simpl in T; try contradiction;
    try (destruct T as [-> _]; reflexivity).
  - destruct T as (l & hvs & -> & _). reflexivity.
  - destruct T as (l & hms & -> & _). reflexivity.
Qed.

Lemma reads_data_url (h : heap) (t : value) (v : hval) :
  reads h t v ->
  match v with HStr s => startsWith s "data:" | _ => false end = is_data_url t.
Proof.
  intros [[-> ->]|(a & b & T)]; [reflexivity|].
  destruct t; simpl in T; try contradiction;
    try (destruct T as [-> _]; reflexivity).
  - destruct T as (l & hvs & -> & _). reflexivity.
  - destruct T as (l & hms & -> & _). reflexivity.
Qed.

Lemma members_at_set (h : heap) (k s : string) (ms : list (string * value)) :
  forall lo hi hms,
    members_at (tree_at h) ms lo hi hms ->
    members_at (tree_at h) (set_member k (Str s) ms) lo hi (set_member k (HStr s) hms).
Proof.
  induction ms as [|[k0 t0] r IH]; intros lo hi [|[k' hv] hms]; simpl; try tauto.
  - intros L. split; [reflexivity|]. exists lo. simpl. auto.
  - intros (-> & m & T & R).
    destruct (String.eqb k k'); simpl.
    + split; [reflexivity|]. exists m. split; [|exact R].
      split; [reflexivity|]. eapply tree_at_le. exact T.
    + split; [reflexivity|]. exists m. split; [exact T|]. apply IH. exact R.
Qed.

(** Assigning a string to a member of the object itself. *)
Lemma hset_updates (h : heap) (v : hval) (k s : string) (ms : list (string * value)) :
  updates h (hset h v k (HStr s)) (Obj ms) (Obj (set_member k (Str s) ms)) v.
Proof.
  intros lo hi (l & hms & -> & L & H & M). simpl hset. rewrite H.
  pose proof (lookup_lt_Some _ _ _ H) as Ll.
  split.
  - exists l, (set_member k (HStr s) hms).
    split; [reflexivity|]. split; [exact L|].
    split; [apply list_lookup_insert_eq; exact Ll|].
    apply members_at_set.
    eapply members_at_agree; [|exact M].
    intros i Hi. apply list_lookup_insert_ne. lia.
  - intros i Hi. apply list_lookup_insert_ne. lia.
Qed.

Lemma members_at_update (h h' : heap) (k : string) (tk tk' : value)
      (ms : list (string * value)) :
  forall lo hi hms,
    members_at (tree_at h) ms lo hi hms ->
    assoc k ms = Some tk ->
    updates h h' tk tk' (default HUndefined (assoc k hms)) ->
    members_at (tree_at h') (set_member k tk' ms) lo hi hms
    /\ forall i, ~ (lo <= i < hi)%nat -> h' !! i = h !! i.
Proof.
  induction ms as [|[k0 t0] r IH]; intros lo hi [|[k' hv] hms]; simpl; try tauto;
    try discriminate.
  intros (-> & m & T & R) A U.
  pose proof (members_at_le _ _ _ _ _ R) as Lm.
  pose proof (tree_at_le _ _ _ _ _ T) as La.
  destruct (String.eqb k k') eqn:E.
  - injection A as ->. simpl in U.
    destruct (U lo m T) as [T' O]. simpl.
    split; [|intros i Hi; apply O; lia].
    split; [reflexivity|]. exists m. split; [exact T'|].
    eapply members_at_agree; [|exact R]. intros i Hi. apply O. lia.
  - destruct (IH m hi hms R A U) as [R' O]. simpl.
    split; [|intros i Hi; apply O; lia].
    split; [reflexivity|]. exists m. split; [|exact R'].
    eapply tree_at_agree; [|exact T]. intros i Hi. apply O. lia.
Qed.

(** Changing the part under one member changes that member only. *)
Lemma member_updates (h h' : heap) (v : hval) (k : string) (tk tk' : value)
      (ms : list (string * value)) :
  assoc k ms = Some tk ->
  updates h h' tk tk' (hprop h v k) ->
  updates h h' (Obj ms) (Obj (set_member k tk' ms)) v.
Proof.
  intros A U lo hi (l & hms & -> & L & H & M).
  simpl in U. rewrite H in U.
  destruct (members_at_update h h' k tk tk' ms lo l hms M A U) as [M' O].
  split.
  - exists l, hms. split; [reflexivity|]. split; [exact L|].
    split; [rewrite O by lia; exact H | exact M'].
  - intros i Hi. apply O. lia.
Qed.

Lemma tree_reads (h : heap) (t : value) (lo hi : nat) (v : hval) :
  tree_at h t lo hi v -> reads h t v.
Proof. intros T. right. eauto. Qed.

(** [sanitized.data[f] = '...'] on the heap and on the tree. *)
Lemma set_data_field_tree (h : heap) (t : value) (lo hi : nat) (v : hval)
      (f f' s : string) :
  tree_at h t lo hi v ->
  truthy (data_field t f') = true ->
  tree_at (hset h (hprop h v "data") f (HStr s)) (set_data_field t f (Str s)) lo hi v.
Proof.
  intros T Tr. unfold data_field in Tr.
  destruct (truthy_prop_obj _ _ Tr) as (dm & Ed & _).
  assert (Td : truthy (prop t "data") = true) by (rewrite Ed; reflexivity).
  destruct (truthy_prop_obj _ _ Td) as (ms & -> & A).
  rewrite Ed in A. unfold set_data_field. rewrite Ed. simpl set_prop.
  eapply (member_updates h _ v "data" (Obj dm) _ ms A); [|exact T].
  apply hset_updates.
Qed.

(** [sanitized.data.personDetails.photo = '...'] on the heap and on the
    tree. *)
Lemma set_person_photo_tree (h : heap) (t : value) (lo hi : nat) (v : hval)
      (s : string) :
  tree_at h t lo hi v ->
  truthy (person_photo t) = true ->
  tree_at (hset h (hprop h (hprop h v "data") "personDetails") "photo" (HStr s))
          (set_person_photo t (Str s)) lo hi v.
Proof.
  intros T Tr. unfold person_photo in Tr.
  destruct (truthy_prop_obj _ _ Tr) as (pm & Ep & _).
  assert (Tp : truthy (prop (prop t "data") "personDetails") = true)
    by (rewrite Ep; reflexivity).
  destruct (truthy_prop_obj _ _ Tp) as (dm & Ed & Ap).
  assert (Td : truthy (prop t "data") = true) by (rewrite Ed; reflexivity).
  destruct (truthy_prop_obj _ _ Td) as (ms & -> & Ad).
  rewrite Ed in Ad. rewrite Ep in Ap. rewrite Ed in Ep.
  unfold set_person_photo, set_data_field. rewrite Ed, Ep. simpl set_prop.
  eapply (member_updates h _ v "data" (Obj dm) _ ms Ad); [|exact T].
  eapply (member_updates h _ _ "personDetails" (Obj pm) _ dm Ap).
  apply hset_updates.
Qed.

Section stages.
Variables (h : heap) (t : value) (lo hi : nat) (v : hval).
Hypothesis T : tree_at h t lo hi v.

Lemma redact_person_photo_tree (l : list string) :
  tree_at (Heap.redact_person_photo v h) (fst (Audit.redact_person_photo (t, l))) lo hi v.
Proof.
  unfold Heap.redact_person_photo, Audit.redact_person_photo.
  pose proof (tree_reads _ _ _ _ _ T) as R.
  pose proof (reads_prop _ _ _ "data" R) as Rd.
  pose proof (reads_prop _ _ _ "personDetails" Rd) as Rp.
  pose proof (reads_prop _ _ _ "photo" Rp) as Rf.
  rewrite (reads_truthy _ _ _ Rd), (reads_truthy _ _ _ Rp), (reads_truthy _ _ _ Rf).
  rewrite person_photo_guard.
  destruct (truthy (person_photo t)) eqn:G; cbn [fst]; [|exact T].
  apply set_person_photo_tree; assumption.
Qed.

Lemma redact_data_photo_tree (l : list string) :
  tree_at (Heap.redact_data_photo v h) (fst (Audit.redact_data_photo (t, l))) lo hi v.
Proof.
  unfold Heap.redact_data_photo, Audit.redact_data_photo.
  pose proof (tree_reads _ _ _ _ _ T) as R.
  pose proof (reads_prop _ _ _ "data" R) as Rd.
  pose proof (reads_prop _ _ _ "photo" Rd) as Rf.
  rewrite (reads_truthy _ _ _ Rd), (reads_truthy _ _ _ Rf).
  rewrite data_photo_guard.
  destruct (truthy (data_field t "photo")) eqn:G; cbn [fst]; [|exact T].
  apply (set_data_field_tree h t lo hi v "photo" "photo"); assumption.
Qed.

Lemma sanitize_large_field_tree (l : list string) (f : string) :
  tree_at (Heap.sanitize_large_field v h f)
          (fst (Audit.sanitize_large_field (t, l) f)) lo hi v.
Proof.
  unfold Heap.sanitize_large_field, Audit.sanitize_large_field.
  pose proof (tree_reads _ _ _ _ _ T) as R.
  pose proof (reads_prop _ _ _ "data" R) as Rd.
  pose proof (reads_prop _ _ _ f Rd) as Rf.
  rewrite (reads_truthy _ _ _ Rd), (reads_truthy _ _ _ Rf), (reads_data_url _ _ _ Rf).
  rewrite large_field_guard.
  assert (G : truthy (prop (prop t "data") f) && is_data_url (prop (prop t "data") f)
              = is_data_url (data_field t f)).
  { unfold data_field. destruct (is_data_url (prop (prop t "data") f)) eqn:D.
    - rewrite (is_data_url_truthy _ D). reflexivity.
    - apply andb_false_r. }
  rewrite <- andb_assoc.
  destruct (truthy (prop t "data")) eqn:Td.
  - simpl andb. rewrite G.
    destruct (is_data_url (data_field t f)) eqn:D; cbn [fst]; [|exact T].
    apply (set_data_field_tree h t lo hi v f f); [exact T|].
    apply is_data_url_truthy. exact D.
  - simpl andb.
    destruct (is_data_url (data_field t f)) eqn:D; cbn [fst]; [|exact T].
    apply is_data_url_truthy in D. unfold data_field in D.
    destruct (truthy_prop_obj _ _ D) as (dm & E & _). rewrite E in Td. discriminate Td.
Qed.

End stages.

Lemma fold_large_fields_tree (fields : list string) :
  forall (h : heap) (t : value) (l : list string) (lo hi : nat) (v : hval),
    tree_at h t lo hi v ->
    tree_at (fold_left (Heap.sanitize_large_field v) fields h)
            (fst (fold_left Audit.sanitize_large_field fields (t, l))) lo hi v.
Proof.
  induction fields as [|f r IH]; intros h t l lo hi v T; cbn [fold_left];
    [exact T|].
  pose proof (sanitize_large_field_tree h t lo hi v T l f) as T1.
  destruct (Audit.sanitize_large_field (t, l) f) as [t1 l1]. cbn [fst] in T1.
  apply IH. exact T1.
Qed.

(** The heap function computes what the tree function computes: the
    object it returns serialises to the sanitized tree of the argument. *)
Lemma sanitizeResponseData_refines (h : heap) (data : hval) (t : value) :
  htruthy data = true ->
  his_object data = true ->
  JSON_stringify h data = Some t ->
  exists r h',
    Heap.sanitizeResponseData h data = Ok (r, h')
    /\ JSON_stringify h' r = Some (Audit.sanitizeResponseData t).
Proof.
  intros Tr O Sd.
  destruct data as [| | | | |l]; try discriminate Tr; try discriminate O.
  destruct (stringify_ref _ _ _ _ Sd) as [Ll Shape].
  assert (J : is_json t = true).
  { destruct (stringify_json _ _ _ _ Sd) as [->|J]; [|exact J].
    destruct Shape as [[? E]|[? E]]; discriminate E. }
  assert (G : Audit.sanitizeResponseData t = fst (sanitize_copy t)).
  { unfold Audit.sanitizeResponseData.
    destruct Shape as [[? ->]|[? ->]]; reflexivity. }
  unfold Heap.sanitizeResponseData. simpl htruthy. simpl his_object.
  simpl negb. simpl orb. cbv iota. rewrite Sd.
  pose proof (JSON_parse_tree t J h) as T0.
  destruct (JSON_parse t h) as [v h0]. cbn [fst snd] in T0.
  eexists. eexists. split; [reflexivity|].
  rewrite G. unfold sanitize_copy. rewrite (json_clone_id t J).
  pose proof (redact_person_photo_tree h0 t _ _ v T0 []) as T1.
  destruct (Audit.redact_person_photo (t, [])) as [t1 l1]. cbn [fst] in T1.
  pose proof (redact_data_photo_tree _ t1 _ _ v T1 l1) as T2.
  destruct (Audit.redact_data_photo (t1, l1)) as [t2 l2]. cbn [fst] in T2.
  pose proof (fold_large_fields_tree largeFields _ t2 l2 _ _ v T2) as T3.
  set (h3 := fold_left (Heap.sanitize_large_field v) largeFields _) in *.
  set (t3 := fst (fold_left Audit.sanitize_large_field largeFields (t2, l2))) in *.
  unfold JSON_stringify.
  (* the root cell bounds the stretch that has to be read *)
  assert (B : exists lo' hi', tree_at h3 t3 lo' hi' v /\ (hi' <= length h3)%nat).
  { destruct t3; simpl in T3; try contradiction;
      try (destruct T3 as [-> _]; exists 0%nat, 0%nat; simpl; split; [auto|lia]).
    - destruct T3 as (l' & hvs & -> & L & H & I).
      exists (length h), (S l'). split.
      + exists l', hvs. repeat split; try assumption; lia.
      + apply lookup_lt_Some in H. lia.
    - destruct T3 as (l' & hms & -> & L & H & I).
      exists (length h), (S l'). split.
      + exists l', hms. repeat split; try assumption; lia.
      + apply lookup_lt_Some in H. lia. }
  destruct B as (lo' & hi' & T4 & L4).
  apply (stringify_tree h3 t3 lo' hi' v _ T4). lia.
Qed.

Lemma stringify_items_ext (c1 c2 : hval -> option value) (xs : list hval) :
  (forall x t, c1 x = Some t -> c2 x = Some t) ->
  forall ts, stringify_items c1 xs = Some ts -> stringify_items c2 xs = Some ts.
Proof.
  intros C. induction xs as [|x r IH]; simpl; intros ts; [auto|].
  destruct (c1 x) as [t|] eqn:X; simpl; [|discriminate].
  rewrite (C x t X). simpl.
  destruct (stringify_items c1 r) as [tr|]; simpl; [|discriminate].
  rewrite (IH tr eq_refl). auto.
Qed.

Lemma stringify_members_ext (c1 c2 : hval -> option value)
      (ms : list (string * hval)) :
  (forall x t, c1 x = Some t -> c2 x = Some t) ->
  forall ts, stringify_members c1 ms = Some ts -> stringify_members c2 ms = Some ts.
Proof.
  intros C. induction ms as [|[k x] r IH]; simpl; intros ts; [auto|].
  destruct (c1 x) as [t|] eqn:X; simpl; [|discriminate].
  rewrite (C x t X). simpl.
  destruct (stringify_members c1 r) as [tr|]; simpl; [|discriminate].
  rewrite (IH tr eq_refl). auto.
Qed.

(** What serialises in a heap serialises to the same tree in a longer
    heap and with more fuel. *)
Lemma stringify_extends (fuel : nat) :
  forall (fuel' : nat) (h h' : heap) (v : hval) (t : value),
    (fuel <= fuel')%nat ->
    (forall i c, h !! i = Some c -> h' !! i = Some c) ->
    stringify fuel h v = Some t -> stringify fuel' h' v = Some t.
Proof.
  induction fuel as [|fuel IH]; intros fuel' h h' v t L P.
  - destruct v; simpl; try discriminate; destruct fuel'; auto.
  - destruct fuel' as [|fuel']; [lia|].
    destruct v as [| | | | |l]; simpl; auto.
    destruct (h !! l) as [c|] eqn:H; [|discriminate].
    rewrite (P l c H).
    destruct c as [ms|xs].
    + destruct (stringify_members (stringify fuel h) ms) as [ts|] eqn:S;
        simpl; [|discriminate].
      rewrite (stringify_members_ext _ (stringify fuel' h') ms
                 (fun x t => IH fuel' h h' x t ltac:(lia) P) ts S).
      auto.
    + destruct (stringify_items (stringify fuel h) xs) as [ts|] eqn:S;
        simpl; [|discriminate].
      rewrite (stringify_items_ext _ (stringify fuel' h') xs
                 (fun x t => IH fuel' h h' x t ltac:(lia) P) ts S).
      auto.
Qed.

(** C10.  For an object that [JSON.stringify] accepts, [sanitizeResponseData]
    returns a reference to a new object, and every cell the heap had before
    the call is the same after it: nothing reachable from the argument, or
    from anywhere else, was assigned to, and the argument serialises to the
    same tree as before.  The added cells refer to added cells only, so the
    copy shares nothing with the argument, and the copy serialises to the
    sanitized tree. *)
Theorem sanitizeResponseData_leaves_argument (h : heap) (data : hval) (t : value) :
  htruthy data = true ->
  his_object data = true ->
  JSON_stringify h data = Some t ->
  exists l r h',
    data = HRef l
    /\ Heap.sanitizeResponseData h data = Ok (HRef r, h')
    /\ (l < length h <= r)%nat
    /\ (forall i c, h !! i = Some c -> h' !! i = Some c)
    /\ take (length h) h' = h
    /\ extends h h'
    /\ JSON_stringify h' data = Some t
    /\ JSON_stringify h' (HRef r) = Some (Audit.sanitizeResponseData t).
Proof.
  intros Tr O Sd.
  destruct (sanitizeResponseData_frame h data t Tr O Sd)
    as (l & r & h' & -> & E & L & P & K & X).
  destruct (sanitizeResponseData_refines h (HRef l) t Tr O Sd)
    as (r0 & h0 & E0 & R0).
  rewrite E in E0. injection E0 as <- <-.
  exists l, r, h'.
  split; [reflexivity|]. split; [exact E|]. split; [exact L|].
  split; [exact P|]. split; [exact K|]. split; [exact X|].
  split; [|exact R0].
  unfold JSON_stringify in *.
  apply (stringify_extends _ _ h h' _ _ (le_n_S _ _ (extends_length _ _ X)) P Sd).
Qed.

Lemma sanitizeResponseData_leaves_argument_witness :
  let h := [HObject [("photo"%string, HStr "data:image/jpeg;base64,AAAA")];
            HObject [("personDetails"%string, HRef 0)];
            HObject [("success"%string, HBool true); ("data"%string, HRef 1)]] in
  let t := Obj [("success"%string, Bool true);
                ("data"%string,
                  Obj [("personDetails"%string,
                         Obj [("photo"%string, Str "data:image/jpeg;base64,AAAA")])])] in
  exists l r h',
    HRef 2 = HRef l
    /\ Heap.sanitizeResponseData h (HRef 2) = Ok (HRef r, h')
    /\ (l < length h <= r)%nat
    /\ (forall i c, h !! i = Some c -> h' !! i = Some c)
    /\ take (length h) h' = h
    /\ extends h h'
    /\ JSON_stringify h' (HRef 2) = Some t
    /\ JSON_stringify h' (HRef r) = Some (Audit.sanitizeResponseData t).
Proof.
  intros h t.
  apply (sanitizeResponseData_leaves_argument h (HRef 2) t).
  - reflexivity.
  - reflexivity.
  - vm_compute. reflexivity.
Defined.

End heap_refinement.

(** ** Overlapping calls of [ensureValidToken] *)

(** One caller that is answered before anyone else runs behaves as the
    sequential [ensureValidToken]. *)
Lemma single_caller_sequential (w : world) :
  let s := run [Enter 0; Answer 0] (mkService w [Entered]) in
  state s = snd (ensureValidToken w)
  /\ callers s = [Returned (fst (ensureValidToken w))].
Proof.
  unfold run, ensureValidToken, authenticate, axios_post. simpl.
  destruct (token_invalid w); simpl; [|split; reflexivity].
  destruct (receive below_500 (issue Login w)) as [r w1].
  destruct (authenticate_resume r w1) as [[b|e] w2]; split; reflexivity.
Qed.

Lemma issue_login_invalid (w : world) :
  token_invalid (issue Login w) = token_invalid w.
Proof. reflexivity. Qed.

Lemma issue_login_exchanges (w : world) :
  exchanges (issue Login w) = S (exchanges w).
Proof.
  unfold exchanges, issue. simpl. rewrite filter_app, length_app. simpl. lia.
Qed.

Lemma enter_all (n : nat) :
  forall (k : nat) (pre : list caller) (w : world),
    token_invalid w = true ->
    length pre = k ->
    run (map Enter (seq k n)) (mkService w (pre ++ replicate n Entered))
    = mkService (Nat.iter n (issue Login) w) (pre ++ replicate n AwaitingLogin).
Proof.
  induction n as [|n IH]; intros k pre w T L; [reflexivity|].
  rewrite Nat.iter_succ_r.
  change (run (map Enter (seq k (S n))) ?s)
    with (run (map Enter (seq (S k) n)) (step s (Enter k))).
  assert (H : (pre ++ replicate (S n) Entered) !! k = Some Entered).
  { rewrite lookup_app_r by lia. rewrite L, Nat.sub_diag. reflexivity. }
  unfold step. cbn [callers state]. rewrite H, T.
  assert (U : <[k := AwaitingLogin]> (pre ++ replicate (S n) Entered)
              = (pre ++ [AwaitingLogin]) ++ replicate n Entered).
  { rewrite insert_app_r_alt by lia. rewrite L, Nat.sub_diag.
    rewrite <- app_assoc. reflexivity. }
  rewrite U.
  rewrite (IH (S k) (pre ++ [AwaitingLogin]) (issue Login w)).
  - rewrite <- app_assoc. reflexivity.
  - rewrite issue_login_invalid. exact T.
  - rewrite length_app. simpl. lia.
Qed.

Lemma iter_issue_exchanges (n : nat) (w : world) :
  exchanges (Nat.iter n (issue Login) w) = (exchanges w + n)%nat
  /\ token_invalid (Nat.iter n (issue Login) w) = token_invalid w.
Proof.
  induction n as [|n [IH1 IH2]]; simpl.
  - split; [lia | reflexivity].
  - rewrite issue_login_exchanges, issue_login_invalid. split; [lia | exact IH2].
Qed.

(** C6, as the code has it.  There is no coordination between callers:
    when [n] callers enter [ensureValidToken] while no valid credential is
    cached and before any login has been answered, each of them starts an
    authentication exchange of its own, so [n] exchanges are started and all
    [n] callers wait, each for its own answer: an answer resumes the caller
    it is for and no other.  Only a caller that enters once a valid
    credential is cached starts no exchange. *)
Theorem concurrent_callers_each_authenticate (n : nat) (w : world) :
  token_invalid w = true ->
  let s := run (map Enter (seq 0 n)) (mkService w (replicate n Entered)) in
  exchanges (state s) = (exchanges w + n)%nat
  /\ callers s = replicate n AwaitingLogin
  /\ (forall (s' : service) (i j : nat),
        j <> i ->
        callers (step s' (Answer i)) !! j = callers s' !! j)
  /\ (forall (s' : service) (i : nat),
        token_invalid (state s') = false ->
        callers s' !! i = Some Entered ->
        exchanges (state (step s' (Enter i))) = exchanges (state s')
        /\ callers (step s' (Enter i)) !! i = Some (Returned (Ok tt))).
Proof.
  intros T s. subst s.
  pose proof (enter_all n 0 [] w T eq_refl) as E. cbn [app] in E.
  rewrite E. cbn [state callers].
  split; [apply iter_issue_exchanges|]. split; [reflexivity|].
  split.
  - intros s' i j N. unfold step.
    destruct (callers s' !! i) as [[| |r]|]; try reflexivity.
    destruct (receive below_500 (state s')) as [r w1].
    destruct (authenticate_resume r w1) as [[b|e] w2]; cbn [callers];
      apply list_lookup_insert_ne; congruence.
  - intros s' i V H. unfold step. rewrite H, V. cbn [state callers].
    split; [reflexivity|].
    apply list_lookup_insert_eq. eapply lookup_lt_Some. exact H.
Qed.

Lemma concurrent_callers_each_authenticate_witness :
  let w := Fixtures.fresh_world
             [Fixtures.soon Fixtures.login_ok; Fixtures.soon Fixtures.login_ok;
              Fixtures.soon Fixtures.login_ok] [] in
  exchanges (state (run (map Enter (seq 0 3)) (mkService w (replicate 3 Entered))))
  = (exchanges w + 3)%nat.
Proof.
  intros w.
  exact (proj1 (concurrent_callers_each_authenticate 3 w eq_refl)).
Defined.

(** C6 as stated fails: two callers that enter while no credential is
    cached, the second before the first one's login is answered, make two
    authentication exchanges, and each returns on its own answer. *)
Lemma two_callers_two_exchanges :
  let w := Fixtures.fresh_world
             [Fixtures.soon Fixtures.login_ok; Fixtures.soon Fixtures.login_ok] [] in
  let s := run [Enter 0; Enter 1; Answer 0; Answer 1]
               (mkService w [Entered; Entered]) in
  token_invalid w = true
  /\ exchanges (state s) = 2%nat
  /\ callers s = [Returned (Ok tt); Returned (Ok tt)]
  /\ registry (state s) = [].
Proof. repeat split; vm_compute; reflexivity. Qed.

(** * Further properties of the code

    What follows covers the parts of the service around the properties
    above: the login exchange, the requests and the time of one
    verification, the answers of the [/verify] handler, photo inlining, the
    identifier rule, the address whitelist, transactions, and the audit
    row. *)

Import Routes.
Import Flow.

(** ** Substrings *)



Lemma prefix_char_mismatch (c h : ascii) (t s : string) :
  Ascii.eqb h c = false -> String.prefix (String c t) (String h s) = false.
Proof.
  intros N. simpl. destruct (ascii_dec c h) as [->|]; [|reflexivity].
  rewrite Ascii.eqb_refl in N. discriminate N.
Qed.


Lemma includes_no_char (c : ascii) (t s : string) :
  has_char c s = false -> includes s (String c t) = false.
Proof.
  induction s as [|h s IH]; [reflexivity|].
  simpl has_char. intros H. apply orb_false_elim in H as [Hh Hs].
  change (includes (String h s) (String c t))
    with (String.prefix (String c t) (String h s) || includes s (String c t)).
  rewrite (prefix_char_mismatch c h t s Hh), (IH Hs). reflexivity.
Qed.

Lemma has_char_app (c : ascii) (a b : string) :
  has_char c (a +:+ b) = has_char c a || has_char c b.
Proof.
  induction a as [|h a IH]; [reflexivity|].
  simpl. rewrite IH. apply orb_assoc.
Qed.

(** A number prints as digits and at most a sign. *)
Lemma has_char_uint (c : ascii) (d : Decimal.uint) :
  (48 <=? nat_of_ascii c)%nat && (nat_of_ascii c <=? 57)%nat = false ->
  has_char c (NilEmpty.string_of_uint d) = false.
Proof.
  intros N.
  assert (D : forall a : ascii,
             (48 <=? nat_of_ascii a)%nat && (nat_of_ascii a <=? 57)%nat = true ->
             Ascii.eqb a c = false).
  { intros a Ha. apply Ascii.eqb_neq. intros ->. congruence. }
  induction d; cbn [NilEmpty.string_of_uint has_char]; try reflexivity;
    rewrite IHd, D; reflexivity.
Qed.

Lemma has_char_number (c : ascii) (n : Z) :
  (48 <=? nat_of_ascii c)%nat && (nat_of_ascii c <=? 57)%nat = false ->
  Ascii.eqb "-" c = false ->
  has_char c (display (Num n)) = false.
Proof.
  intros N M. simpl. unfold NilZero.string_of_int, NilZero.string_of_uint.
  destruct (Z.to_int n) as [d|d].
  - destruct d; try apply (has_char_uint c _ N);
      apply (has_char_uint c (Decimal.D0 Decimal.Nil) N).
  - cbn [has_char]. rewrite M. cbn [orb].
    destruct d; try apply (has_char_uint c _ N);
      apply (has_char_uint c (Decimal.D0 Decimal.Nil) N).
Qed.

(** ** The credential exchange *)

Lemma waited_bounds (dt : Z) : 0 <= waited dt <= TIMEOUT_MS.
Proof. unfold waited, TIMEOUT_MS. lia. Qed.

(** What [receive] does to the service besides settling the promise. *)
Lemma receive_world (validateStatus : Z -> bool) (w w' : world)
      (r : result (Z * value)) :
  receive validateStatus w = (r, w') ->
  accessToken w' = accessToken w
  /\ tokenExpiry w' = tokenExpiry w
  /\ calls w' = calls w
  /\ images w' = images w
  /\ now w <= now w' <= now w + TIMEOUT_MS.
Proof.
  unfold receive. destruct (registry w) as [|a rest].
  - intros H. injection H as _ <-. unfold TIMEOUT_MS. repeat split; lia.
  - pose proof (waited_bounds (after a)) as B.
    assert (G : forall x, (x, registry_answered (after a) w) = (r, w') ->
                accessToken w' = accessToken w
                /\ tokenExpiry w' = tokenExpiry w
                /\ calls w' = calls w
                /\ images w' = images w
                /\ now w <= now w' <= now w + TIMEOUT_MS).
    { intros x H. injection H as _ <-. simpl. repeat split; lia. }
    destruct (TIMEOUT_MS <? after a); [apply G|].
    destruct (what a) as [st d|msg]; [|apply G].
    destruct (validateStatus st); apply G.
Qed.



(** X2.  When the login is answered in time with a status below 500 and a
    body [{status: "OK", success: {data: {access_token}}}] whose token is
    truthy, [authenticate] caches exactly that token, with an expiry one hour
    after the moment the answer arrived, and has sent one login request. *)
Theorem authenticate_success (w : world) (a : arrival http_reply)
        (rest : list (arrival http_reply)) (status : Z) (d tok : value) :
  registry w = a :: rest ->
  after a <= TIMEOUT_MS ->
  what a = Reply status d ->
  status < 500 ->
  prop d "status" = Str "OK" ->
  opt_chain (opt_chain (prop d "success") "data") "access_token" = tok ->
  truthy tok = true ->
  exists w',
    authenticate w = (Ok true, w')
    /\ accessToken w' = tok
    /\ tokenExpiry w' = Some (now w + Z.max (after a) 0 + 3600000)
    /\ now w' = now w + Z.max (after a) 0
    /\ calls w' = calls w ++ [Login]
    /\ registry w' = rest
    /\ token_invalid w' = false.
Proof.
  intros Hr Ht Hw Hs Hst Htok Tt.
  unfold authenticate, axios_post.
  rewrite (receive_reply below_500 (issue Login w) a rest status d Hr Ht Hw)
    by (unfold below_500; lia).
  unfold authenticate_resume, login_token.
  assert (G : get d "status" = Ok (Str "OK")).
  { destruct d; simpl in Hst; try discriminate Hst. simpl. rewrite <- Hst. reflexivity. }
  rewrite G, Htok. simpl is_str. rewrite Tt. simpl andb. cbv iota.
  eexists. split; [reflexivity|].
  assert (W : waited (after a) = Z.max (after a) 0).
  { unfold waited. unfold TIMEOUT_MS in *. lia. }
  simpl. rewrite Hr, W. unfold TOKEN_LIFETIME_MS.
  repeat split; try reflexivity.
  unfold token_invalid. simpl. rewrite Tt, W. simpl.
  destruct (_ >=? _) eqn:C; [lia | reflexivity].
Qed.

Lemma authenticate_success_witness :
  let w := Fixtures.fresh_world [Fixtures.soon Fixtures.login_ok] [] in
  exists w',
    authenticate w = (Ok true, w')
    /\ accessToken w' = Str "tok-1"
    /\ tokenExpiry w' = Some (now w + Z.max 120 0 + 3600000)
    /\ now w' = now w + Z.max 120 0
    /\ calls w' = calls w ++ [Login]
    /\ registry w' = []
    /\ token_invalid w' = false.
Proof.
  intros w.
  apply (authenticate_success w (Fixtures.soon Fixtures.login_ok) [] 200
           (Obj [("status"%string, Str "OK");
                 ("success"%string,
                   Obj [("data"%string, Obj [("access_token"%string, Str "tok-1")])])])
           (Str "tok-1")).
  - reflexivity.
  - vm_compute. discriminate.
  - reflexivity.
  - lia.
  - reflexivity.
  - reflexivity.
  - reflexivity.
Defined.

Lemma login_token_truthy (r : result (Z * value)) (tok : value) :
  login_token r = Ok tok -> truthy tok = true.
Proof.
  unfold login_token. destruct r as [[st d]|e]; [|discriminate].
  destruct (get d "status") as [s|e]; [|discriminate].
  destruct (is_str s "OK"); simpl; [|discriminate].
  destruct (truthy _) eqn:T; [|discriminate].
  intros H. injection H as <-. exact T.
Qed.

(** What one run of [authenticate] does to the service. *)
Lemma authenticate_effect (w w' : world) (r : result bool) :
  authenticate w = (r, w') ->
  calls w' = calls w ++ [Login]
  /\ images w' = images w
  /\ now w <= now w' <= now w + TIMEOUT_MS
  /\ (forall b, r = Ok b -> token_invalid w' = false).
Proof.
  unfold authenticate, axios_post, authenticate_resume.
  destruct (receive below_500 (issue Login w)) as [r0 w1] eqn:R.
  destruct (receive_world _ _ _ _ R) as (A & X & C & I & N).
  simpl in C, I, N.
  destruct (login_token r0) as [tok|e0] eqn:L; intros H; injection H as <- <-.
  - simpl. repeat split; try assumption; try lia.
    intros b _. unfold token_invalid. simpl.
    rewrite (login_token_truthy _ _ L). simpl. unfold TOKEN_LIFETIME_MS.
    destruct (_ >=? _) eqn:G; [lia | reflexivity].
  - repeat split; try assumption; try lia. intros b H. discriminate H.
Qed.

Lemma token_valid_truthy (w : world) :
  token_invalid w = false -> truthy (accessToken w) = true.
Proof.
  unfold token_invalid. destruct (truthy (accessToken w)); [reflexivity|].
  simpl. discriminate.
Qed.

(** X3.  Whenever [ensureValidToken] returns, the service holds a usable
    credential: a truthy token that is not expired.  It got there without
    a request when the cached one was still good, and with exactly one login
    request otherwise (no token cached, or the expiry reached). *)
Theorem ensureValidToken_postcondition (w w' : world) :
  ensureValidToken w = (Ok tt, w') ->
  token_invalid w' = false
  /\ truthy (accessToken w') = true
  /\ (token_invalid w = false -> w' = w)
  /\ (token_invalid w = true -> calls w' = calls w ++ [Login]).
Proof.
  unfold ensureValidToken. destruct (token_invalid w) eqn:T.
  - destruct (authenticate w) as [[b|e] w1] eqn:A; [|discriminate].
    intros H. injection H as <-.
    destruct (authenticate_effect _ _ _ A) as (C & _ & _ & V).
    specialize (V b eq_refl).
    split; [exact V|]. split; [apply token_valid_truthy; exact V|].
    split; [discriminate | intros _; exact C].
  - intros H. injection H as <-.
    split; [exact T|]. split; [apply token_valid_truthy; exact T|].
    split; [reflexivity | discriminate].
Qed.

(** A token whose expiry has been reached is renewed. *)
Lemma ensureValidToken_postcondition_witness :
  let w := {| accessToken := Str "tok-0"; tokenExpiry := Some 1700000000000;
              now := 1700000000000;
              registry := [Fixtures.soon Fixtures.login_ok]; images := [];
              calls := [] |} in
  let w' := snd (ensureValidToken w) in
  token_invalid w' = false
  /\ truthy (accessToken w') = true
  /\ (token_invalid w = false -> w' = w)
  /\ (token_invalid w = true -> calls w' = calls w ++ [Login]).
Proof.
  intros w w'.
  apply (ensureValidToken_postcondition w w').
  vm_compute. reflexivity.
Defined.

Lemma ensureValidToken_token (w w' : world) :
  ensureValidToken w = (Ok tt, w') -> truthy (accessToken w') = true.
Proof.
  unfold ensureValidToken. destruct (token_invalid w) eqn:T.
  - destruct (authenticate w) as [[b|e] w1] eqn:A; [|discriminate].
    intros H. injection H as <-.
    destruct (authenticate_effect _ _ _ A) as (_ & _ & _ & V).
    apply token_valid_truthy. exact (V b eq_refl).
  - intros H. injection H as <-. apply token_valid_truthy. exact T.
Qed.

Lemma ensureValidToken_effect (w w' : world) (r : result unit) :
  ensureValidToken w = (r, w') ->
  (calls w' = calls w \/ calls w' = calls w ++ [Login])
  /\ images w' = images w
  /\ now w <= now w' <= now w + TIMEOUT_MS.
Proof.
  unfold ensureValidToken. destruct (token_invalid w).
  - destruct (authenticate w) as [[b|e] w1] eqn:A;
      destruct (authenticate_effect _ _ _ A) as (C & I & N & _);
      intros H; injection H as _ <-; auto.
  - intros H. injection H as _ <-. unfold TIMEOUT_MS.
    split; [auto|]. split; [reflexivity | lia].
Qed.

Section flow_effects.
Variable URL_parse : string -> option (string * string).

Lemma axios_get_image_effect (url : string) (w w' : world)
      (r : result (option string * string)) :
  axios_get_image url w = (r, w') ->
  calls w' = calls w ++ [FetchImage url]
  /\ accessToken w' = accessToken w
  /\ tokenExpiry w' = tokenExpiry w
  /\ now w <= now w' <= now w + TIMEOUT_MS.
Proof.
  unfold axios_get_image. simpl.
  destruct (images w) as [|a rest].
  - intros H. injection H as _ <-. simpl. unfold TIMEOUT_MS. repeat split; lia.
  - pose proof (waited_bounds (after a)) as B.
    assert (G : forall x,
               (x, image_answered (after a) (issue (FetchImage url) w)) = (r, w') ->
               calls w' = calls w ++ [FetchImage url]
               /\ accessToken w' = accessToken w
               /\ tokenExpiry w' = tokenExpiry w
               /\ now w <= now w' <= now w + TIMEOUT_MS).
    { intros x H. injection H as _ <-. simpl. repeat split; lia. }
    destruct (TIMEOUT_MS <? after a); [apply G|].
    destruct (what a) as [st ct b|msg]; [|apply G].
    destruct (is_2xx st); apply G.
Qed.

(** [processPhoto] sends nothing or one image request, to the photo
    reference itself, and does not touch the credential. *)
Lemma processPhoto_effect (personData : value) (w : world) :
  let w' := snd (processPhoto URL_parse personData w) in
  (calls w' = calls w
   \/ calls w' = calls w ++ [FetchImage (display (prop personData "photo"))])
  /\ accessToken w' = accessToken w
  /\ tokenExpiry w' = tokenExpiry w
  /\ now w <= now w' <= now w + TIMEOUT_MS.
Proof.
  assert (Z0 : (calls w = calls w
                \/ calls w = calls w ++ [FetchImage (display (prop personData "photo"))])
               /\ accessToken w = accessToken w
               /\ tokenExpiry w = tokenExpiry w
               /\ now w <= now w <= now w + TIMEOUT_MS).
  { unfold TIMEOUT_MS. repeat split; auto; lia. }
  unfold processPhoto.
  destruct (get personData "photo") as [photo|e] eqn:G; [|exact Z0].
  assert (E : photo = prop personData "photo").
  { destruct personData; simpl in G; try discriminate;
      injection G as <-; reflexivity. }
  subst photo.
  destruct (negb _ || negb _); [exact Z0|].
  unfold fetchImageAsBase64.
  destruct (axios_get_image _ w) as [[[ct b]|e] w1] eqn:A;
    destruct (axios_get_image_effect _ _ _ _ A) as (C & T & X & N);
    cbn [snd]; auto.
Qed.

Lemma with_photo_effect (result : value) (w : world) :
  let w' := snd (with_photo URL_parse result w) in
  (calls w' = calls w \/ exists url, calls w' = calls w ++ [FetchImage url])
  /\ accessToken w' = accessToken w
  /\ tokenExpiry w' = tokenExpiry w
  /\ now w <= now w' <= now w + TIMEOUT_MS.
Proof.
  unfold with_photo.
  destruct (truthy _).
  - pose proof (processPhoto_effect (prop result "data") w) as P.
    destruct (processPhoto URL_parse (prop result "data") w) as [pd w1].
    cbn [snd] in *. destruct P as ([C|C] & R); split; eauto.
  - cbn [snd]. unfold TIMEOUT_MS. repeat split; auto; lia.
Qed.

(** What the [try] block of [verifyNID] sends and how long it takes. *)
Lemma verify_try_effect (nid dateOfBirth nameEn : string) (w w' : world)
      (r : result value) :
  verify_try URL_parse nid dateOfBirth nameEn w = (r, w') ->
  (exists l, calls w' = calls w ++ l /\ flow_calls nid dateOfBirth nameEn l)
  /\ now w <= now w' <= now w + 3 * TIMEOUT_MS.
Proof.
  unfold verify_try.
  destruct (ensureValidToken w) as [[[]|e] w1] eqn:E;
    destruct (ensureValidToken_effect _ _ _ E) as (C1 & _ & N1).
  2:{ intros H. injection H as _ <-. split; [|unfold TIMEOUT_MS in *; lia].
      destruct C1 as [C1|C1]; rewrite C1.
      - exists []. rewrite app_nil_r. split; [reflexivity|].
        exists [], [], []. repeat split; auto.
      - exists [Login]. split; [reflexivity|].
        exists [Login], [], []. repeat split; auto. }
  pose proof (ensureValidToken_token _ _ E) as Tk.
  unfold axios_post.
  set (c := Verification (accessToken w1) (requestPayload nid dateOfBirth nameEn)).
  destruct (receive below_500 (issue c w1)) as [r2 w2] eqn:R.
  destruct (receive_world _ _ _ _ R) as (_ & _ & C2 & _ & N2).
  simpl in C2, N2.
  (* the requests up to the answer *)
  assert (S2 : exists pre, calls w2 = calls w ++ pre ++ [c]
                           /\ (pre = [] \/ pre = [Login])).
  { destruct C1 as [C1|C1]; rewrite C2, C1.
    - exists []. split; [reflexivity | auto].
    - exists [Login]. rewrite <- app_assoc. split; [reflexivity | auto]. }
  destruct S2 as (pre & S2 & Hpre).
  assert (Stop : forall x, (x, w2) = (r, w') ->
            (exists l, calls w' = calls w ++ l /\ flow_calls nid dateOfBirth nameEn l)
            /\ now w <= now w' <= now w + 3 * TIMEOUT_MS).
  { intros x H. injection H as _ <-. split; [|unfold TIMEOUT_MS in *; lia].
    exists (pre ++ [c]). split; [exact S2|].
    exists pre, [c], []. rewrite app_nil_r.
    split; [reflexivity|]. split; [exact Hpre|].
    split; [right; exists (accessToken w1); split; [reflexivity | exact Tk]|auto]. }
  assert (Photo : forall res,
            (let '(result, w3) := with_photo URL_parse res w2 in (Ok result, w3))
            = (r, w') ->
            (exists l, calls w' = calls w ++ l /\ flow_calls nid dateOfBirth nameEn l)
            /\ now w <= now w' <= now w + 3 * TIMEOUT_MS).
  { intros res.
    pose proof (with_photo_effect res w2) as P.
    destruct (with_photo URL_parse res w2) as [res' w3]. cbn [snd] in P.
    destruct P as (C3 & _ & _ & N3).
    intros H. injection H as _ <-. split; [|unfold TIMEOUT_MS in *; lia].
    destruct C3 as [C3|[url C3]]; rewrite C3, S2.
    - exists (pre ++ [c]). split; [reflexivity|].
      exists pre, [c], []. rewrite app_nil_r.
      split; [reflexivity|]. split; [exact Hpre|].
      split; [right; exists (accessToken w1); split; [reflexivity | exact Tk]|auto].
    - exists (pre ++ [c] ++ [FetchImage url]).
      split; [rewrite <- !app_assoc; reflexivity|].
      exists pre, [c], [FetchImage url].
      split; [reflexivity|]. split; [exact Hpre|].
      split; [right; exists (accessToken w1); split; [reflexivity | exact Tk]|eauto]. }
  destruct r2 as [[st d]|e2]; [|apply Stop].
  destruct (st =? 406).
  - destruct (get d "fieldVerificationResult"); [apply Photo | apply Stop].
  - destruct (get d "status") as [s|e3]; [|apply Stop].
    destruct (is_str s "OK"); [apply Photo | apply Stop].
Qed.

(** [verifyNID] returns, whatever the bound on its recursion: what it
    returns is what its [try] block gave, an error under a new message. *)
Lemma verifyNID_returns (fuel : nat) (nid dateOfBirth nameEn : string) (w : world) :
  exists r r0 w',
    verifyNID URL_parse fuel nid dateOfBirth nameEn w = Some (r, w')
    /\ verify_try URL_parse nid dateOfBirth nameEn w = (r0, w').
Proof.
  destruct (verifyNID_fuel URL_parse fuel nid dateOfBirth nameEn w) as [-> _].
  simpl verifyNID.
  destruct (verify_try URL_parse nid dateOfBirth nameEn w) as [[res|e] w1] eqn:T.
  - eauto.
  - destruct (response e) as [[st d]|] eqn:R; [|eauto].
    pose proof (verify_try_error_status URL_parse _ _ _ _ _ _ _ _ T R) as S5.
    destruct (st =? 401) eqn:E1; [lia|].
    destruct (st =? 406) eqn:E2; [lia|]. eauto.
Qed.

(** X4.  Every call of [verifyNID] returns, and it has then added to the
    requests sent at most one login, then at most one verification, then
    at most one image fetch, in this order.  The verification carries a
    truthy bearer token and the payload built from the arguments, and is
    never repeated. *)
Theorem verifyNID_requests (fuel : nat) (nid dateOfBirth nameEn : string) (w : world) :
  exists r w' l,
    verifyNID URL_parse fuel nid dateOfBirth nameEn w = Some (r, w')
    /\ calls w' = calls w ++ l
    /\ flow_calls nid dateOfBirth nameEn l.
Proof.
  destruct (verifyNID_returns fuel nid dateOfBirth nameEn w) as (r & r0 & w' & V & T).
  destruct (verify_try_effect _ _ _ _ _ _ T) as [(l & C & F) _].
  exists r, w', l. auto.
Qed.


End flow_effects.

(** ** How failures reach the client *)




Lemma route_failure_status (status : Z) :
  route_failure (Error ("NID verification failed: "
                        +:+ "Request failed with status code "
                        +:+ display (Num status)))
  = (500, "INTERNAL_ERROR"%string).
Proof.
  unfold route_failure. cbn [message Error].
  rewrite (includes_no_char "A" "uthentication failed"),
          (includes_no_char "V" "erification failed"); [reflexivity| |].
  - rewrite !has_char_app, has_char_number; reflexivity.
  - rewrite !has_char_app, has_char_number; reflexivity.
Qed.

Section failures.
Variable URL_parse : string -> option (string * string).
Variable toISOString : Z -> string.



(** X8.  When the registry answers the verification request with a status
    of 500 or more, or does not answer within the timeout, the handler
    answers 500 [INTERNAL_ERROR] (not 503), after that one request: the
    cached credential is kept and nothing is retried. *)
Theorem registry_outage_is_500 (fuel : nat) (req : verify_request)
        (w w1 : world) (a : arrival http_reply) (rest : list (arrival http_reply)) :
  ensureValidToken w = (Ok tt, w1) ->
  registry w1 = a :: rest ->
  (TIMEOUT_MS < after a
   \/ exists status d, what a = Reply status d /\ 500 <= status) ->
  exists body w',
    verify_handler URL_parse toISOString fuel [] req w = Some ((500, body), w')
    /\ prop body "code" = Str "INTERNAL_ERROR"
    /\ accessToken w' = accessToken w1
    /\ registry w' = rest
    /\ length (calls w') = S (length (calls w1)).
Proof.
  intros E Hr Hcase.
  unfold verify_handler.
  destruct (verifyNID_fuel URL_parse fuel (strip_spaces (req_nid req))
                           (req_dateOfBirth req) (req_nameEn req) w) as [-> _].
  simpl verifyNID. unfold verify_try. rewrite E.
  unfold axios_post, receive. cbn [registry issue]. rewrite Hr.
  set (w2 := registry_answered _ _).
  assert (W2 : accessToken w2 = accessToken w1 /\ registry w2 = rest
               /\ length (calls w2) = S (length (calls w1))).
  { subst w2. simpl. rewrite Hr, length_app. simpl. repeat split; lia. }
  destruct (TIMEOUT_MS <? after a) eqn:Tm.
  - cbn [response timeout_error Error message].
    eexists. eexists. split; [reflexivity|]. split; [reflexivity | exact W2].
  - destruct Hcase as [Hl|(status & d & Hw & H5)]; [lia|].
    rewrite Hw. unfold below_500.
    destruct (status <? 500) eqn:S5; [lia|].
    cbn [response status_error message].
    destruct (status =? 401) eqn:E1; [lia|].
    destruct (status =? 406) eqn:E6; [lia|].
    pose proof (route_failure_status status) as F.
    eexists. eexists. split; [rewrite F; reflexivity|].
    unfold failure_response. rewrite F. split; [reflexivity | exact W2].
Qed.

(** X9.  A 406 of the registry is answered to the client with HTTP 200 and
    [success: true]: the body carries the advisory message, [verified] as
    the registry's body gives it ([false] when absent), and both
    verification flags. *)
Theorem mismatch_is_200 (fuel : nat) (req : verify_request)
        (w w1 : world) (a : arrival http_reply) (rest : list (arrival http_reply))
        (d : value) :
  ensureValidToken w = (Ok tt, w1) ->
  registry w1 = a :: rest ->
  after a <= TIMEOUT_MS ->
  what a = Reply 406 d ->
  d <> Null -> d <> Undefined ->
  exists body w',
    verify_handler URL_parse toISOString fuel [] req w = Some ((200, body), w')
    /\ prop body "success" = Bool true
    /\ prop body "message" = Str MISMATCH_MESSAGE
    /\ prop (prop body "data") "verified" = or_else (prop d "verified") (Bool false)
    /\ prop (prop body "data") "nid" = Str (strip_spaces (req_nid req))
    /\ exists n b, prop (prop body "data") "verificationDetails"
                   = Obj [("nameEn"%string, n); ("dateOfBirth"%string, b)].
Proof.
  intros E Hr Ht Hw Hn Hu.
  unfold verify_handler.
  destruct (verifyNID_fuel URL_parse fuel (strip_spaces (req_nid req))
                           (req_dateOfBirth req) (req_nameEn req) w) as [-> _].
  simpl verifyNID.
  rewrite (verify_try_reply URL_parse _ _ _ w w1 a rest 406 d E Hr Ht Hw) by lia.
  cbn zeta. change (406 =? 406) with true. cbv iota.
  assert (G : get d "fieldVerificationResult" = Ok (prop d "fieldVerificationResult")).
  { destruct d; try reflexivity; contradiction. }
  rewrite G. set (w2 := answered _ _ _ _ _). unfold mismatch_result.
  match goal with
  | |- context [with_photo URL_parse (Obj ?ms) w2] =>
      pose proof (with_photo_frame URL_parse ms w2) as [F1 _];
      destruct (with_photo URL_parse (Obj ms) w2) as [r w3]
  end.
  cbn [fst] in F1.
  assert (M : prop r "message" = Str MISMATCH_MESSAGE)
    by (rewrite F1 by discriminate; reflexivity).
  assert (V : prop r "verified" = or_else (prop d "verified") (Bool false))
    by (rewrite F1 by discriminate; reflexivity).
  eexists. eexists. split; [reflexivity|].
  unfold success_response. rewrite M. simpl truthy. cbv iota.
  rewrite prop_set_prop. simpl String.eqb. cbv iota.
  split; [reflexivity|]. rewrite prop_set_prop. simpl String.eqb. cbv iota.
  split; [reflexivity|]. rewrite prop_set_prop. simpl String.eqb. cbv iota.
  split; [exact V|]. split; [reflexivity|].
  unfold verificationDetails. eauto.
Qed.

End failures.



Lemma registry_outage_is_500_witness :
  let w := Fixtures.logged_in_world [Fixtures.soon (Reply 503 Null)] [] in
  exists body w',
    verify_handler Fixtures.URL_parse Examples.toISOString 1 [] Examples.verify_request w
    = Some ((500, body), w')
    /\ prop body "code" = Str "INTERNAL_ERROR"
    /\ accessToken w' = accessToken w
    /\ registry w' = []
    /\ length (calls w') = S (length (calls w)).
Proof.
  intros w.
  apply (registry_outage_is_500 Fixtures.URL_parse Examples.toISOString 1
           Examples.verify_request w w (Fixtures.soon (Reply 503 Null)) []).
  - reflexivity.
  - reflexivity.
  - right. exists 503, Null. split; [reflexivity | lia].
Defined.

Lemma mismatch_is_200_witness :
  let d := Obj [("data"%string, Fixtures.person)] in
  let w := Fixtures.logged_in_world [Fixtures.soon (Reply 406 d)] [] in
  exists body w',
    verify_handler Fixtures.URL_parse Examples.toISOString 1 [] Examples.verify_request w
    = Some ((200, body), w')
    /\ prop body "success" = Bool true
    /\ prop body "message" = Str MISMATCH_MESSAGE
    /\ prop (prop body "data") "verified" = or_else (prop d "verified") (Bool false)
    /\ prop (prop body "data") "nid" = Str (strip_spaces (req_nid Examples.verify_request))
    /\ exists n b, prop (prop body "data") "verificationDetails"
                   = Obj [("nameEn"%string, n); ("dateOfBirth"%string, b)].
Proof.
  intros d w.
  apply (mismatch_is_200 Fixtures.URL_parse Examples.toISOString 1
           Examples.verify_request w w (Fixtures.soon (Reply 406 d)) [] d).
  - reflexivity.
  - reflexivity.
  - vm_compute. discriminate.
  - reflexivity.
  - discriminate.
  - discriminate.
Defined.

(** ** Photo inlining, request by request *)

Section photo_requests.
Variable URL_parse : string -> option (string * string).




(** X11.  When the image server answers the photo request in time with a 2xx
    status, the [photo] member becomes
    [data:<content-type>;base64,<image>], where the content type is the
    answer's header and [image/jpeg] when the header is absent or empty;
    every other member of the person data stays as it was. *)
Theorem processPhoto_inlines (ms : list (string * value)) (w : world)
        (a : arrival image_reply) (rest : list (arrival image_reply))
        (status : Z) (content_type : option string) (base64 : string) :
  truthy (prop (Obj ms) "photo") = true ->
  isValidImageUrl URL_parse (prop (Obj ms) "photo") = true ->
  images w = a :: rest ->
  after a <= TIMEOUT_MS ->
  what a = ImageReply status content_type base64 ->
  is_2xx status = true ->
  let contentType :=
    match content_type with
    | Some "" | None => "image/jpeg"
    | Some ct => ct
    end%string in
  let '(personData, w') := processPhoto URL_parse (Obj ms) w in
  prop personData "photo" = Str ("data:" +:+ contentType +:+ ";base64," +:+ base64)
  /\ (forall k, k <> "photo"%string -> prop personData k = prop (Obj ms) k)
  /\ images w' = rest
  /\ calls w' = calls w ++ [FetchImage (display (prop (Obj ms) "photo"))].
Proof.
  intros T V I Ta W S2. unfold processPhoto.
  change (get (Obj ms) "photo") with (Ok (prop (Obj ms) "photo")).
  cbv iota. rewrite T, V. simpl negb. cbv iota.
  unfold fetchImageAsBase64, axios_get_image.
  cbn [images issue]. rewrite I.
  destruct (TIMEOUT_MS <? after a) eqn:C; [lia|].
  rewrite W, S2.
  split; [|split; [|split]].
  - rewrite prop_set_prop. simpl String.eqb. cbv iota.
    destruct content_type as [[|c s]|]; reflexivity.
  - intros k N. apply prop_set_prop_other. exact N.
  - simpl. rewrite I. reflexivity.
  - reflexivity.
Qed.

End photo_requests.


Lemma processPhoto_inlines_witness :
  let ms := [("name"%string, Str "Jane Doe"); ("photo"%string, Str Examples.photo_url)] in
  let w := Fixtures.logged_in_world []
             [Fixtures.soon (ImageReply 200 None "aGVsbG8=")] in
  let '(personData, w') := processPhoto Fixtures.URL_parse (Obj ms) w in
  prop personData "photo" = Str ("data:" +:+ "image/jpeg" +:+ ";base64," +:+ "aGVsbG8=")
  /\ (forall k, k <> "photo"%string -> prop personData k = prop (Obj ms) k)
  /\ images w' = []
  /\ calls w' = calls w ++ [FetchImage (display (prop (Obj ms) "photo"))].
Proof.
  intros ms w.
  apply (processPhoto_inlines Fixtures.URL_parse ms w
           (Fixtures.soon (ImageReply 200 None "aGVsbG8=")) [] 200 None "aGVsbG8=").
  - reflexivity.
  - vm_compute. reflexivity.
  - reflexivity.
  - vm_compute. discriminate.
  - reflexivity.
  - reflexivity.
Defined.

(** ** The identifier rule *)

Lemma digit_not_space (c : ascii) : is_digit c = true -> is_space c = false.
Proof.
  unfold is_digit, is_space. intros H.
  apply andb_prop in H as [H1 H2].
  apply Nat.leb_le in H1. apply Nat.leb_le in H2.
  apply orb_false_intro.
  - apply Nat.eqb_neq. lia.
  - apply andb_false_intro2. apply Nat.leb_gt. lia.
Qed.

Lemma strip_spaces_digits (s : string) : all_digits s = true -> strip_spaces s = s.
Proof.
  induction s as [|c s IH]; [reflexivity|].
  simpl. intros H. apply andb_prop in H as [Hc Hs].
  rewrite (digit_not_space c Hc), (IH Hs). reflexivity.
Qed.

Lemma strip_spaces_no_space (s : string) :
  forallb (fun c => negb (is_space c)) (list_ascii_of_string (strip_spaces s)) = true.
Proof.
  induction s as [|c s IH]; [reflexivity|].
  simpl. destruct (is_space c) eqn:E; [exact IH|].
  simpl. rewrite E. exact IH.
Qed.

(** X12.  What [validateNID] accepts.  The identifier it hands back is the
    input without its whitespace, consists of digits only, has 10 or 17 of
    them, and is a fixed point: validating it again gives the same
    identifier.  The rule of the [/verify] route accepts the same input. *)
Theorem validateNID_canonical (nid clean : string) :
  validateNID nid = Ok clean ->
  clean = strip_spaces nid
  /\ all_digits clean = true
  /\ (String.length clean = 10%nat \/ String.length clean = 17%nat)
  /\ validateNID clean = Ok clean
  /\ nid_rule nid = Ok true.
Proof.
  intros H. pose proof (validateNID_length _ _ H) as L.
  revert H. unfold validateNID, nid_rule.
  destruct (String.eqb nid ""); [discriminate|].
  destruct (negb (Nat.eqb (String.length (strip_spaces nid)) 10)
            && negb (Nat.eqb (String.length (strip_spaces nid)) 17)) eqn:Len;
    [discriminate|].
  destruct (all_digits (strip_spaces nid)) eqn:D; [|discriminate].
  simpl negb. cbv iota. intros H. injection H as <-.
  split; [reflexivity|]. split; [exact D|]. split; [exact L|].
  split; [|reflexivity].
  rewrite (strip_spaces_digits _ D), Len, D. simpl.
  destruct (strip_spaces nid) eqn:E; [|reflexivity].
  destruct L as [L|L]; discriminate L.
Qed.

Lemma validateNID_canonical_witness :
  "1234567890"%string = strip_spaces "123 456 7890"
  /\ all_digits "1234567890" = true
  /\ (String.length "1234567890" = 10%nat \/ String.length "1234567890" = 17%nat)
  /\ validateNID "1234567890" = Ok "1234567890"%string
  /\ nid_rule "123 456 7890" = Ok true.
Proof.
  apply (validateNID_canonical "123 456 7890" "1234567890").
  reflexivity.
Defined.

(** ** The address whitelist *)

Section whitelist_facts.
Variable sql_eq : string -> string -> bool.

Lemma select_allowed_head (table : list allowed_ip) (ip : option string)
      (row : allowed_ip) (rest : list allowed_ip) :
  select_allowed sql_eq table ip = row :: rest ->
  exists a, ip = Some a /\ In row table
            /\ sql_eq (ip_address row) a = true /\ is_active row = true.
Proof.
  unfold select_allowed. destruct ip as [a|]; [|discriminate].
  intros H. exists a. split; [reflexivity|].
  assert (I : row ∈ filter (fun r => sql_eq (ip_address r) a && is_active r) table)
    by (rewrite H; left).
  apply list_elem_of_filter in I as [B I].
  apply Is_true_true in B. apply andb_prop in B as [B1 B2].
  apply list_elem_of_In in I. auto.
Qed.

(** X13.  The middleware lets a request pass only for an address that some
    active row of [allowed_ips] equals; the [systemInfo] it attaches holds
    that address and the row's system name.  A deactivated row, or a
    request without any address, never gets through. *)
Theorem ipWhitelist_sound (table : list allowed_ip) (c : connection_info)
        (info : value) :
  ipWhitelist sql_eq (Ok table) c = Granted info ->
  exists a row,
    clientIP c = Some a
    /\ In row table
    /\ sql_eq (ip_address row) a = true
    /\ is_active row = true
    /\ prop info "ip" = Str a
    /\ prop info "systemName" = Str (system_name row)
    /\ prop info "description" = description row.
Proof.
  unfold ipWhitelist.
  destruct (select_allowed sql_eq table (clientIP c)) as [|row rest] eqn:S;
    [discriminate|].
  destruct (select_allowed_head _ _ _ _ S) as (a & E & I & Q & A).
  intros H. injection H as <-. rewrite E.
  exists a, row. repeat split; assumption.
Qed.

(** X14.  The middleware lets every request pass whose address an active row
    equals. *)
Theorem ipWhitelist_complete (table : list allowed_ip) (c : connection_info)
        (a : string) (row : allowed_ip) :
  clientIP c = Some a ->
  In row table ->
  sql_eq (ip_address row) a = true ->
  is_active row = true ->
  exists info, ipWhitelist sql_eq (Ok table) c = Granted info.
Proof.
  intros E I Q A. unfold ipWhitelist, select_allowed. rewrite E.
  destruct (filter _ table) as [|r rest] eqn:F; [|eauto].
  exfalso.
  assert (X : row ∈ filter (fun r => sql_eq (ip_address r) a && is_active r) table).
  { apply list_elem_of_filter. split; [|apply list_elem_of_In; exact I].
    rewrite Q, A. exact Logic.I. }
  rewrite F in X. inversion X.
Qed.


End whitelist_facts.

Lemma ipWhitelist_sound_witness :
  exists a row,
    clientIP Examples.local_connection = Some a
    /\ In row Examples.allowed_ips
    /\ Examples.sql_eq (ip_address row) a = true
    /\ is_active row = true
    /\ prop Examples.local_system "ip" = Str a
    /\ prop Examples.local_system "systemName" = Str (system_name row)
    /\ prop Examples.local_system "description" = description row.
Proof.
  apply (ipWhitelist_sound Examples.sql_eq Examples.allowed_ips
           Examples.local_connection Examples.local_system).
  reflexivity.
Defined.

Lemma ipWhitelist_complete_witness :
  exists info,
    ipWhitelist Examples.sql_eq (Ok Examples.allowed_ips)
                (mkConnectionInfo "" "" "" None "::1, 10.0.0.7")
    = Granted info.
Proof.
  apply (ipWhitelist_complete Examples.sql_eq Examples.allowed_ips
           (mkConnectionInfo "" "" "" None "::1, 10.0.0.7") "::1"
           (mkAllowedIp "::1" "Local Development IPv6"
                        (Str "Local development environment IPv6") true)).
  - reflexivity.
  - simpl. right. left. reflexivity.
  - reflexivity.
  - reflexivity.
Defined.


(** ** Transactions *)

Import Database.

Ltac split_steps :=
  first [exists [BeginTransaction]; split; [reflexivity|]
        |exists [BeginTransaction; Callback]; split; [reflexivity|]
        |exists [BeginTransaction; Callback; Commit]; split; [reflexivity|]
        |exists [BeginTransaction; Rollback]; split; [reflexivity|]
        |exists [BeginTransaction; Callback; Rollback]; split; [reflexivity|]
        |exists [BeginTransaction; Callback; Commit; Rollback]; split; [reflexivity|]];
  simpl; intuition discriminate.

(** X16.  [transaction] releases the connection exactly once, as its last
    step, whenever it obtained one.  It returns the callback's value only
    if [beginTransaction], the callback and [commit] all succeeded, and
    then nothing is rolled back; in every other case it rolls back once
    and throws - the error of the failed step, or the error of the
    rollback when that fails too. *)
Theorem transaction_releases (o : outcomes) :
  getConnection o = Ok tt ->
  let '(evs, r) := transaction o in
  (exists steps, evs = steps ++ [Release] /\ ~ In Release steps)
  /\ (forall v, r = Ok v <->
                beginTransaction o = Ok tt /\ callback o = Ok v /\ commit o = Ok tt)
  /\ (forall v, r = Ok v -> evs = [BeginTransaction; Callback; Commit; Release])
  /\ (forall e, r = Throw e ->
        (exists steps, evs = steps ++ [Rollback; Release]
                       /\ ~ In Rollback steps /\ ~ In Release steps)
        /\ (forall e', rollback o = Throw e' -> e = e')).
Proof.
  intros G. unfold transaction, transaction_try. rewrite G.
  destruct (beginTransaction o) as [[]|eb];
    [destruct (callback o) as [v0|ec]; [destruct (commit o) as [[]|em]|]|];
    try (destruct (rollback o) as [[]|er]);
    cbn [app];
    (split; [split_steps|split; [|split]]);
    try (intros v; split; [intros H; try discriminate H; injection H as <-; auto
                          |intros (H1 & H2 & H3); congruence]);
    try (intros v H; try discriminate H; reflexivity);
    intros e H; injection H as <-;
    (split; [split_steps | intros e' H'; congruence]).
Qed.

(** A commit that fails: the work is rolled back and the commit's error
    thrown. *)
Lemma transaction_releases_witness :
  let o := mkOutcomes (Ok tt) (Ok tt) (Ok (Num 1))
                      (Throw (Error "Deadlock found when trying to get lock")) (Ok tt) in
  let '(evs, r) := transaction o in
  (exists steps, evs = steps ++ [Release] /\ ~ In Release steps)
  /\ (forall v, r = Ok v <->
                beginTransaction o = Ok tt /\ callback o = Ok v /\ commit o = Ok tt)
  /\ (forall v, r = Ok v -> evs = [BeginTransaction; Callback; Commit; Release])
  /\ (forall e, r = Throw e ->
        (exists steps, evs = steps ++ [Rollback; Release]
                       /\ ~ In Rollback steps /\ ~ In Release steps)
        /\ (forall e', rollback o = Throw e' -> e = e')).
Proof.
  intros o.
  apply (transaction_releases o).
  reflexivity.
Defined.

(** ** The sanitizer, applied again *)

Lemma json_clone_is_json (v : value) : v <> Undefined -> is_json (json_clone v) = true.
Proof.
  induction v as [| | | | |xs IH|ms IH] using value_ind'; try reflexivity.
  - contradiction.
  - intros _. simpl.
    induction xs as [|x r IHr]; [reflexivity|].
    inversion IH as [|? ? Px Pr]; subst.
    rewrite (IHr Pr), andb_true_r.
    destruct x; try reflexivity; apply Px; discriminate.
  - intros _. simpl.
    induction ms as [|[k x] r IHr]; [reflexivity|].
    inversion IH as [|? ? Px Pr]; subst. simpl in Px.
    specialize (IHr Pr).
    destruct x; try exact IHr; rewrite IHr, andb_true_r;
      try reflexivity; apply Px; discriminate.
Qed.

Lemma set_prop_same (o : value) (k : string) :
  truthy (prop o k) = true -> set_prop o k (prop o k) = o.
Proof.
  intros T. destruct (truthy_prop_obj _ _ T) as (ms & -> & A).
  unfold set_prop. f_equal. apply set_member_same. exact A.
Qed.

Lemma set_data_field_same (s : value) (f : string) (x : value) :
  data_field s f = x -> truthy x = true -> set_data_field s f x = s.
Proof.
  unfold data_field, set_data_field. intros <- T.
  rewrite (set_prop_same _ _ T).
  apply set_prop_same.
  destruct (truthy_prop_obj _ _ T) as (dm & -> & _). reflexivity.
Qed.

Lemma set_person_photo_same (s x : value) :
  person_photo s = x -> truthy x = true -> set_person_photo s x = s.
Proof.
  unfold person_photo, set_person_photo. intros <- T.
  rewrite (set_prop_same _ _ T).
  apply set_data_field_same; [reflexivity|].
  destruct (truthy_prop_obj _ _ T) as (pm & -> & _). reflexivity.
Qed.

Lemma marker_not_data_url (f : string) : is_data_url (Str (removed_marker f)) = false.
Proof. reflexivity. Qed.

(** The [forEach] over any list of fields, seen through a read. *)
Lemma fold_large_fields_read (fields : list string) (acc : value * list string)
      (g : string) :
  data_field (fst (fold_left sanitize_large_field fields acc)) g
  = if existsb (String.eqb g) fields && is_data_url (data_field (fst acc) g)
    then Str (removed_marker g) else data_field (fst acc) g.
Proof.
  revert acc. induction fields as [|f r IH]; intros acc; [reflexivity|].
  cbn [fold_left existsb]. rewrite IH, large_field_read.
  destruct (String.eqb g f) eqn:E.
  - apply String.eqb_eq in E. subst f. cbn [andb orb].
    destruct (is_data_url (data_field (fst acc) g)) eqn:D.
    + rewrite marker_not_data_url, andb_false_r. reflexivity.
    + rewrite D, andb_false_r. reflexivity.
  - cbn [andb orb]. reflexivity.
Qed.

Lemma fold_large_fields_person_photo (fields : list string) (acc : value * list string) :
  ~ In "personDetails"%string fields ->
  person_photo (fst (fold_left sanitize_large_field fields acc))
  = person_photo (fst acc).
Proof.
  revert acc. induction fields as [|f r IH]; intros acc N; [reflexivity|].
  cbn [fold_left]. rewrite IH by (intros X; apply N; right; exact X).
  apply large_field_person_photo. intros ->. apply N. left. reflexivity.
Qed.

(** A stage that finds nothing to do leaves the copy alone. *)
Lemma fold_large_fields_idle (fields : list string) (s : value) (l : list string) :
  (forall f, In f fields -> is_data_url (data_field s f) = false) ->
  fst (fold_left sanitize_large_field fields (s, l)) = s.
Proof.
  revert l. induction fields as [|f r IH]; intros l H; [reflexivity|].
  cbn [fold_left]. unfold sanitize_large_field at 2.
  rewrite large_field_guard, (H f) by (left; reflexivity).
  apply IH. intros f' I. apply H. right. exact I.
Qed.

(** What the copy holds, after all stages, at the places the stages test. *)
Lemma sanitize_stages_reads (c : value) :
  let s := fst (fold_left sanitize_large_field largeFields
                          (redact_data_photo (redact_person_photo (c, [])))) in
  person_photo s = (if truthy (person_photo c) then Str PHOTO_REMOVED else person_photo c)
  /\ data_field s "photo"
     = (if truthy (data_field c "photo") then Str PHOTO_REMOVED else data_field c "photo")
  /\ forall f, In f largeFields -> is_data_url (data_field s f) = false.
Proof.
  intros s. subst s.
  set (a1 := redact_person_photo (c, [])).
  set (a2 := redact_data_photo a1).
  destruct (redact_person_photo_read (c, [])) as [P1 D1]. fold a1 in P1, D1.
  destruct (redact_data_photo_read a1) as [P2 D2]. fold a2 in P2, D2.
  cbn [fst] in P1, D1.
  assert (Ph : data_field (fst a2) "photo"
               = if truthy (data_field c "photo") then Str PHOTO_REMOVED
                 else data_field c "photo").
  { rewrite D2, D1 by discriminate. reflexivity. }
  assert (Nd : is_data_url (data_field (fst a2) "photo") = false).
  { rewrite Ph. destruct (truthy (data_field c "photo")) eqn:T; [reflexivity|].
    destruct (is_data_url (data_field c "photo")) eqn:D; [|reflexivity].
    apply is_data_url_truthy in D. congruence. }
  split; [|split].
  - rewrite fold_large_fields_person_photo.
    + rewrite P2. exact P1.
    + unfold largeFields. simpl. intuition discriminate.
  - rewrite fold_large_fields_read, Nd, andb_false_r. exact Ph.
  - intros f Hf. rewrite fold_large_fields_read.
    assert (X : existsb (String.eqb f) largeFields = true).
    { apply existsb_exists. exists f. split; [exact Hf | apply String.eqb_refl]. }
    rewrite X. cbn [andb].
    destruct (is_data_url (data_field (fst a2) f)) eqn:D; [reflexivity | exact D].
Qed.

(** The stages keep the copy an array or an object. *)
Lemma set_prop_is_object (s : value) (k : string) (x : value) :
  truthy (set_prop s k x) && is_object (set_prop s k x) = truthy s && is_object s.
Proof. destruct s; reflexivity. Qed.

Lemma stages_keep_object (c : value) :
  let s := fst (fold_left sanitize_large_field largeFields
                          (redact_data_photo (redact_person_photo (c, [])))) in
  truthy s && is_object s = truthy c && is_object c.
Proof.
  assert (L : forall fields acc,
             truthy (fst (fold_left sanitize_large_field fields acc))
             && is_object (fst (fold_left sanitize_large_field fields acc))
             = truthy (fst acc) && is_object (fst acc)).
  { induction fields as [|f r IH]; intros acc; [reflexivity|].
    cbn [fold_left]. rewrite IH. destruct acc as [s l].
    unfold sanitize_large_field.
    match goal with |- context [if ?g then _ else _] => destruct g end;
      [apply set_prop_is_object | reflexivity]. }
  intros s. subst s. rewrite L.
  unfold redact_data_photo, redact_person_photo.
  repeat match goal with
         | |- context [if ?g then _ else _] => destruct g
         end; cbn [fst]; unfold set_data_field, set_person_photo, set_data_field;
    rewrite ?set_prop_is_object; reflexivity.
Qed.

(** The stages keep a JSON tree a JSON tree. *)
Lemma is_json_assoc (k : string) (ms : list (string * value)) (x : value) :
  is_json (Obj ms) = true -> assoc k ms = Some x -> is_json x = true.
Proof.
  induction ms as [|[k0 v0] r IH]; [discriminate|].
  intros J A. simpl in J. apply andb_prop in J as [J0 Jr].
  simpl in A. destruct (String.eqb k k0).
  - injection A as <-. exact J0.
  - apply IH; assumption.
Qed.

Lemma is_json_prop (s : value) (k : string) :
  is_json s = true -> truthy (prop s k) = true -> is_json (prop s k) = true.
Proof.
  intros J T. destruct (truthy_prop_obj _ _ T) as (ms & -> & A).
  exact (is_json_assoc _ _ _ J A).
Qed.

Lemma is_json_set_prop (s : value) (k : string) (x : value) :
  is_json s = true -> is_json x = true -> is_json (set_prop s k x) = true.
Proof.
  intros J X. destruct s; try exact J. simpl.
  induction ms as [|[k0 v0] r IH]; simpl.
  - rewrite X. reflexivity.
  - simpl in J. apply andb_prop in J as [J0 Jr].
    destruct (String.eqb k k0); simpl.
    + rewrite X. exact Jr.
    + rewrite J0. exact (IH Jr).
Qed.

Lemma is_json_set_data_field (s : value) (f : string) (x : value) :
  is_json s = true -> truthy (prop s "data") = true -> is_json x = true ->
  is_json (set_data_field s f x) = true.
Proof.
  intros J T X. unfold set_data_field.
  apply is_json_set_prop; [exact J|].
  apply is_json_set_prop; [|exact X].
  apply is_json_prop; assumption.
Qed.

Lemma stages_keep_json (c : value) :
  is_json c = true ->
  is_json (fst (fold_left sanitize_large_field largeFields
                          (redact_data_photo (redact_person_photo (c, []))))) = true.
Proof.
  assert (L : forall fields acc,
             is_json (fst acc) = true ->
             is_json (fst (fold_left sanitize_large_field fields acc)) = true).
  { induction fields as [|f r IH]; intros acc J; [exact J|].
    cbn [fold_left]. apply IH. destruct acc as [s l].
    unfold sanitize_large_field.
    destruct (truthy (prop s "data")) eqn:T; [|exact J].
    cbn [andb].
    match goal with |- context [if ?g then _ else _] => destruct g end; [|exact J].
    cbn [fst]. apply is_json_set_data_field; auto. }
  intros J. apply L.
  assert (J1 : is_json (fst (redact_person_photo (c, []))) = true).
  { unfold redact_person_photo.
    destruct (truthy (prop c "data")) eqn:T; [|exact J].
    destruct (truthy (prop (prop c "data") "personDetails")) eqn:T2; [|exact J].
    cbn [andb].
    match goal with |- context [if ?g then _ else _] => destruct g end; [|exact J].
    cbn [fst]. unfold set_person_photo.
    apply is_json_set_data_field; auto.
    apply is_json_set_prop; [|reflexivity].
    apply is_json_prop; [|exact T2]. apply is_json_prop; assumption. }
  destruct (redact_person_photo (c, [])) as [s1 l1]. cbn [fst] in J1.
  unfold redact_data_photo.
  destruct (truthy (prop s1 "data")) eqn:T; [|exact J1].
  cbn [andb].
  match goal with |- context [if ?g then _ else _] => destruct g end; [|exact J1].
  cbn [fst]. apply is_json_set_data_field; auto.
Qed.

(** Running the stages on their own result changes nothing. *)
Lemma stages_fixed_point (c : value) :
  let s := fst (fold_left sanitize_large_field largeFields
                          (redact_data_photo (redact_person_photo (c, [])))) in
  fst (fold_left sanitize_large_field largeFields
                 (redact_data_photo (redact_person_photo (s, [])))) = s.
Proof.
  intros s. destruct (sanitize_stages_reads c) as (P & D & F). fold s in P, D, F.
  assert (E1 : fst (redact_person_photo (s, [])) = s).
  { unfold redact_person_photo. rewrite person_photo_guard.
    destruct (truthy (person_photo s)) eqn:T; [|reflexivity].
    cbn [fst]. apply set_person_photo_same; [|reflexivity].
    rewrite P in T |- *. destruct (truthy (person_photo c)) eqn:Tc; [reflexivity|].
    congruence. }
  destruct (redact_person_photo (s, [])) as [s1 l1]. cbn [fst] in E1. subst s1.
  assert (E2 : fst (redact_data_photo (s, l1)) = s).
  { unfold redact_data_photo. rewrite data_photo_guard.
    destruct (truthy (data_field s "photo")) eqn:T; [|reflexivity].
    cbn [fst]. apply set_data_field_same; [|reflexivity].
    rewrite D in T |- *. destruct (truthy (data_field c "photo")) eqn:Tc; [reflexivity|].
    congruence. }
  destruct (redact_data_photo (s, l1)) as [s2 l2]. cbn [fst] in E2. subst s2.
  apply fold_large_fields_idle. exact F.
Qed.

(** X17.  Sanitising is idempotent: the copy that is stored is one the
    sanitizer would store unchanged.  Applied to its own result,
    [sanitizeResponseData] returns that result. *)
Theorem sanitizeResponseData_idempotent (data : value) :
  sanitizeResponseData (sanitizeResponseData data) = sanitizeResponseData data.
Proof.
  unfold sanitizeResponseData at 2 3.
  destruct (negb (truthy data) || negb (is_object data)) eqn:G.
  - unfold sanitizeResponseData. rewrite G. reflexivity.
  - unfold sanitize_copy.
    set (c := json_clone data).
    assert (Oc : truthy c && is_object c = true).
    { subst c. destruct data; simpl in G; try discriminate G; try reflexivity.
      all: rewrite ?orb_true_r in G; discriminate G. }
    assert (Jc : is_json c = true).
    { subst c. apply json_clone_is_json. intros ->. discriminate G. }
    set (s := fst (fold_left _ _ _)).
    assert (Os : truthy s && is_object s = true)
      by (subst s; rewrite stages_keep_object; exact Oc).
    assert (Js : is_json s = true) by (subst s; apply stages_keep_json; exact Jc).
    unfold sanitizeResponseData, sanitize_copy.
    apply andb_prop in Os as [Ts Ob]. rewrite Ts, Ob. simpl negb. cbv iota.
    rewrite (json_clone_id s Js).
    apply stages_fixed_point.
Qed.

(** X18.  When the sanitizer reports no field (it logs nothing), the copy it
    returns for a JSON response is the response itself: nothing was
    removed silently. *)
Theorem sanitizeResponseData_silent_is_identity (data : value) :
  is_json data = true ->
  sanitizedFields data = [] ->
  sanitizeResponseData data = data.
Proof.
  intros J. unfold sanitizedFields, sanitizeResponseData.
  destruct (negb (truthy data) || negb (is_object data)); [reflexivity|].
  unfold sanitize_copy. rewrite (json_clone_id data J).
  assert (L : forall fields acc,
             snd (fold_left sanitize_large_field fields acc) = [] ->
             fold_left sanitize_large_field fields acc = acc).
  { induction fields as [|f r IH]; intros acc H; [reflexivity|].
    cbn [fold_left] in *. rewrite (IH _ H) in H |- *.
    destruct acc as [s l]. unfold sanitize_large_field in *.
    match goal with |- context [if ?g then _ else _] => destruct g end;
      [|reflexivity].
    cbn [snd] in H. destruct l; discriminate H. }
  intros H. rewrite (L _ _ H) in H |- *.
  assert (R2 : forall acc, snd (redact_data_photo acc) = [] -> redact_data_photo acc = acc).
  { intros [s l]. unfold redact_data_photo.
    match goal with |- context [if ?g then _ else _] => destruct g end;
      [|reflexivity].
    cbn [snd]. intros X. destruct l; discriminate X. }
  rewrite (R2 _ H) in H |- *.
  revert H. unfold redact_person_photo.
  match goal with |- context [if ?g then _ else _] => destruct g end;
    [discriminate | reflexivity].
Qed.

Lemma sanitizeResponseData_silent_is_identity_witness :
  let data := Obj [("success"%string, Bool true);
                   ("data"%string,
                     Obj [("nid"%string, Str "1234567890");
                          ("personDetails"%string, Fixtures.person)])] in
  sanitizeResponseData data = data.
Proof.
  intros data.
  apply (sanitizeResponseData_silent_is_identity data).
  - reflexivity.
  - reflexivity.
Defined.

(** ** The audit row *)

Lemma or_else_truthy (a b : value) : truthy b = true -> truthy (or_else a b) = true.
Proof. intros T. unfold or_else. destruct (truthy a) eqn:E; [exact E | exact T]. Qed.

Section audit_row.
Variable JSON_parse : string -> result value.

(** X19.  Every row the logger binds to the insert fits the columns of
    [request_logs] that are [NOT NULL]: the client address, the system
    name and the identifier are never empty, [null] or [undefined] (they
    fall back to ['unknown'] and ['N/A']); the status is ['SUCCESS'] for a
    status code below 400 and ['ERROR'] otherwise, and an error message is
    bound exactly for the rows marked ['ERROR']; the request data always
    has the three members [nid], [dateOfBirth] and [nameEn], none of them
    [undefined]. *)
Theorem audit_row_wellformed (req : Logger.request) (statusCode startTime now : Z)
        (requestId : string) (data : value) :
  let row := Logger.stored_row JSON_parse req statusCode startTime now requestId data in
  truthy (Logger.client_ip row) = true
  /\ truthy (Logger.system_name row) = true
  /\ truthy (Logger.nid row) = true
  /\ (Logger.status row = "SUCCESS"%string <-> statusCode < 400)
  /\ (Logger.status row = "ERROR"%string <-> 400 <= statusCode)
  /\ (Logger.error_message row = None <-> Logger.status row = "SUCCESS"%string)
  /\ Logger.request_id row = requestId
  /\ Logger.processing_time_ms row = now - startTime
  /\ exists n d m,
      Logger.request_data row
      = Logger.Stringified (Obj [("nid"%string, n); ("dateOfBirth"%string, d);
                                 ("nameEn"%string, m)])
      /\ n <> Undefined /\ d <> Undefined /\ m <> Undefined.
Proof.
  unfold Logger.stored_row, Logger.logRequestToDatabase_start, Logger.build_row.
  destruct (Logger.parse_response JSON_parse data) as [parsed logs].
  cbn [snd Logger.client_ip Logger.system_name Logger.nid Logger.status
       Logger.error_message Logger.request_id Logger.processing_time_ms
       Logger.request_data].
  assert (N : forall v, or_else v Null <> Undefined).
  { intros v. unfold or_else. destruct (truthy v) eqn:T; [|discriminate].
    intros ->. discriminate T. }
  split; [apply or_else_truthy; reflexivity|].
  split; [apply or_else_truthy; reflexivity|].
  split; [apply or_else_truthy; reflexivity|].
  destruct (statusCode <? 400) eqn:L; destruct (statusCode >=? 400) eqn:G; try lia.
  - repeat split; try discriminate; try lia; eauto 10.
  - repeat split; try discriminate; try lia; eauto 10.
Qed.

End audit_row.

(** ** The whitelist and the audit row together *)

Section whitelist_audit.
Variable sql_eq : string -> string -> bool.
Variable JSON_parse : string -> result value.

(** X20.  For a request the whitelist lets pass, the audit row names the
    client by the address the whitelist decided on and by the system name
    of an active row of [allowed_ips] that equals it - with the fallback
    ['unknown'] only where that address or name is the empty string. *)
Theorem granted_request_audit (table : list allowed_ip) (c : connection_info)
        (info body : value) (statusCode startTime now : Z) (requestId : string)
        (data : value) :
  ipWhitelist sql_eq (Ok table) c = Granted info ->
  exists a row,
    clientIP c = Some a
    /\ In row table
    /\ sql_eq (ip_address row) a = true
    /\ is_active row = true
    /\ Logger.client_ip
         (Logger.stored_row JSON_parse (Logger.mkRequest body info)
                            statusCode startTime now requestId data)
       = or_else (Str a) (Str "unknown")
    /\ Logger.system_name
         (Logger.stored_row JSON_parse (Logger.mkRequest body info)
                            statusCode startTime now requestId data)
       = or_else (Str (system_name row)) (Str "unknown").
Proof.
  unfold ipWhitelist.
  destruct (select_allowed sql_eq table (clientIP c)) as [|row rest] eqn:S;
    [discriminate|].
  destruct (select_allowed_head _ _ _ _ _ S) as (a & E & I & Q & A).
  intros H. injection H as <-. rewrite E.
  exists a, row. repeat split; try assumption.
  - unfold Logger.stored_row, Logger.logRequestToDatabase_start, Logger.build_row.
    destruct (Logger.parse_response JSON_parse data) as [parsed logs]. reflexivity.
  - unfold Logger.stored_row, Logger.logRequestToDatabase_start, Logger.build_row.
    destruct (Logger.parse_response JSON_parse data) as [parsed logs]. reflexivity.
Qed.

End whitelist_audit.

Lemma granted_request_audit_witness :
  let req := Logger.mkRequest (Obj [("nid"%string, Str "1234567890")])
                              Examples.local_system in
  exists a row,
    clientIP Examples.local_connection = Some a
    /\ In row Examples.allowed_ips
    /\ Examples.sql_eq (ip_address row) a = true
    /\ is_active row = true
    /\ Logger.client_ip
         (Logger.stored_row Examples.JSON_reject req 200 1700000000000 1700000000120
                            "0b9f1c1e-6f0a-4c56-9d3e-2f1f0a9c7b11" (Str "<html>"))
       = or_else (Str a) (Str "unknown")
    /\ Logger.system_name
         (Logger.stored_row Examples.JSON_reject req 200 1700000000000 1700000000120
                            "0b9f1c1e-6f0a-4c56-9d3e-2f1f0a9c7b11" (Str "<html>"))
       = or_else (Str (system_name row)) (Str "unknown").
Proof.
  intros req.
  apply (granted_request_audit Examples.sql_eq Examples.JSON_reject Examples.allowed_ips
           Examples.local_connection Examples.local_system
           (Obj [("nid"%string, Str "1234567890")])
           200 1700000000000 1700000000120
           "0b9f1c1e-6f0a-4c56-9d3e-2f1f0a9c7b11" (Str "<html>")).
  reflexivity.
Defined.
